(** * MultiValSparseBin: sparse multi-value bin storage and histogram construction

    A shallow embedding of [src/io/multi_val_sparse_bin.hpp] and the
    verification of its specification.

    Conventions of the embedding.
    - [data_size_t], [int] and [size_t] values are integers in [Z]; signed
      overflow is undefined behaviour in C++ and lies outside the model.
    - [VAL_T] values are integers in [Z]; the narrowing [static_cast<VAL_T>]
      is written out as a reduction modulo [2 ^ bits].
    - A [std::vector] is a [list]; the unchecked [operator[]] is a partial
      read or write: an access outside the vector is undefined behaviour and
      yields [None], as does an integer division by zero.
    - [shrink_to_fit] and the aligned allocator only change capacity and
      layout, which the embedding does not track. The [reserve] of
      [CopySubset] is sized from the stored density hint: the conversion of
      [num_data_ * estimate_element_per_row_ * 1.5] to [data_size_t],
      undefined for a value that [data_size_t] cannot hold, and the
      [std::length_error] of a negative size yield [None] as well. The
      [reserve] calls of the constructor are sized from its arguments and
      taken to succeed.
    - An OpenMP [parallel for] whose iterations write disjoint locations is
      run as the sequential loop over the same iterations, and
      [omp_get_num_threads()] is a parameter [num_threads]. *)

From Stdlib Require Import ZArith QArith Lia.
From stdpp Require Import base tactics option list numbers sorting.

Local Open Scope Z_scope.

(** ** Vectors and loops *)

Module Vec.

Definition size {A} (v : list A) : Z := Z.of_nat (length v).

(** [v[i]] as an rvalue. *)
Definition get {A} (v : list A) (i : Z) : option A :=
  if decide (0 ≤ i) then v !! Z.to_nat i else None.

(** [v[i] = x]. *)
Definition set {A} (v : list A) (i : Z) (x : A) : option (list A) :=
  if decide (0 ≤ i < size v) then Some (<[Z.to_nat i := x]> v) else None.

(** [v.resize(n, x)]; a negative [n] converted to [size_t] cannot be
    allocated. *)
Definition resize {A} (v : list A) (n : Z) (x : A) : option (list A) :=
  if decide (0 ≤ n) then Some (list.resize (Z.to_nat n) x v) else None.

(** [v.reserve(n)] for [n] of a signed type: the contents stay as they
    are; a negative [n] converted to [size_t] is beyond [max_size()] and the
    call throws [std::length_error]. *)
Definition reserve {A} (v : list A) (n : Z) : option (list A) :=
  if decide (0 ≤ n) then Some v else None.

(** [std::copy_n(src.data(), n, dst.data() + off)]. *)
Definition copy_n {A} (src : list A) (n : Z) (dst : list A) (off : Z)
  : option (list A) :=
  if decide (0 ≤ n ≤ size src ∧ 0 ≤ off ∧ off + n ≤ size dst)
  then Some (take (Z.to_nat off) dst ++ take (Z.to_nat n) src
             ++ drop (Z.to_nat (off + n)) dst)
  else None.

End Vec.

(** [for (i = i0; <n iterations>; ++i) s = body i s]. *)
Fixpoint for_loop {St : Type} (n : nat) (i : Z) (body : Z → St → option St)
    (s : St) : option St :=
  match n with
  | O => Some s
  | S n' => s' ← body i s; for_loop n' (i + 1) body s'
  end.

(** [for (i = lo; i < hi; ++i) s = body i s]. *)
Definition for_range {St : Type} (lo hi : Z) (body : Z → St → option St)
    (s : St) : option St :=
  for_loop (Z.to_nat (hi - lo)) lo body s.

(** ** Scalar types *)

(** The template parameter [VAL_T]. *)
Inductive VAL_T_kind := uint8_t | uint16_t | uint32_t.

Definition sizeof (t : VAL_T_kind) : Z :=
  match t with uint8_t => 1 | uint16_t => 2 | uint32_t => 4 end.

Definition static_cast_VAL_T (t : VAL_T_kind) (x : Z) : Z :=
  x mod 2 ^ (8 * sizeof t).

Definition static_cast_uint32_t (x : Z) : Z := x mod 2 ^ 32.

(** The density hint is a [double]. Finite values are kept as exact
    rationals (rounding is not modelled); the special values record what a
    floating-point division by zero produces. *)
Inductive double :=
| Finite (q : Q)
| Infinity (negative : bool)
| NaN.

Definition double_of_int (z : Z) : double := Finite (inject_Z z).

Definition Qnegative (q : Q) : bool := (Qnum q <? 0).
Definition Qzero (q : Q) : bool := (Qnum q =? 0).

Definition double_div (x y : double) : double :=
  match x, y with
  | NaN, _ | _, NaN => NaN
  | Infinity _, Infinity _ => NaN
  | Infinity a, Finite q => Infinity (xorb a (Qnegative q))
  | Finite p, Infinity _ => Finite 0%Q
  | Finite p, Finite q =>
      if Qzero q
      then (if Qzero p then NaN else Infinity (Qnegative p))
      else Finite (Qred (p / q))
  end.

(** The product of two [double]s, with the special values of IEEE
    arithmetic (rounding is not modelled). *)
Definition double_mul (x y : double) : double :=
  match x, y with
  | NaN, _ | _, NaN => NaN
  | Finite p, Finite q => Finite (Qred (p * q))
  | Infinity a, Finite q | Finite q, Infinity a =>
      if Qzero q then NaN else Infinity (xorb a (Qnegative q))
  | Infinity a, Infinity b => Infinity (xorb a b)
  end.

(** [static_cast<data_size_t>(x)] of a [double]: the value truncated toward
    zero. The conversion is undefined for NaN, for the infinities and for a
    value whose truncation [data_size_t], a 32-bit signed integer, cannot
    hold. *)
Definition static_cast_data_size_t (x : double) : option Z :=
  match x with
  | Finite q =>
      let z := Qnum q `quot` Z.pos (Qden q) in
      if decide (- 2 ^ 31 ≤ z < 2 ^ 31) then Some z else None
  | _ => None
  end.

(** ** The class *)

Record MultiValSparseBin := mkMultiValSparseBin {
  num_data_ : Z;
  num_bin_ : Z;
  estimate_element_per_row_ : double;
  data_ : list Z;
  row_ptr_ : list Z;
  t_data_ : list (list Z);
}.

Definition set_row_ptr (s : MultiValSparseBin) (rp : list Z) : MultiValSparseBin :=
  mkMultiValSparseBin (num_data_ s) (num_bin_ s) (estimate_element_per_row_ s)
    (data_ s) rp (t_data_ s).

Definition set_data (s : MultiValSparseBin) (d : list Z) : MultiValSparseBin :=
  mkMultiValSparseBin (num_data_ s) (num_bin_ s) (estimate_element_per_row_ s)
    d (row_ptr_ s) (t_data_ s).

Definition set_t_data (s : MultiValSparseBin) (t : list (list Z)) : MultiValSparseBin :=
  mkMultiValSparseBin (num_data_ s) (num_bin_ s) (estimate_element_per_row_ s)
    (data_ s) (row_ptr_ s) t.

Definition set_estimate (s : MultiValSparseBin) (e : double) : MultiValSparseBin :=
  mkMultiValSparseBin (num_data_ s) (num_bin_ s) e
    (data_ s) (row_ptr_ s) (t_data_ s).

Definition set_num_data (s : MultiValSparseBin) (n : Z) : MultiValSparseBin :=
  mkMultiValSparseBin n (num_bin_ s) (estimate_element_per_row_ s)
    (data_ s) (row_ptr_ s) (t_data_ s).

(** [RowPtr(idx)]. *)
Definition RowPtr (s : MultiValSparseBin) (idx : Z) : option Z :=
  Vec.get (row_ptr_ s) idx.

(** ** Finalized structures and their rows *)

(** [RowIndex[i]], read as [0] outside the array. *)
Definition RowIndex (s : MultiValSparseBin) (i : Z) : Z :=
  default 0 (RowPtr s i).

(** Row [r]'s slice of the consolidated store. *)
Definition row_slice (s : MultiValSparseBin) (r : Z) : list Z :=
  take (Z.to_nat (RowIndex s (r + 1) - RowIndex s r))
       (drop (Z.to_nat (RowIndex s r)) (data_ s)).

(** The state between load-finalize and the next refill: [row_ptr_] holds
    [num_data_ + 1] non-decreasing offsets from [0] to the size of [data_],
    and no thread buffer is outstanding. *)
Definition finalized (s : MultiValSparseBin) : Prop :=
  Vec.size (row_ptr_ s) = num_data_ s + 1
  ∧ head (row_ptr_ s) = Some 0
  ∧ Sorted Z.le (row_ptr_ s)
  ∧ list.last (row_ptr_ s) = Some (Vec.size (data_ s))
  ∧ t_data_ s = [].

#[global] Instance finalized_dec s : Decision (finalized s).
Proof. unfold finalized. apply _. Defined.

(** Every stored value is a bin of the structure. *)
Definition bins_in_range (s : MultiValSparseBin) : Prop :=
  Forall (λ b, 0 ≤ b < num_bin_ s) (data_ s).

#[global] Instance bins_in_range_dec s : Decision (bins_in_range s).
Proof. unfold bins_in_range. apply _. Defined.

(** The two row selectors of the accumulator. *)
Inductive row_selector :=
| Identity
| Indexed (data_indices : list Z).

(** The active rows of a call, in processing order. *)
Definition active_rows (sel : row_selector) (start end_ : Z) : list Z :=
  match sel with
  | Identity => seqZ start (end_ - start)
  | Indexed data_indices =>
      take (Z.to_nat (end_ - start)) (drop (Z.to_nat start) data_indices)
  end.

(** The row selected at position [i]. *)
Definition selected (sel : row_selector) (i : Z) : Z :=
  match sel with
  | Identity => i
  | Indexed data_indices => default 0 (Vec.get data_indices i)
  end.

(** The template arguments and pointer arguments a call passes on. *)
Definition is_indexed (sel : row_selector) : bool :=
  match sel with Identity => false | Indexed _ => true end.

Definition indices_of (sel : row_selector) : list Z :=
  match sel with Identity => [] | Indexed data_indices => data_indices end.

Definition use_hessians_of {A} (hessians : option (list A)) : bool :=
  match hessians with Some _ => true | None => false end.

(** The selected positions exist and select rows of the structure. *)
Definition selector_ok (s : MultiValSparseBin) (sel : row_selector)
    (start end_ : Z) : Prop :=
  0 ≤ start
  ∧ match sel with
    | Identity => end_ ≤ num_data_ s
    | Indexed data_indices =>
        end_ ≤ Vec.size data_indices
        ∧ Forall (λ r, 0 ≤ r < num_data_ s) (active_rows sel start end_)
    end.

#[global] Instance selector_ok_dec s sel start end_ :
  Decision (selector_ok s sel start end_).
Proof. unfold selector_ok. destruct sel; apply _. Defined.

(** ** Loading, merging and copying *)

(** Integer division [a / b] of C++: truncating, undefined for [b = 0]. *)
Definition int_div (a b : Z) : option Z :=
  if decide (b = 0) then None else Some (a `quot` b).

(** [while (val >= upper[k]) ++k;] started at the elements of [upper] from
    position [k] on: the loop ends at the first bound above [val], and runs
    off the end of [upper] when there is none. *)
Fixpoint advance_from (us : list Z) (val k : Z) : option Z :=
  match us with
  | [] => None
  | u :: us' => if decide (u ≤ val) then advance_from us' val (k + 1) else Some k
  end.

Definition advance (upper : list Z) (val k : Z) : option Z :=
  if decide (0 ≤ k) then advance_from (drop (Z.to_nat k) upper) val k else None.

(** The local [estimate_num_data] of [CopySubset]:
    [static_cast<data_size_t>(num_data_ * estimate_element_per_row_ * 1.5)]. *)
Definition estimate_num_data (num_data : Z) (estimate_element_per_row : double)
  : option Z :=
  static_cast_data_size_t
    (double_mul (double_mul (double_of_int num_data) estimate_element_per_row)
       (Finite (3 # 2))).

Section Storage.

Variable VAL_T : VAL_T_kind.

(** The constructor. *)
Definition new_MultiValSparseBin (num_threads : Z) (num_data num_bin : Z)
    (estimate_element_per_row : double) : MultiValSparseBin :=
  {| num_data_ := num_data;
     num_bin_ := num_bin;
     estimate_element_per_row_ := estimate_element_per_row;
     data_ := [];
     row_ptr_ := replicate (Z.to_nat (num_data + 1)) 0;
     t_data_ := if decide (1 < num_threads)
                then replicate (Z.to_nat (num_threads - 1)) []
                else [] |}.

Definition PushOneRow (tid idx : Z) (values : list Z) (size : Z)
    (s : MultiValSparseBin) : option MultiValSparseBin :=
  rp ← Vec.set (row_ptr_ s) (idx + 1) size;
  let s := set_row_ptr s rp in
  if decide (tid = 0)
  then d ← for_range 0 size (λ i d,
              v ← Vec.get values i;
              Some (d ++ [static_cast_VAL_T VAL_T v])) (data_ s);
       Some (set_data s d)
  else t ← for_range 0 size (λ i t,
              buf ← Vec.get t (tid - 1);
              v ← Vec.get values i;
              Vec.set t (tid - 1) (buf ++ [static_cast_VAL_T VAL_T v])) (t_data_ s);
       Some (set_t_data s t).

(** [MoveData<use_ext_size>(sizes)]. *)
Definition MoveData (use_ext_size : bool) (sizes : list Z)
    (s : MultiValSparseBin) : option MultiValSparseBin :=
  rp ← for_range 0 (num_data_ s) (λ i rp,
          a ← Vec.get rp (i + 1);
          b ← Vec.get rp i;
          Vec.set rp (i + 1) (a + b)) (row_ptr_ s);
  let s := set_row_ptr s rp in
  if decide (0 < Vec.size (t_data_ s))
  then
    o0 ← (if use_ext_size then Vec.get sizes 0 else Some (Vec.size (data_ s)));
    offsets ← for_range 0 (Vec.size (t_data_ s) - 1) (λ tid offsets,
                 back ← list.last offsets;
                 n ← (if use_ext_size
                      then Vec.get sizes (tid + 1)
                      else src ← Vec.get (t_data_ s) tid; Some (Vec.size src));
                 Some (offsets ++ [back + n])) [o0];
    total ← Vec.get (row_ptr_ s) (num_data_ s);
    d ← Vec.resize (data_ s) total 0;
    d ← for_range 0 (Vec.size (t_data_ s)) (λ tid d,
           src ← Vec.get (t_data_ s) tid;
           off ← Vec.get offsets tid;
           n ← (if use_ext_size
                then Vec.get sizes (tid + 1)
                else Some (Vec.size src));
           Vec.copy_n src n d off) d;
    Some (set_data s d)
  else Some s.

Definition FinishLoad (s : MultiValSparseBin) : option MultiValSparseBin :=
  s ← MoveData false [] s;
  let s := set_t_data s [] in
  total ← Vec.get (row_ptr_ s) (num_data_ s);
  Some (set_estimate s
          (double_div (double_of_int total) (double_of_int (num_data_ s)))).

Definition ReSize (num_data : Z) (s : MultiValSparseBin) : MultiValSparseBin :=
  if decide (num_data_ s ≠ num_data) then set_num_data s num_data else s.

(** [CopySubset(full_bin, used_indices, num_used_indices)]; the density
    hint is read to size the [reserve] call only. *)
Definition CopySubset (other : MultiValSparseBin) (used_indices : list Z)
    (num_used_indices : Z) (s : MultiValSparseBin) : option MultiValSparseBin :=
  rp ← Vec.resize (row_ptr_ s) (num_data_ s + 1) 0;
  let s := set_row_ptr s rp in
  n ← estimate_num_data (num_data_ s) (estimate_element_per_row_ s);
  d ← Vec.reserve [] n;
  let s := set_data s d in
  for_range 0 num_used_indices (λ i s,
    u ← Vec.get used_indices i;
    j_lo ← Vec.get (row_ptr_ other) u;
    j_hi ← Vec.get (row_ptr_ other) (u + 1);
    d ← for_range j_lo j_hi (λ j d,
           v ← Vec.get (data_ other) j;
           Some (d ++ [v])) (data_ s);
    a ← Vec.get (row_ptr_ s) i;
    rp ← Vec.set (row_ptr_ s) (i + 1) (a + j_hi - j_lo);
    Some (set_row_ptr (set_data s d) rp)) s.

(** The body of the loop over [j] of [CopySubFeature] once [val] is read,
    on the state [(buf, bid, k, cur_cnt)]. *)
Definition filter_value (lower upper delta : list Z) (val : Z)
    (st : list Z * Z * Z * Z) : option (list Z * Z * Z * Z) :=
  let '(buf, bid, k, cur_cnt) := st in
  k ← advance upper val k;
  l ← Vec.get lower k;
  if decide (l ≤ val)
  then d ← Vec.get delta k;
       buf ← Vec.set buf bid
               (static_cast_VAL_T VAL_T (static_cast_uint32_t (val - d)));
       Some (buf, bid + 1, k, cur_cnt + 1)
  else Some (buf, bid, k, cur_cnt).

(** The loop over [j] of [CopySubFeature] for one row. *)
Definition filter_row (other : MultiValSparseBin) (lower upper delta : list Z)
    (j_start j_end : Z) (buf : list Z) (bid : Z)
  : option (list Z * Z * Z * Z) :=
  for_range j_start j_end (λ j st,
    val ← Vec.get (data_ other) j;
    filter_value lower upper delta val st) (buf, bid, 0, 0).

(** The body of the [parallel for] over [tid] of [CopySubFeature]. *)
Definition filter_block (other : MultiValSparseBin) (lower upper delta : list Z)
    (block_size : Z) (tid : Z) (st : MultiValSparseBin * list Z)
  : option (MultiValSparseBin * list Z) :=
  let '(s, sizes) := st in
  let start := tid * block_size in
  let end_ := Z.min (num_data_ s) (start + block_size) in
  buf ← (if decide (tid = 0) then Some (data_ s)
         else Vec.get (t_data_ s) (tid - 1));
  '(buf, bid, rp) ← for_range start end_ (λ i '(buf, bid, rp),
      j_start ← RowPtr other i;
      j_end ← RowPtr other (i + 1);
      '(buf, bid, _, cur_cnt) ←
        filter_row other lower upper delta j_start j_end buf bid;
      rp ← Vec.set rp (i + 1) cur_cnt;
      Some (buf, bid, rp)) (buf, 0, row_ptr_ s);
  sizes ← Vec.set sizes tid bid;
  s ← (if decide (tid = 0) then Some (set_data s buf)
       else set_t_data s <$> Vec.set (t_data_ s) (tid - 1) buf);
  Some (set_row_ptr s rp, sizes).

Definition CopySubFeature (num_threads : Z) (other : MultiValSparseBin)
    (lower upper delta : list Z) (s : MultiValSparseBin)
  : option MultiValSparseBin :=
  let min_block_size := 1024 in
  let n_block := Z.min num_threads (num_data_ s `quot` min_block_size) in
  block_size ← int_div (num_data_ s + n_block - 1) n_block;
  let sizes := replicate (Z.to_nat (Vec.size (t_data_ s) + 1)) 0 in
  '(s, sizes) ← for_range 0 n_block
                  (filter_block other lower upper delta block_size) (s, sizes);
  MoveData true sizes s.

End Storage.

(** ** Loading and copying as the specification describes them *)

(** One ingestion call [PushOneRow(tid, idx, values, size)]. *)
Record push := mkPush {
  p_tid : Z;
  p_idx : Z;
  p_values : list Z;
  p_size : Z;
}.

(** The ingestion calls of a load, in the order they take effect. *)
Fixpoint ingest (VAL_T : VAL_T_kind) (ps : list push) (s : MultiValSparseBin)
  : option MultiValSparseBin :=
  match ps with
  | [] => Some s
  | p :: ps' =>
      s' ← PushOneRow VAL_T (p_tid p) (p_idx p) (p_values p) (p_size p) s;
      ingest VAL_T ps' s'
  end.

(** Construction, ingestion and end-of-load finalize. *)
Definition load (VAL_T : VAL_T_kind) (num_threads num_data num_bin : Z)
    (estimate : double) (ps : list push) : option MultiValSparseBin :=
  s ← ingest VAL_T ps (new_MultiValSparseBin num_threads num_data num_bin estimate);
  FinishLoad s.

(** Every row id of [[0, num_data)] is ingested exactly once, by a worker
    that exists, with a count of values that [values] holds. *)
Definition valid_ingestion (num_threads num_data : Z) (ps : list push) : Prop :=
  p_idx <$> ps ≡ₚ seqZ 0 num_data
  ∧ Forall (λ p, 0 ≤ p_tid p < Z.max 1 num_threads
                 ∧ 0 ≤ p_size p ≤ Vec.size (p_values p)) ps.

#[global] Instance valid_ingestion_dec num_threads num_data ps :
  Decision (valid_ingestion num_threads num_data ps).
Proof. unfold valid_ingestion. apply _. Defined.

Definition sumZ (l : list Z) : Z := foldr Z.add 0 l.

(** The total number of ingested bin values. *)
Definition total_ingested (ps : list push) : Z := sumZ (p_size <$> ps).

(** The number of values held by the primary buffer and the thread
    buffers together. *)
Definition buffers_size (s : MultiValSparseBin) : Z :=
  Vec.size (data_ s) + sumZ (Vec.size <$> t_data_ s).

(** What the rest of a load relies on after some ingestion calls. *)
Definition loading (s0 s : MultiValSparseBin) : Prop :=
  num_data_ s = num_data_ s0 ∧ num_bin_ s = num_bin_ s0
  ∧ estimate_element_per_row_ s = estimate_element_per_row_ s0
  ∧ Vec.size (row_ptr_ s) = Vec.size (row_ptr_ s0)
  ∧ Vec.size (t_data_ s) = Vec.size (t_data_ s0).

(** Before the prefix sum, slot [k + 1] of [row_ptr_] holds the length of
    row [k]; the prefix sum turns slot [k] into the sum of the lengths of
    the rows before [k]. *)
Definition row_length (rp : list Z) (k : Z) : Z :=
  default 0 (Vec.get rp (k + 1)).

Definition prefix_sum (rp : list Z) (k : Z) : Z :=
  sumZ (row_length rp <$> seqZ 0 k).

(** The rows of a structure, and the offsets a list of rows is stored at. *)
Definition rows_of (s : MultiValSparseBin) : list (list Z) :=
  row_slice s <$> seqZ 0 (num_data_ s).

Definition offsets_of (rows : list (list Z)) : list Z :=
  (λ j, Vec.size (concat (take j rows))) <$> seq 0 (S (length rows)).

(** The [reserve] of [CopySubset] succeeds on [s]: the product of the row
    count, the density hint and 1.5 is a number whose truncation is a
    [data_size_t] and not negative. *)
Definition reserve_ok (s : MultiValSparseBin) : Prop :=
  is_Some (n ← estimate_num_data (num_data_ s) (estimate_element_per_row_ s);
           Vec.reserve ([] : list Z) n).

#[global] Instance reserve_ok_dec s : Decision (reserve_ok s).
Proof. unfold reserve_ok. apply _. Defined.

(** The preconditions of [CopySubset]: a finalized source, a destination
    resized to [count] rows whose first offset is zero (no operation ever
    writes it) and whose density hint sizes a [reserve] that succeeds, and
    [count] row ids of the source. *)
Definition copy_subset_ok (other : MultiValSparseBin) (used_indices : list Z)
    (count : Z) (s : MultiValSparseBin) : Prop :=
  finalized other
  ∧ num_data_ s = count
  ∧ RowIndex s 0 = 0
  ∧ reserve_ok s
  ∧ 0 ≤ count ≤ Vec.size used_indices
  ∧ Forall (λ r, 0 ≤ r < num_data_ other) (take (Z.to_nat count) used_indices).

#[global] Instance copy_subset_ok_dec other used_indices count s :
  Decision (copy_subset_ok other used_indices count s).
Proof. unfold copy_subset_ok. apply _. Defined.

(** The quotient the specification gives for the density hint. *)
Definition average_per_row (s : MultiValSparseBin) : double :=
  double_div (double_of_int (Vec.size (data_ s))) (double_of_int (num_data_ s)).

Definition is_finite (x : double) : Prop :=
  match x with Finite _ => True | _ => False end.

(** *** The rebin filter *)

(** A loop body run on the elements of a list, left to right. *)
Fixpoint fold_opt {A St : Type} (F : A → St → option St) (l : list A) (st : St)
  : option St :=
  match l with
  | [] => Some st
  | x :: l' => st' ← F x st; fold_opt F l' st'
  end.

(** The first cursor position [k] with [v < upper[k]]. *)
Definition first_range (upper : list Z) (v : Z) : Z :=
  default 0 (advance upper v 0).

(** What the filter emits for a stored value [v]: with [k] its range, the
    value [v - delta[k]] in the arithmetic of the code if [lower[k] <= v],
    nothing otherwise. *)
Definition rebin_value (VAL_T : VAL_T_kind) (lower upper delta : list Z) (v : Z)
  : list Z :=
  let k := first_range upper v in
  if decide (default 0 (Vec.get lower k) ≤ v)
  then [static_cast_VAL_T VAL_T
          (static_cast_uint32_t (v - default 0 (Vec.get delta k)))]
  else [].

Definition rebin_row (VAL_T : VAL_T_kind) (lower upper delta : list Z)
    (row : list Z) : list Z :=
  v ← row; rebin_value VAL_T lower upper delta v.

(** The values of a row lie below the last upper bound and are stored in
    increasing-range order. *)
Definition in_range_order (upper : list Z) (row : list Z) : Prop :=
  Forall (λ v, match list.last upper with Some u => v < u | None => False end) row
  ∧ Sorted Z.le (first_range upper <$> row).

#[global] Instance in_range_order_dec upper row :
  Decision (in_range_order upper row).
Proof.
  unfold in_range_order. apply and_dec; [|apply _].
  apply Forall_dec. intros v. destruct (list.last upper); apply _.
Defined.

(** [vals] written over [buf] from position [bid] on. *)
Definition write_at (buf : list Z) (bid : nat) (vals : list Z) : list Z :=
  take bid buf ++ vals ++ drop (bid + length vals) buf.

(** The rows of block [tid]. *)
Definition block_rows (block_size tid : Z) (rows : list (list Z))
  : list (list Z) :=
  take (Z.to_nat block_size) (drop (Z.to_nat (tid * block_size)) rows).

(** The destination buffer of block [tid]. *)
Definition buffer_of (s : MultiValSparseBin) (tid : Z) : option (list Z) :=
  if decide (tid = 0) then Some (data_ s) else Vec.get (t_data_ s) (tid - 1).

(** The preconditions of [CopySubFeature] on the source and the filter. *)
Definition filter_ok (other : MultiValSparseBin) (lower upper delta : list Z)
  : Prop :=
  finalized other
  ∧ Vec.size upper ≤ Vec.size lower
  ∧ Vec.size upper ≤ Vec.size delta
  ∧ Forall (in_range_order upper) (rows_of other).

#[global] Instance filter_ok_dec other lower upper delta :
  Decision (filter_ok other lower upper delta).
Proof. unfold filter_ok. apply _. Defined.

(** The preconditions on the destination: the row count of the source, at
    least 1024 rows per block, a thread buffer for every block but the
    first, and room in every buffer for what its block emits. *)
Definition dest_ok (num_threads : Z) (rows : list (list Z))
    (s : MultiValSparseBin) : Prop :=
  let n_block := Z.min num_threads (num_data_ s `quot` 1024) in
  let block_size := (num_data_ s + n_block - 1) `quot` n_block in
  num_data_ s = Vec.size rows
  ∧ Vec.size (row_ptr_ s) = num_data_ s + 1
  ∧ Vec.get (row_ptr_ s) 0 = Some 0
  ∧ 1 ≤ n_block
  ∧ Forall (λ tid,
        match buffer_of s tid with
        | Some buf =>
            Vec.size (concat (block_rows block_size tid rows)) ≤ Vec.size buf
        | None => False
        end) (seqZ 0 n_block).

#[global] Instance dest_ok_dec num_threads rows s :
  Decision (dest_ok num_threads rows s).
Proof.
  unfold dest_ok. cbn zeta. repeat (apply and_dec; [apply _|]).
  apply Forall_dec. intros tid. destruct (buffer_of s tid); apply _.
Defined.

(** A source of 1024 rows, row [i] holding the one value [i mod 4], and
    destinations for it with one thread buffer and with none. *)
Definition large_source : MultiValSparseBin :=
  {| num_data_ := 1024; num_bin_ := 4;
     estimate_element_per_row_ := Finite 1;
     data_ := (λ i, i `mod` 4) <$> seqZ 0 1024;
     row_ptr_ := seqZ 0 1025; t_data_ := [] |}.

Definition large_dest (data_size : nat) (t_data : list (list Z))
  : MultiValSparseBin :=
  {| num_data_ := 1024; num_bin_ := 4;
     estimate_element_per_row_ := Finite 1;
     data_ := replicate data_size 0;
     row_ptr_ := replicate 1025 0; t_data_ := t_data |}.

(** ** Histogram construction *)

Section Histogram.

(** [score_t] (gradients and hessians) and [hist_t] (histogram entries)
    are floating-point types in the source. The accumulator only ever
    converts a score and adds it to an entry, so both the types and the
    two operations stay abstract: what is proved without laws on [hadd]
    holds for IEEE addition as well. *)
Context {score_t hist_t : Type}.
Variable to_hist : score_t → hist_t.
Variable hadd : hist_t → hist_t → hist_t.
(** the literal [1.0f] *)
Variable one_f : score_t.
Variable VAL_T : VAL_T_kind.

(** The macro [ACC_GH(hist, i, g, h)]. *)
Definition ACC_GH (hist : list hist_t) (i : Z) (g h : score_t)
  : option (list hist_t) :=
  let ti := Z.shiftl i 1 in
  x ← Vec.get hist ti;
  hist ← Vec.set hist ti (hadd x (to_hist g));
  y ← Vec.get hist (ti + 1);
  Vec.set hist (ti + 1) (hadd y (to_hist h)).

(** The loop over [j] in [[RowPtr(idx), RowPtr(idx + 1))]; the source has
    the same text in the prefetching loop and in the remainder loop. *)
Definition accumulate_row (use_hessians : bool) (s : MultiValSparseBin)
    (gradients hessians : list score_t) (idx : Z) (out : list hist_t)
  : option (list hist_t) :=
  j_start ← RowPtr s idx;
  j_end ← RowPtr s (idx + 1);
  for_range j_start j_end (λ j out,
    bin ← Vec.get (data_ s) j;
    g ← Vec.get gradients idx;
    if use_hessians
    then h ← Vec.get hessians idx; ACC_GH out bin g h
    else ACC_GH out bin g one_f) out.

Definition ConstructHistogramInner (use_indices use_prefetch use_hessians : bool)
    (s : MultiValSparseBin) (data_indices : list Z) (start end_ : Z)
    (gradients hessians : list score_t) (out : list hist_t)
  : option (list hist_t) :=
  let pf_offset := 32 `div` sizeof VAL_T in
  let pf_end := end_ - pf_offset in
  out ← (if use_prefetch
         then for_range start pf_end (λ i out,
                idx ← (if use_indices then Vec.get data_indices i else Some i);
                pf_idx ← (if use_indices
                          then Vec.get data_indices (i + pf_offset)
                          else Some (i + pf_offset));
                (* PREFETCH_T0(data_.data() + row_ptr_[pf_idx]) reads
                   row_ptr_[pf_idx]; the other prefetches only form
                   addresses *)
                _ ← RowPtr s pf_idx;
                accumulate_row use_hessians s gradients hessians idx out) out
         else Some out);
  let i := if use_prefetch then Z.max start pf_end else start in
  for_range i end_ (λ i out,
    idx ← (if use_indices then Vec.get data_indices i else Some i);
    accumulate_row use_hessians s gradients hessians idx out) out.

(** The four overloads of [ConstructHistogram]; absent pointer arguments
    ([nullptr]) are empty lists. *)
Definition ConstructHistogram_indexed_hessians s data_indices start end_
    gradients hessians out :=
  ConstructHistogramInner true true true s data_indices start end_
    gradients hessians out.

Definition ConstructHistogram_range_hessians s start end_
    gradients hessians out :=
  ConstructHistogramInner false false true s [] start end_
    gradients hessians out.

Definition ConstructHistogram_indexed s data_indices start end_
    gradients out :=
  ConstructHistogramInner true true false s data_indices start end_
    gradients [] out.

Definition ConstructHistogram_range s start end_ gradients out :=
  ConstructHistogramInner false false false s [] start end_
    gradients [] out.

(** *** The accumulation the specification describes *)

(** [Accumulate(row_selector, start, end, gradients, hessians_or_absent,
    out_histogram)]: the four overloads behind one signature. *)
Definition Accumulate (s : MultiValSparseBin) (sel : row_selector)
    (start end_ : Z) (gradients : list score_t)
    (hessians : option (list score_t)) (out : list hist_t)
  : option (list hist_t) :=
  match sel, hessians with
  | Indexed data_indices, Some hs =>
      ConstructHistogram_indexed_hessians s data_indices start end_ gradients hs out
  | Identity, Some hs =>
      ConstructHistogram_range_hessians s start end_ gradients hs out
  | Indexed data_indices, None =>
      ConstructHistogram_indexed s data_indices start end_ gradients out
  | Identity, None =>
      ConstructHistogram_range s start end_ gradients out
  end.

(** [hist[k] += x], nothing when [k] is no index of [hist]. *)
Definition add_at (k : Z) (x : score_t) (hist : list hist_t) : list hist_t :=
  match Vec.get hist k with
  | Some y => <[Z.to_nat k := hadd y (to_hist x)]> hist
  | None => hist
  end.

(** [out_histogram[2b] += g; out_histogram[2b+1] += h]. *)
Definition add_bin (g h : score_t) (hist : list hist_t) (b : Z) : list hist_t :=
  add_at (2 * b + 1) h (add_at (2 * b) g hist).

Definition gradient_of (gradients : list score_t) (r : Z) : score_t :=
  default one_f (Vec.get gradients r).

Definition hessian_of (hessians : option (list score_t)) (r : Z) : score_t :=
  match hessians with
  | Some hs => default one_f (Vec.get hs r)
  | None => one_f
  end.

(** For every bin value of row [r]'s slice, in stored order. *)
Definition add_row (s : MultiValSparseBin) (gradients : list score_t)
    (hessians : option (list score_t)) (hist : list hist_t) (r : Z)
  : list hist_t :=
  foldl (add_bin (gradient_of gradients r) (hessian_of hessians r)) hist
    (row_slice s r).

(** For every active row, in row order. *)
Definition Accumulate_spec (s : MultiValSparseBin) (rows : list Z)
    (gradients : list score_t) (hessians : option (list score_t))
    (out : list hist_t) : list hist_t :=
  foldl (add_row s gradients hessians) out rows.

(** What one stored bin value [b] of row [r] adds to entry [k]. *)
Definition contributions_of_bin (gradients : list score_t)
    (hessians : option (list score_t)) (k r b : Z) : list score_t :=
  (if decide (k = 2 * b) then [gradient_of gradients r] else [])
  ++ (if decide (k = 2 * b + 1) then [hessian_of hessians r] else []).

(** Everything a call adds to entry [k], in summation order. *)
Definition contributions (s : MultiValSparseBin) (rows : list Z)
    (gradients : list score_t) (hessians : option (list score_t)) (k : Z)
  : list score_t :=
  r ← rows; b ← row_slice s r; contributions_of_bin gradients hessians k r b.

(** The entry [x] after the scores [cs] were added to it one by one. *)
Definition sum_onto (x : hist_t) (cs : list score_t) : hist_t :=
  foldl (λ y c, hadd y (to_hist c)) x cs.

(** The preconditions of a call: a finalized structure, active rows that
    are rows of it, one gradient (and hessian) per row, and a histogram
    with two entries per bin. *)
Definition accumulate_ok (s : MultiValSparseBin) (sel : row_selector)
    (start end_ : Z) (gradients : list score_t)
    (hessians : option (list score_t)) (out : list hist_t) : Prop :=
  finalized s
  ∧ bins_in_range s
  ∧ selector_ok s sel start end_
  ∧ num_data_ s ≤ Vec.size gradients
  ∧ match hessians with Some hs => num_data_ s ≤ Vec.size hs | None => True end
  ∧ 2 * num_bin_ s ≤ Vec.size out.

#[global] Instance accumulate_ok_dec s sel start end_ gradients hessians out :
  Decision (accumulate_ok s sel start end_ gradients hessians out).
Proof. unfold accumulate_ok. destruct hessians; apply _. Defined.

End Histogram.

(** The rows [{3, 7}], [{}], [{1}] with [num_bin = 8], loaded by one worker. *)
Definition example_bin (VAL_T : VAL_T_kind) : option MultiValSparseBin :=
  s ← PushOneRow VAL_T 0 0 [3; 7] 2 (new_MultiValSparseBin 1 3 8 (Finite 1));
  s ← PushOneRow VAL_T 0 1 [] 0 s;
  s ← PushOneRow VAL_T 0 2 [1] 1 s;
  FinishLoad s.

(** The structure [example_bin] evaluates to. *)
Definition example_finalized : MultiValSparseBin :=
  {| num_data_ := 3; num_bin_ := 8;
     estimate_element_per_row_ := Finite 1;
     data_ := [3; 7; 1]; row_ptr_ := [0; 2; 2; 3]; t_data_ := [] |}.


(** ** Accessors, cloning and sub-feature destinations *)

(** [num_data()], [num_bin()] and [IsSparse()]. *)
Definition num_data (s : MultiValSparseBin) : Z := num_data_ s.

Definition num_bin (s : MultiValSparseBin) : Z := num_bin_ s.

Definition IsSparse (s : MultiValSparseBin) : bool := true.

(** [Clone()], that is the private copy constructor: its initializer list
    names every member but [t_data_], which is default-constructed. *)
Definition Clone (s : MultiValSparseBin) : MultiValSparseBin :=
  mkMultiValSparseBin (num_data_ s) (num_bin_ s) (estimate_element_per_row_ s)
    (data_ s) (row_ptr_ s) [].

Definition set_num_bin (s : MultiValSparseBin) (n : Z) : MultiValSparseBin :=
  mkMultiValSparseBin (num_data_ s) n (estimate_element_per_row_ s)
    (data_ s) (row_ptr_ s) (t_data_ s).

(** What [capacity()] answers for [data_] and for the thread buffer
    [t_data_[i]]. The standard bounds a capacity from below only (by the
    size and by what was reserved), so the calls that read it take the
    answers as an argument, as [omp_get_num_threads()] is taken. *)
Record capacities := mkCapacities {
  capacity_data : Z;
  capacity_t_data : Z → Z;
}.

(** The capacity of the buffer block [tid] of [CopySubFeature] writes to. *)
Definition capacity_of (cap : capacities) (tid : Z) : Z :=
  if decide (tid = 0) then capacity_data cap else capacity_t_data cap (tid - 1).

(** [ReSizeForSubFeature(num_bin, num_features)]; the second argument is
    unnamed and unused in the source, as is the local [parts]. *)
Definition ReSizeForSubFeature (cap : capacities) (num_bin num_features : Z)
    (s : MultiValSparseBin) : option MultiValSparseBin :=
  let s := set_num_bin s num_bin in
  if decide (data_ s = [])
  then d ← Vec.resize (data_ s) (capacity_data cap) 0;
       t ← for_range 0 (Vec.size (t_data_ s)) (λ i t,
              buf ← Vec.get t i;
              buf ← Vec.resize buf (capacity_t_data cap i) 0;
              Vec.set t i buf) (t_data_ s);
       Some (set_t_data (set_data s d) t)
  else Some s.

(** [CreateLike(num_bin, num_features, fraction)]: the constructor, then
    [ReSizeForSubFeature] on the new object, whose capacities are [cap]. *)
Definition CreateLike (num_threads : Z) (cap : capacities)
    (num_bin num_features : Z) (fraction : double) (s : MultiValSparseBin)
  : option MultiValSparseBin :=
  ReSizeForSubFeature cap num_bin num_features
    (new_MultiValSparseBin num_threads (num_data_ s) num_bin
       (double_mul (estimate_element_per_row_ s) fraction)).

(** *** The store a load builds *)

(** The values a call [PushOneRow(tid, idx, values, size)] stores: the
    first [size] of [values], narrowed to [VAL_T]. *)
Definition pushed_values (VAL_T : VAL_T_kind) (p : push) : list Z :=
  static_cast_VAL_T VAL_T <$> take (Z.to_nat (p_size p)) (p_values p).

(** The calls of worker [tid], in the order they took effect. *)
Definition pushes_of (tid : Z) (ps : list push) : list push :=
  filter (λ p, p_tid p = tid) ps.

(** The calls in the order the merged store holds their values: worker 0's
    in its order, then worker 1's, and so on. *)
Definition store_order (num_threads : Z) (ps : list push) : list push :=
  tid ← seqZ 0 (Z.max 1 num_threads); pushes_of tid ps.

(** The primary buffer followed by the thread buffers. *)
Definition buffers (s : MultiValSparseBin) : list (list Z) :=
  data_ s :: t_data_ s.

(** *** Rows and scores of a histogram call *)

(** The row id a histogram call reads at position [i]: [i] itself, or
    [data_indices[i]]. *)
Definition row_at (sel : row_selector) (i : Z) : option Z :=
  match sel with
  | Identity => Some i
  | Indexed data_indices => Vec.get data_indices i
  end.

(** The scores of the rows [row_ids], in that order:
    [gather d scores row_ids [i] = scores[row_ids[i]]]. *)
Definition gather {A} (d : A) (scores : list A) (row_ids : list Z) : list A :=
  (λ r, default d (Vec.get scores r)) <$> row_ids.
(** * Verification *)

(** ** Vector accesses and loops *)

Section VecFacts.

Context {A : Type}.
Implicit Types (v : list A) (i n : Z) (x : A).

Lemma Vec_get_Some v i x :
  Vec.get v i = Some x ↔ 0 ≤ i ∧ v !! Z.to_nat i = Some x.
Proof. unfold Vec.get. case_decide; [tauto|]. split; [done|]. tauto. Qed.

Lemma Vec_get_nat v (k : nat) : Vec.get v (Z.of_nat k) = v !! k.
Proof.
  unfold Vec.get. case_decide; [|lia]. by rewrite Nat2Z.id.
Qed.

Lemma Vec_get_is_Some v i : 0 ≤ i < Vec.size v → is_Some (Vec.get v i).
Proof.
  intros Hi. unfold Vec.get. case_decide; [|lia].
  apply lookup_lt_is_Some. unfold Vec.size in Hi. lia.
Qed.

Lemma Vec_get_lt v i x : Vec.get v i = Some x → 0 ≤ i < Vec.size v.
Proof.
  intros [Hi Hl]%Vec_get_Some. apply lookup_lt_Some in Hl.
  unfold Vec.size. lia.
Qed.

Lemma Vec_get_None v i : ¬ (0 ≤ i < Vec.size v) → Vec.get v i = None.
Proof.
  intros Hi. destruct (Vec.get v i) eqn:E; [|done].
  apply Vec_get_lt in E. lia.
Qed.

Lemma Vec_set_Some v i x :
  0 ≤ i < Vec.size v → Vec.set v i x = Some (<[Z.to_nat i := x]> v).
Proof. intros Hi. unfold Vec.set. by case_decide. Qed.

Lemma Vec_size_insert v (k : nat) x : Vec.size (<[k := x]> v) = Vec.size v.
Proof. unfold Vec.size. by rewrite length_insert. Qed.

Lemma Vec_size_app v w : Vec.size (v ++ w) = Vec.size v + Vec.size w.
Proof. unfold Vec.size. rewrite length_app. lia. Qed.

Lemma Vec_size_nonneg v : 0 ≤ Vec.size v.
Proof. unfold Vec.size. lia. Qed.

(** Reading the positions [a, a + n) of a vector one by one gives the
    sublist at these positions. *)
Lemma fmap_get_seqZ (d : A) v a n :
  0 ≤ a → a + n ≤ Vec.size v →
  (λ j, default d (Vec.get v j)) <$> seqZ a n
  = take (Z.to_nat n) (drop (Z.to_nat a) v).
Proof.
  intros Ha Hn. unfold Vec.size in Hn. apply list_eq. intros k.
  rewrite list_lookup_fmap.
  destruct (decide (Z.of_nat k < n)) as [Hk|Hk].
  - rewrite lookup_seqZ_lt by done. simpl.
    rewrite lookup_take_lt by lia. rewrite lookup_drop.
    replace (a + Z.of_nat k) with (Z.of_nat (Z.to_nat a + k)) by lia.
    rewrite Vec_get_nat.
    destruct (lookup_lt_is_Some_2 v (Z.to_nat a + k)) as [x ->]; [lia|done].
  - rewrite lookup_seqZ_ge by lia. simpl.
    symmetry. apply lookup_take_ge. lia.
Qed.

End VecFacts.

Lemma take_add_drop {A} (l : list A) (n m : nat) :
  take (n + m) l = take n l ++ take m (drop n l).
Proof.
  revert l. induction n as [|n IH]; intros [|x l]; simpl;
    [done|done|by rewrite take_nil|by rewrite IH].
Qed.

Lemma seqZ_to_nat m n : seqZ m (Z.of_nat (Z.to_nat n)) = seqZ m n.
Proof. unfold seqZ. by rewrite Nat2Z.id. Qed.

(** A loop whose body is defined, and given by [f], on every state that
    satisfies the invariant [P] is the left fold of [f] over its range. *)
Lemma for_loop_foldl {St : Type} (P : St → Prop) (body : Z → St → option St)
    (f : St → Z → St) (n : nat) (i : Z) (s : St) :
  P s →
  (∀ j t, i ≤ j < i + Z.of_nat n → P t → body j t = Some (f t j) ∧ P (f t j)) →
  for_loop n i body s = Some (foldl f s (seqZ i (Z.of_nat n)))
  ∧ P (foldl f s (seqZ i (Z.of_nat n))).
Proof.
  revert i s. induction n as [|n IH]; intros i s Hs Hbody; [done|].
  rewrite seqZ_cons by lia. cbn [for_loop foldl].
  destruct (Hbody i s) as [-> HP]; [lia|done|]. cbn [mbind option_bind].
  replace (Z.pred (Z.of_nat (S n))) with (Z.of_nat n) by lia.
  replace (Z.succ i) with (i + 1) by lia.
  apply IH; [done|]. intros j t Hj. apply Hbody. lia.
Qed.

Lemma for_range_foldl {St : Type} (P : St → Prop) (body : Z → St → option St)
    (f : St → Z → St) (lo hi : Z) (s : St) :
  P s →
  (∀ j t, lo ≤ j < hi → P t → body j t = Some (f t j) ∧ P (f t j)) →
  for_range lo hi body s = Some (foldl f s (seqZ lo (hi - lo)))
  ∧ P (foldl f s (seqZ lo (hi - lo))).
Proof.
  intros Hs Hbody. unfold for_range.
  rewrite <- (seqZ_to_nat lo (hi - lo)).
  apply for_loop_foldl; [done|]. intros j t Hj. apply Hbody. lia.
Qed.

Lemma for_range_empty {St : Type} (body : Z → St → option St) (lo hi : Z)
    (s : St) :
  hi ≤ lo → for_range lo hi body s = Some s.
Proof.
  intros Hle. unfold for_range.
  by replace (Z.to_nat (hi - lo)) with 0%nat by lia.
Qed.

Lemma foldl_fmap_l {St B C : Type} (f : St → C → St) (g : B → C) (s : St)
    (l : list B) :
  foldl (λ t j, f t (g j)) s l = foldl f s (g <$> l).
Proof. revert s. induction l as [|x l IH]; intros s; [done|]. apply IH. Qed.

(** ** Finalized structures *)

Lemma Sorted_le_lookup (l : list Z) (i j : nat) a b :
  Sorted Z.le l → l !! i = Some a → l !! j = Some b → (i ≤ j)%nat → a ≤ b.
Proof.
  intros Hs%Sorted_StronglySorted; [|apply _]. revert i j.
  induction Hs as [|x l Hs IH Hx]; intros i j Hi Hj Hij; [done|].
  destruct i as [|i], j as [|j]; simplify_eq/=; try lia.
  - rewrite Forall_forall in Hx. apply Hx. by eapply list_elem_of_lookup_2.
  - eapply IH; eauto. lia.
Qed.

Section Finalized.

Variable s : MultiValSparseBin.
Hypothesis Hfin : finalized s.

Lemma finalized_num_data : 0 ≤ num_data_ s.
Proof.
  destruct Hfin as (Hlen & Hhd & _). unfold Vec.size in Hlen.
  destruct (row_ptr_ s); [done|]. simpl in Hlen. lia.
Qed.

Lemma finalized_RowPtr r :
  0 ≤ r ≤ num_data_ s → RowPtr s r = Some (RowIndex s r).
Proof.
  intros Hr. destruct Hfin as (Hlen & _). unfold RowIndex.
  destruct (Vec_get_is_Some (row_ptr_ s) r) as [a Ha]; [lia|].
  unfold RowPtr. by rewrite Ha.
Qed.

Lemma finalized_RowPtr_0 : RowIndex s 0 = 0.
Proof.
  destruct Hfin as (_ & Hhd & _). unfold RowIndex, RowPtr.
  rewrite head_lookup in Hhd.
  by rewrite (Vec_get_nat _ 0%nat), Hhd.
Qed.

Lemma finalized_RowPtr_last : RowIndex s (num_data_ s) = Vec.size (data_ s).
Proof.
  destruct Hfin as (Hlen & _ & _ & Hlast & _). unfold RowIndex, RowPtr.
  rewrite last_lookup in Hlast. unfold Vec.size in Hlen.
  pose proof finalized_num_data.
  replace (num_data_ s) with (Z.of_nat (pred (length (row_ptr_ s)))) by lia.
  by rewrite Vec_get_nat, Hlast.
Qed.

Lemma finalized_RowIndex_mono i j :
  0 ≤ i ≤ j → j ≤ num_data_ s → RowIndex s i ≤ RowIndex s j.
Proof.
  intros Hi Hj. pose proof Hfin as (_ & _ & Hs & _).
  pose proof (finalized_RowPtr i) as Ha. pose proof (finalized_RowPtr j) as Hb.
  unfold RowPtr in *.
  apply Vec_get_Some in Ha as [_ Ha]; [|lia].
  apply Vec_get_Some in Hb as [_ Hb]; [|lia].
  eapply Sorted_le_lookup; eauto. lia.
Qed.

(** The slice of a row lies inside the store. *)
Lemma finalized_row_bounds r :
  0 ≤ r < num_data_ s →
  0 ≤ RowIndex s r ≤ RowIndex s (r + 1)
  ∧ RowIndex s (r + 1) ≤ Vec.size (data_ s).
Proof.
  intros Hr. rewrite <- finalized_RowPtr_0 at 1.
  rewrite <- finalized_RowPtr_last.
  repeat split; apply finalized_RowIndex_mono; lia.
Qed.

End Finalized.

(** ** The histogram accumulator *)

Section HistogramFacts.

Context {score_t hist_t : Type}.
Variable to_hist : score_t → hist_t.
Variable hadd : hist_t → hist_t → hist_t.
Variable one_f : score_t.
Variable VAL_T : VAL_T_kind.

Local Abbreviation ACC_GH := (ACC_GH to_hist hadd).
Local Abbreviation add_at := (add_at to_hist hadd).
Local Abbreviation add_bin := (add_bin to_hist hadd).
Local Abbreviation add_row := (add_row to_hist hadd one_f).
Local Abbreviation accumulate_row := (accumulate_row to_hist hadd one_f).
Local Abbreviation Accumulate_spec := (Accumulate_spec to_hist hadd one_f).
Local Abbreviation ConstructHistogramInner :=
  (ConstructHistogramInner to_hist hadd one_f VAL_T).
Local Abbreviation Accumulate := (Accumulate to_hist hadd one_f VAL_T).
Local Abbreviation gradient_of := (gradient_of one_f).
Local Abbreviation hessian_of := (hessian_of one_f).
Local Abbreviation contributions := (contributions one_f).
Local Abbreviation contributions_of_bin := (contributions_of_bin one_f).
Local Abbreviation sum_onto := (sum_onto to_hist hadd).

Implicit Types (hist out : list hist_t) (g h x : score_t) (b r k : Z).
Implicit Types (hessians : option (list score_t)).

Lemma add_at_size k x hist : Vec.size (add_at k x hist) = Vec.size hist.
Proof.
  unfold add_at. destruct (Vec.get hist k); [|done]. apply Vec_size_insert.
Qed.

Lemma add_bin_size g h hist b : Vec.size (add_bin g h hist b) = Vec.size hist.
Proof. unfold add_bin. by rewrite !add_at_size. Qed.

Lemma add_row_size s gradients hessians hist r :
  Vec.size (add_row s gradients hessians hist r) = Vec.size hist.
Proof.
  unfold add_row. generalize (row_slice s r). intros l. revert hist.
  induction l as [|b l IH]; intros hist; [done|].
  cbn [foldl]. by rewrite IH, add_bin_size.
Qed.

Lemma Accumulate_spec_size s rows gradients hessians out :
  Vec.size (Accumulate_spec s rows gradients hessians out) = Vec.size out.
Proof.
  unfold Accumulate_spec. revert out.
  induction rows as [|r rows IH]; intros out; [done|].
  cbn [foldl]. by rewrite IH, add_row_size.
Qed.

(** The macro performs the two additions when both entries exist. *)
Lemma ACC_GH_spec hist b g h :
  0 ≤ b → 2 * b + 1 < Vec.size hist →
  ACC_GH hist b g h = Some (add_bin g h hist b).
Proof.
  intros Hb Hlt. unfold ACC_GH, add_bin.
  replace (Z.shiftl b 1) with (2 * b)
    by (rewrite Z.shiftl_mul_pow2 by lia; lia).
  cbn zeta. unfold add_at at 2.
  destruct (Vec_get_is_Some hist (2 * b)) as [x Hx]; [lia|].
  rewrite Hx. cbn [mbind option_bind].
  rewrite Vec_set_Some by lia. cbn [mbind option_bind].
  unfold add_at.
  destruct (Vec_get_is_Some (<[Z.to_nat (2 * b) := hadd x (to_hist g)]> hist)
              (2 * b + 1)) as [y Hy]; [rewrite Vec_size_insert; lia|].
  rewrite Hy. cbn [mbind option_bind].
  apply Vec_set_Some. rewrite Vec_size_insert. lia.
Qed.

Section Call.

Variables (s : MultiValSparseBin) (gradients : list score_t).
Variable hessians : option (list score_t).
Hypothesis Hfin : finalized s.
Hypothesis Hbins : bins_in_range s.
Hypothesis Hgrad : num_data_ s ≤ Vec.size gradients.
Hypothesis Hhess :
  match hessians with Some hs => num_data_ s ≤ Vec.size hs | None => True end.

(** One row: the loop over its slice is defined and adds the row. *)
Lemma accumulate_row_spec r out :
  0 ≤ r < num_data_ s → 2 * num_bin_ s ≤ Vec.size out →
  accumulate_row (use_hessians_of hessians) s gradients
    (default [] hessians) r out
  = Some (add_row s gradients hessians out r).
Proof.
  intros Hr Hout. unfold accumulate_row.
  rewrite !(finalized_RowPtr s Hfin) by lia. cbn [mbind option_bind].
  destruct (finalized_row_bounds s Hfin r Hr) as [[Ha Hab] Hb].
  set (f := λ out j, add_bin (gradient_of gradients r)
                       (hessian_of hessians r) out
                       (default 0 (Vec.get (data_ s) j))).
  edestruct (for_range_foldl (λ o : list hist_t, Vec.size o = Vec.size out))
    with (f := f) as [-> _]; [done| |].
  - intros j o Hj Ho.
    destruct (Vec_get_is_Some (data_ s) j) as [bin Hbin]; [lia|].
    assert (0 ≤ bin < num_bin_ s) as Hrange.
    { apply Vec_get_Some in Hbin as [_ Hbin].
      unfold bins_in_range in Hbins. rewrite Forall_lookup in Hbins.
      by eapply Hbins. }
    destruct (Vec_get_is_Some gradients r) as [g Hg]; [lia|].
    subst f. cbn beta. rewrite Hbin, Hg. simpl.
    unfold gradient_of. rewrite Hg. simpl.
    rewrite add_bin_size. split; [|done].
    destruct hessians as [hs|]; simpl.
    + destruct (Vec_get_is_Some hs r) as [h Hh]; [lia|].
      rewrite Hh. simpl. apply ACC_GH_spec; lia.
    + apply ACC_GH_spec; lia.
  - unfold add_row. f_equal. subst f.
    rewrite (foldl_fmap_l (add_bin _ _)). f_equal.
    apply fmap_get_seqZ; lia.
Qed.

(** A loop over positions that all select rows of the structure adds
    the selected rows in order; this covers the remainder loop, and the
    prefetching loop once its extra reads are known to succeed. *)
Lemma rows_loop_spec (body : Z → list hist_t → option (list hist_t))
    sel lo hi out :
  (∀ i o, lo ≤ i < hi → 2 * num_bin_ s ≤ Vec.size o →
     0 ≤ selected sel i < num_data_ s
     ∧ body i o
       = accumulate_row (use_hessians_of hessians) s gradients
           (default [] hessians) (selected sel i) o) →
  2 * num_bin_ s ≤ Vec.size out →
  for_range lo hi body out
  = Some (Accumulate_spec s (selected sel <$> seqZ lo (hi - lo))
            gradients hessians out).
Proof.
  intros Hbody Hout.
  edestruct (for_range_foldl (λ o : list hist_t, Vec.size o = Vec.size out))
    with (f := λ o i, add_row s gradients hessians o (selected sel i))
    as [-> _]; [done| |].
  - intros i o Hi Ho. rewrite add_row_size. split; [|done].
    destruct (Hbody i o) as [Hsel ->]; [done|lia|].
    apply accumulate_row_spec; [done|lia].
  - unfold Accumulate_spec.
    by rewrite (foldl_fmap_l (add_row s gradients hessians)).
Qed.

End Call.

Lemma pf_offset_pos : 0 < 32 `div` sizeof VAL_T.
Proof. by destruct VAL_T. Qed.

(** Under the preconditions of a call the active rows are the rows
    selected at the positions [start, end). *)
Lemma active_rows_selected s sel start end_ :
  selector_ok s sel start end_ →
  active_rows sel start end_ = selected sel <$> seqZ start (end_ - start).
Proof.
  intros [Hstart Hsel]. destruct sel as [|di]; cbn [active_rows selected].
  - by rewrite list_fmap_id.
  - destruct Hsel as [Hend _].
    destruct (decide (start ≤ end_)).
    + symmetry. apply fmap_get_seqZ; lia.
    + rewrite seqZ_nil by lia.
      by replace (Z.to_nat (end_ - start)) with 0%nat by lia.
Qed.

Lemma selected_in_range s sel start end_ i :
  selector_ok s sel start end_ → start ≤ i < end_ →
  0 ≤ selected sel i < num_data_ s
  ∧ (if is_indexed sel then Vec.get (indices_of sel) i else Some i)
    = Some (selected sel i).
Proof.
  intros Hok Hi. pose proof (active_rows_selected _ _ _ _ Hok) as Hrows.
  destruct Hok as [Hstart Hsel].
  destruct sel as [|di]; cbn [selected is_indexed indices_of] in *.
  - split; [lia|done].
  - destruct Hsel as [Hend Hall].
    destruct (Vec_get_is_Some di i) as [r Hr]; [lia|].
    rewrite Hr. split; [|done]. simpl.
    rewrite Forall_forall in Hall. apply Hall. rewrite Hrows.
    apply list_elem_of_fmap. exists i. cbn [selected]. rewrite Hr.
    split; [done|]. apply elem_of_seqZ. lia.
Qed.

(** Every instance of the template, with or without the prefetching
    loop, computes the accumulation of the specification. *)
Lemma ConstructHistogramInner_spec use_prefetch s sel start end_
    gradients hessians out :
  accumulate_ok s sel start end_ gradients hessians out →
  ConstructHistogramInner (is_indexed sel) use_prefetch
    (use_hessians_of hessians) s (indices_of sel) start end_
    gradients (default [] hessians) out
  = Some (Accumulate_spec s (active_rows sel start end_)
            gradients hessians out).
Proof.
  intros (Hfin & Hbins & Hsel & Hgrad & Hhess & Hout).
  rewrite (active_rows_selected s) by done.
  unfold ConstructHistogramInner. cbn zeta.
  pose proof pf_offset_pos as Hpf.
  set (pf_offset := 32 `div` sizeof VAL_T) in *.
  destruct use_prefetch.
  - rewrite (rows_loop_spec s gradients hessians Hfin Hbins Hgrad Hhess _ sel);
      [|intros i o Hi Ho|done].
    2:{ destruct (selected_in_range s sel start end_ i Hsel) as [Hr ->];
          [lia|].
        destruct (selected_in_range s sel start end_ (i + pf_offset) Hsel)
          as [Hr' ->]; [lia|].
        split; [done|]. simpl.
        by rewrite (finalized_RowPtr s Hfin) by lia. }
    simpl.
    rewrite (rows_loop_spec s gradients hessians Hfin Hbins Hgrad Hhess _ sel);
      [|intros i o Hi Ho|by rewrite Accumulate_spec_size].
    2:{ destruct (selected_in_range s sel start end_ i Hsel) as [Hr ->];
          [lia|done]. }
    f_equal. unfold Accumulate_spec. rewrite <- foldl_app.
    f_equal. rewrite <- fmap_app. f_equal.
    destruct (decide (start ≤ end_ - pf_offset)).
    + rewrite Z.max_r by lia.
      replace (end_ - start)
        with ((end_ - pf_offset - start) + (end_ - (end_ - pf_offset)))
        by lia.
      rewrite seqZ_app by lia. do 2 f_equal. lia.
    + rewrite Z.max_l by lia. by rewrite (seqZ_nil start) by lia.
  - cbn [mbind option_bind].
    apply (rows_loop_spec s gradients hessians Hfin Hbins Hgrad Hhess _ sel);
      [|done].
    intros i o Hi Ho.
    destruct (selected_in_range s sel start end_ i Hsel) as [Hr ->]; done.
Qed.

(** The four overloads compute the accumulation of the specification. *)
Lemma Accumulate_spec_correct s sel start end_ gradients hessians out :
  accumulate_ok s sel start end_ gradients hessians out →
  Accumulate s sel start end_ gradients hessians out
  = Some (Accumulate_spec s (active_rows sel start end_)
            gradients hessians out).
Proof.
  intros Hok.
  destruct sel as [|di], hessians as [hs|];
    apply (ConstructHistogramInner_spec _ _ _ _ _ _ _ _ Hok).
Qed.

(** *** Entry by entry *)

Lemma get_add_at k' x hist k :
  Vec.get (add_at k' x hist) k
  = if decide (k = k')
    then (λ y, hadd y (to_hist x)) <$> Vec.get hist k
    else Vec.get hist k.
Proof.
  unfold add_at. destruct (Vec.get hist k') as [y|] eqn:E.
  - pose proof (Vec_get_lt _ _ _ E) as Hk'. unfold Vec.size in Hk'.
    case_decide as Hk; subst.
    + rewrite E. simpl. unfold Vec.get. case_decide; [|lia].
      apply list_lookup_insert_eq. lia.
    + unfold Vec.get. case_decide; [|done].
      apply list_lookup_insert_ne. lia.
  - case_decide; subst; [by rewrite E|done].
Qed.

Lemma get_add_bin g h hist b k :
  Vec.get (add_bin g h hist b) k
  = (λ y, sum_onto y ((if decide (k = 2 * b) then [g] else [])
                      ++ (if decide (k = 2 * b + 1) then [h] else [])))
    <$> Vec.get hist k.
Proof.
  unfold add_bin. rewrite !get_add_at.
  destruct (Vec.get hist k) as [y|]; repeat case_decide; try done; lia.
Qed.

Lemma sum_onto_app y cs1 cs2 :
  sum_onto y (cs1 ++ cs2) = sum_onto (sum_onto y cs1) cs2.
Proof. apply foldl_app. Qed.

Lemma get_add_row s gradients hessians hist r k :
  Vec.get (add_row s gradients hessians hist r) k
  = (λ y, sum_onto y (b ← row_slice s r;
                      contributions_of_bin gradients hessians k r b))
    <$> Vec.get hist k.
Proof.
  unfold add_row. generalize (row_slice s r). intros l. revert hist.
  induction l as [|b l IH]; intros hist.
  - simpl. by destruct (Vec.get hist k).
  - cbn [foldl]. rewrite IH, get_add_bin, bind_cons.
    destruct (Vec.get hist k) as [y|]; [|done]. simpl.
    f_equal. symmetry. apply sum_onto_app.
Qed.

(** Each entry ends as its value before the call with the contributions of
    the call added to it, in summation order. *)
Lemma get_Accumulate_spec s rows gradients hessians out k :
  Vec.get (Accumulate_spec s rows gradients hessians out) k
  = (λ y, sum_onto y (contributions s rows gradients hessians k))
    <$> Vec.get out k.
Proof.
  unfold Accumulate_spec, contributions. revert out.
  induction rows as [|r rows IH]; intros out.
  - simpl. by destruct (Vec.get out k).
  - cbn [foldl]. rewrite IH, get_add_row, bind_cons.
    destruct (Vec.get out k) as [y|]; [|done]. simpl.
    f_equal. symmetry. apply sum_onto_app.
Qed.

Lemma contributions_nil s rows gradients hessians k :
  (∀ r b, r ∈ rows → b ∈ row_slice s r → k ≠ 2 * b ∧ k ≠ 2 * b + 1) →
  contributions s rows gradients hessians k = [].
Proof.
  intros Hk. unfold contributions.
  induction rows as [|r rows IH]; [done|].
  rewrite bind_cons, IH
    by (intros r' b' ? ?; apply (Hk r' b'); [by right|done]).
  rewrite app_nil_r.
  assert (∀ b, b ∈ row_slice s r → k ≠ 2 * b ∧ k ≠ 2 * b + 1) as Hr
    by (intros b' ?; apply (Hk r b'); [by left|done]).
  induction (row_slice s r) as [|b l IHl]; [done|].
  rewrite bind_cons, IHl by (intros b' ?; apply (Hr b'); by right).
  destruct (Hr b) as [? ?]; [by left|].
  unfold contributions_of_bin. by repeat case_decide.
Qed.

End HistogramFacts.

(** *** Splitting a range *)

Lemma active_rows_split sel start m end_ :
  0 ≤ start → start ≤ m ≤ end_ →
  active_rows sel start end_
  = active_rows sel start m ++ active_rows sel m end_.
Proof.
  intros Hs Hm. destruct sel as [|di]; cbn [active_rows].
  - replace (end_ - start) with ((m - start) + (end_ - m)) by lia.
    rewrite seqZ_app by lia. do 2 f_equal; lia.
  - replace (Z.to_nat (end_ - start))
      with (Z.to_nat (m - start) + Z.to_nat (end_ - m))%nat by lia.
    rewrite take_add_drop. f_equal. rewrite drop_drop. do 2 f_equal. lia.
Qed.

Lemma accumulate_ok_split {score_t hist_t : Type} s sel start m end_
    (gradients : list score_t) hessians (out : list hist_t) :
  start ≤ m ≤ end_ →
  accumulate_ok s sel start end_ gradients hessians out →
  accumulate_ok s sel start m gradients hessians out
  ∧ accumulate_ok s sel m end_ gradients hessians out.
Proof.
  intros Hm (Hfin & Hbins & [Hstart Hsel] & Hrest).
  assert (selector_ok s sel start m ∧ selector_ok s sel m end_) as [? ?];
    [|unfold accumulate_ok; tauto].
  destruct sel as [|di].
  - repeat split; lia.
  - destruct Hsel as [Hend Hall].
    rewrite (active_rows_split _ start m end_) in Hall by lia.
    apply Forall_app in Hall as [? ?]. repeat split; try lia; done.
Qed.

(** Indices that select every position itself select the range. *)
Lemma active_rows_Indexed_id data_indices start end_ :
  0 ≤ start → start < end_ →
  (∀ i, start ≤ i < end_ → Vec.get data_indices i = Some i) →
  end_ ≤ Vec.size data_indices
  ∧ active_rows (Indexed data_indices) start end_
    = active_rows Identity start end_.
Proof.
  intros Hstart Hlt Hid.
  pose proof (Vec_get_lt _ _ _ (Hid (end_ - 1) ltac:(lia))) as Hend.
  split; [lia|]. cbn [active_rows].
  rewrite <- (fmap_get_seqZ 0) by lia.
  rewrite <- (list_fmap_id (seqZ _ _)) at 2.
  apply list_fmap_ext. intros j i [-> Hi]%lookup_seqZ.
  by rewrite Hid by lia.
Qed.

(** ** What a call adds to the histogram *)

(** C1. For a finalized structure, either row selector and hessians present
    or absent, [Accumulate] is defined and adds, for each active row [r] in
    order and each bin value [b] of that row's slice in order, [gradients[r]]
    to [out_histogram[2b]] and [hessians[r]] (or [1.0]) to
    [out_histogram[2b+1]]. On the rows [{3,7}], [{}], [{1}] with
    [num_bin = 8], gradients [1, 2, 3], hessians [0.5, 0.5, 0.5], the range
    [[0, 3)] and a zeroed histogram, the entries 6, 7, 14, 15, 2, 3 become
    1, 0.5, 1, 0.5, 3, 0.5 and every other entry stays zero. *)
Theorem C1_Accumulate_adds_gradients_and_hessians :
  (∀ (score_t hist_t : Type) (to_hist : score_t → hist_t)
     (hadd : hist_t → hist_t → hist_t) (one_f : score_t) (VAL_T : VAL_T_kind)
     (s : MultiValSparseBin) (sel : row_selector) (start end_ : Z)
     (gradients : list score_t) (hessians : option (list score_t))
     (out : list hist_t),
     accumulate_ok s sel start end_ gradients hessians out →
     Accumulate to_hist hadd one_f VAL_T s sel start end_ gradients hessians out
     = Some (Accumulate_spec to_hist hadd one_f s
               (active_rows sel start end_) gradients hessians out))
  ∧ (∀ VAL_T : VAL_T_kind,
       example_bin VAL_T = Some example_finalized
       ∧ Accumulate id Qplus 1%Q VAL_T example_finalized Identity 0 3
           [1; 2; 3]%Q (Some [1 # 2; 1 # 2; 1 # 2]%Q) (replicate 16 0%Q)
         = Some [0; 0; 3; 1 # 2; 0; 0; 1; 1 # 2;
                 0; 0; 0; 0; 0; 0; 1; 1 # 2]%Q).
Proof.
  split.
  - intros. by apply Accumulate_spec_correct.
  - intros []; split; vm_compute; reflexivity.
Qed.

Lemma C1_witness :
  accumulate_ok example_finalized (Indexed [2; 0]) 0 2 [10; 20; 30] None
    (replicate 16 0)
  ∧ Accumulate id Z.add 1 uint16_t example_finalized (Indexed [2; 0]) 0 2
      [10; 20; 30] None (replicate 16 0)
    = Some (Accumulate_spec id Z.add 1 example_finalized
              (active_rows (Indexed [2; 0]) 0 2) [10; 20; 30] None
              (replicate 16 0)).
Proof.
  assert (accumulate_ok example_finalized (Indexed [2; 0]) 0 2 [10; 20; 30]
            None (replicate 16 0)) as Hok
    by (apply (bool_decide_unpack _); vm_compute; exact I).
  split; [exact Hok|].
  exact (proj1 C1_Accumulate_adds_gradients_and_hessians Z Z id Z.add 1
           uint16_t example_finalized (Indexed [2; 0]) 0 2 [10; 20; 30] None
           (replicate 16 0) Hok).
Defined.

Section Additivity.

Context {score_t hist_t : Type}.
Variable to_hist : score_t → hist_t.
Variable hadd : hist_t → hist_t → hist_t.
Variable hzero : hist_t.
Hypothesis hadd_assoc : ∀ x y z, hadd x (hadd y z) = hadd (hadd x y) z.
Hypothesis hadd_zero_r : ∀ x, hadd x hzero = x.

Lemma sum_onto_hadd x y cs :
  sum_onto to_hist hadd (hadd x y) cs = hadd x (sum_onto to_hist hadd y cs).
Proof.
  revert y. induction cs as [|c cs IH]; intros y; [done|].
  cbn [sum_onto foldl]. rewrite <- hadd_assoc. apply IH.
Qed.

Lemma sum_onto_zero x cs :
  sum_onto to_hist hadd x cs = hadd x (sum_onto to_hist hadd hzero cs).
Proof. by rewrite <- sum_onto_hadd, hadd_zero_r. Qed.

End Additivity.

Lemma contributions_app {score_t} (one_f : score_t) s rows1 rows2
    gradients hessians k :
  contributions one_f s (rows1 ++ rows2) gradients hessians k
  = contributions one_f s rows1 gradients hessians k
    ++ contributions one_f s rows2 gradients hessians k.
Proof. unfold contributions. apply bind_app. Qed.

(** C5. In exact arithmetic (addition associative with a neutral zero),
    accumulating [[start, m)] and [[m, end)] into two zeroed buffers and
    adding the buffers entry by entry gives the histogram of one call over
    [[start, end)] into a zeroed buffer, for the same selector. *)
Theorem C5_Accumulate_additive_over_split_ranges
    {score_t hist_t : Type} (to_hist : score_t → hist_t)
    (hadd : hist_t → hist_t → hist_t) (hzero : hist_t) (one_f : score_t)
    (VAL_T : VAL_T_kind) (s : MultiValSparseBin) (sel : row_selector)
    (start m end_ : Z) (gradients : list score_t)
    (hessians : option (list score_t)) (n : nat) :
  (∀ x y z, hadd x (hadd y z) = hadd (hadd x y) z) →
  (∀ x, hadd x hzero = x) →
  start ≤ m ≤ end_ →
  accumulate_ok s sel start end_ gradients hessians (replicate n hzero) →
  ∃ h1 h2 h,
    Accumulate to_hist hadd one_f VAL_T s sel start m gradients hessians
      (replicate n hzero) = Some h1
    ∧ Accumulate to_hist hadd one_f VAL_T s sel m end_ gradients hessians
        (replicate n hzero) = Some h2
    ∧ Accumulate to_hist hadd one_f VAL_T s sel start end_ gradients hessians
        (replicate n hzero) = Some h
    ∧ zip_with hadd h1 h2 = h.
Proof.
  intros Hassoc Hzero Hm Hok.
  destruct (accumulate_ok_split _ _ _ _ _ _ _ _ Hm Hok) as [Hok1 Hok2].
  do 3 eexists.
  rewrite !(Accumulate_spec_correct to_hist hadd one_f VAL_T) by done.
  repeat split.
  assert (0 ≤ start) by (by destruct Hok as (_ & _ & [? _] & _)).
  apply list_eq. intros i.
  rewrite lookup_zip_with, <- !Vec_get_nat, !get_Accumulate_spec, !Vec_get_nat.
  rewrite (active_rows_split sel start m end_), contributions_app by lia.
  destruct (replicate n hzero !! i) as [z|] eqn:Hz; [|done].
  apply lookup_replicate in Hz as [-> _]. simpl.
  rewrite sum_onto_app. f_equal. symmetry. by apply sum_onto_zero.
Qed.

Lemma C5_witness :
  (∀ x y z : Z, x + (y + z) = x + y + z)
  ∧ (∀ x : Z, x + 0 = x)
  ∧ 0 ≤ 1 ≤ 3
  ∧ accumulate_ok example_finalized Identity 0 3 [10; 20; 30]
      (Some [1; 2; 3]) (replicate 16 0)
  ∧ ∃ h1 h2 h,
      Accumulate id Z.add 1 uint8_t example_finalized Identity 0 1
        [10; 20; 30] (Some [1; 2; 3]) (replicate 16 0) = Some h1
      ∧ Accumulate id Z.add 1 uint8_t example_finalized Identity 1 3
          [10; 20; 30] (Some [1; 2; 3]) (replicate 16 0) = Some h2
      ∧ Accumulate id Z.add 1 uint8_t example_finalized Identity 0 3
          [10; 20; 30] (Some [1; 2; 3]) (replicate 16 0) = Some h
      ∧ zip_with Z.add h1 h2 = h.
Proof.
  assert (accumulate_ok example_finalized Identity 0 3 [10; 20; 30]
            (Some [1; 2; 3]) (replicate 16 0)) as Hok
    by (apply (bool_decide_unpack _); vm_compute; exact I).
  split; [intros; lia|]. split; [intros; lia|]. split; [lia|].
  split; [exact Hok|].
  apply (C5_Accumulate_additive_over_split_ranges id Z.add 0 1 uint8_t
           example_finalized Identity 0 1 3 [10; 20; 30] (Some [1; 2; 3]) 16);
    [intros; lia|intros; lia|lia|exact Hok].
Defined.

(** C6. [Accumulate] never zeroes or overwrites the histogram: the buffer
    keeps its size, each entry ends as its value before the call with the
    call's contributions to it added in order, and an entry [2b] or [2b+1]
    whose bin [b] occurs in no processed row's slice is unchanged. *)
Theorem C6_Accumulate_only_adds_to_histogram
    {score_t hist_t : Type} (to_hist : score_t → hist_t)
    (hadd : hist_t → hist_t → hist_t) (one_f : score_t) (VAL_T : VAL_T_kind)
    (s : MultiValSparseBin) (sel : row_selector) (start end_ : Z)
    (gradients : list score_t) (hessians : option (list score_t))
    (out : list hist_t) :
  accumulate_ok s sel start end_ gradients hessians out →
  ∃ out',
    Accumulate to_hist hadd one_f VAL_T s sel start end_ gradients hessians out
    = Some out'
    ∧ Vec.size out' = Vec.size out
    ∧ (∀ k x, Vec.get out k = Some x →
         Vec.get out' k
         = Some (sum_onto to_hist hadd x
                   (contributions one_f s (active_rows sel start end_)
                      gradients hessians k)))
    ∧ (∀ k, (∀ r b, r ∈ active_rows sel start end_ → b ∈ row_slice s r →
               k ≠ 2 * b ∧ k ≠ 2 * b + 1) →
         Vec.get out' k = Vec.get out k).
Proof.
  intros Hok. eexists. split; [by apply Accumulate_spec_correct|].
  split; [apply Accumulate_spec_size|]. split.
  - intros k x Hx. by rewrite get_Accumulate_spec, Hx.
  - intros k Hk. rewrite get_Accumulate_spec, contributions_nil by done.
    by destruct (Vec.get out k).
Qed.

Lemma C6_witness :
  accumulate_ok example_finalized Identity 0 3 [10; 20; 30] None
    (replicate 16 5)
  ∧ ∃ out',
      Accumulate id Z.add 1 uint32_t example_finalized Identity 0 3
        [10; 20; 30] None (replicate 16 5) = Some out'
      ∧ Vec.size out' = Vec.size (replicate 16 5)
      ∧ (∀ k x, Vec.get (replicate 16 5) k = Some x →
           Vec.get out' k
           = Some (sum_onto id Z.add x
                     (contributions 1 example_finalized
                        (active_rows Identity 0 3) [10; 20; 30] None k)))
      ∧ (∀ k, (∀ r b, r ∈ active_rows Identity 0 3 →
                 b ∈ row_slice example_finalized r →
                 k ≠ 2 * b ∧ k ≠ 2 * b + 1) →
           Vec.get out' k = Vec.get (replicate 16 5) k).
Proof.
  assert (accumulate_ok example_finalized Identity 0 3 [10; 20; 30] None
            (replicate 16 5)) as Hok
    by (apply (bool_decide_unpack _); vm_compute; exact I).
  split; [exact Hok|].
  exact (C6_Accumulate_only_adds_to_histogram id Z.add 1 uint32_t
           example_finalized Identity 0 3 [10; 20; 30] None (replicate 16 5)
           Hok).
Defined.

(** C7. The indexed overloads called with [data_indices[i] = i] on
    [[start, end)] return the histogram of the identity overloads over
    [[start, end)]: the prefetching of the indexed path does not change the
    sums. *)
Theorem C7_indexed_with_identity_indices_equals_range
    {score_t hist_t : Type} (to_hist : score_t → hist_t)
    (hadd : hist_t → hist_t → hist_t) (one_f : score_t) (VAL_T : VAL_T_kind)
    (s : MultiValSparseBin) (data_indices : list Z) (start end_ : Z)
    (gradients : list score_t) (hessians : option (list score_t))
    (out : list hist_t) :
  accumulate_ok s Identity start end_ gradients hessians out →
  (∀ i, start ≤ i < end_ → Vec.get data_indices i = Some i) →
  ∃ h,
    Accumulate to_hist hadd one_f VAL_T s (Indexed data_indices) start end_
      gradients hessians out = Some h
    ∧ Accumulate to_hist hadd one_f VAL_T s Identity start end_
        gradients hessians out = Some h.
Proof.
  intros Hok Hid. eexists. split; [|by apply Accumulate_spec_correct].
  destruct (decide (end_ ≤ start)) as [Hle|Hlt].
  - cbn [active_rows]. rewrite seqZ_nil by lia. cbn [Accumulate_spec foldl].
    pose proof (pf_offset_pos VAL_T).
    destruct hessians;
      unfold Accumulate, ConstructHistogram_indexed_hessians,
        ConstructHistogram_indexed, ConstructHistogramInner; cbn zeta;
      rewrite for_range_empty by lia; simpl;
      apply for_range_empty; lia.
  - pose proof Hok as (Hfin & Hbins & [Hstart Hend] & Hrest).
    destruct (active_rows_Indexed_id data_indices start end_)
      as [Hsize Hrows]; [lia..|done|].
    rewrite <- Hrows. apply Accumulate_spec_correct.
    split; [done|]. split; [done|]. split; [|done].
    split; [done|]. split; [done|]. rewrite Hrows. cbn [active_rows].
    apply Forall_seqZ. intros i Hi. cbn beta. lia.
Qed.

Lemma C7_witness :
  accumulate_ok example_finalized Identity 0 3 [10; 20; 30]
    (Some [1; 2; 3]) (replicate 16 0)
  ∧ (∀ i, 0 ≤ i < 3 → Vec.get [0; 1; 2; 7] i = Some i)
  ∧ ∃ h,
      Accumulate id Z.add 1 uint8_t example_finalized (Indexed [0; 1; 2; 7])
        0 3 [10; 20; 30] (Some [1; 2; 3]) (replicate 16 0) = Some h
      ∧ Accumulate id Z.add 1 uint8_t example_finalized Identity 0 3
          [10; 20; 30] (Some [1; 2; 3]) (replicate 16 0) = Some h.
Proof.
  assert (accumulate_ok example_finalized Identity 0 3 [10; 20; 30]
            (Some [1; 2; 3]) (replicate 16 0)) as Hok
    by (apply (bool_decide_unpack _); vm_compute; exact I).
  assert (∀ i, 0 ≤ i < 3 → Vec.get [0; 1; 2; 7] i = Some i) as Hid.
  { intros i Hi.
    assert (i = 0 ∨ i = 1 ∨ i = 2) as [->|[->| ->]] by lia; reflexivity. }
  split; [exact Hok|]. split; [exact Hid|].
  exact (C7_indexed_with_identity_indices_equals_range id Z.add 1 uint8_t
           example_finalized [0; 1; 2; 7] 0 3 [10; 20; 30] (Some [1; 2; 3])
           (replicate 16 0) Hok Hid).
Defined.

(** ** Loading and finalizing *)

(** The invariant rule for loops. *)
Lemma for_loop_inv {St : Type} (I : Z → St → Prop) (body : Z → St → option St)
    (n : nat) (i : Z) (s : St) :
  I i s →
  (∀ j t, i ≤ j < i + Z.of_nat n → I j t →
     ∃ t', body j t = Some t' ∧ I (j + 1) t') →
  ∃ s', for_loop n i body s = Some s' ∧ I (i + Z.of_nat n) s'.
Proof.
  revert i s. induction n as [|n IH]; intros i s Hs Hbody.
  - exists s. split; [done|]. by replace (i + Z.of_nat 0) with i by lia.
  - destruct (Hbody i s) as (t & Ht & HI); [lia|done|].
    destruct (IH (i + 1) t) as (s' & Hs' & HI'); [done| |].
    + intros j u Hj. apply Hbody. lia.
    + exists s'. cbn [for_loop]. rewrite Ht. simpl. split; [done|].
      by replace (i + Z.of_nat (S n)) with (i + 1 + Z.of_nat n) by lia.
Qed.

Lemma for_range_inv {St : Type} (I : Z → St → Prop) (body : Z → St → option St)
    (lo hi : Z) (s : St) :
  lo ≤ hi → I lo s →
  (∀ j t, lo ≤ j < hi → I j t → ∃ t', body j t = Some t' ∧ I (j + 1) t') →
  ∃ s', for_range lo hi body s = Some s' ∧ I hi s'.
Proof.
  intros Hle Hs Hbody.
  destruct (for_loop_inv I body (Z.to_nat (hi - lo)) lo s) as (s' & Hs' & HI);
    [done| |].
  - intros j t Hj. apply Hbody. lia.
  - exists s'. split; [done|].
    by replace (lo + Z.of_nat (Z.to_nat (hi - lo))) with hi in HI by lia.
Qed.

(** Runs the first loop of the goal with invariant [I]: leaves the order of
    the bounds, the invariant at entry and its preservation, then continues
    after the loop with the final state [s'] and [HI : I hi s']. *)
Ltac loop_inv I s' HI :=
  match goal with
  | |- context [for_range ?lo ?hi ?body ?init] =>
      let H := fresh "Hloop" in
      destruct (for_range_inv I body lo hi init) as (s' & H & HI);
      [ | | | rewrite H; clear H; cbn [mbind option_bind] ]
  end.

(** Finalizing a structure that was constructed with zero rows. *)
Lemma MoveData_zero_rows num_threads num_bin estimate :
  MoveData false [] (new_MultiValSparseBin num_threads 0 num_bin estimate)
  = Some (new_MultiValSparseBin num_threads 0 num_bin estimate).
Proof.
  unfold MoveData, new_MultiValSparseBin.
  cbn [num_data_ row_ptr_ t_data_ data_ set_row_ptr set_data
       num_bin_ estimate_element_per_row_].
  rewrite for_range_empty by lia. simpl.
  case_decide as Hnt; [|done].
  case_decide as Ht; [|done].
  set (t := replicate (Z.to_nat (num_threads - 1)) ([] : list Z)) in *.
  assert (∀ tid, 0 ≤ tid < Vec.size t → Vec.get t tid = Some []) as Hget.
  { intros tid Htid. unfold Vec.get. case_decide; [|lia].
    apply lookup_replicate. split; [done|].
    unfold Vec.size, t in Htid. rewrite length_replicate in Htid. lia. }
  loop_inv (λ j (o : list Z), Vec.size o = j + 1
                              ∧ ∀ k, 0 ≤ k ≤ j → Vec.get o k = Some 0)
    offsets Hoff.
  { lia. }
  { split; [done|]. intros k Hk. by replace k with 0 by lia. }
  { intros j o Hj [Hso Ho]. rewrite last_lookup.
    assert (Vec.get o j = Some 0) as Hoj by (apply Ho; lia).
    apply Vec_get_Some in Hoj as [_ Hoj]. unfold Vec.size in Hso.
    replace (pred (length o)) with (Z.to_nat j) by lia.
    rewrite Hoj, Hget by lia. simpl. eexists. split; [done|].
    split; [rewrite Vec_size_app; unfold Vec.size; simpl; lia|].
    intros k Hk. unfold Vec.get. case_decide; [|lia].
    destruct (decide (k = j + 1)) as [->|].
    - rewrite lookup_app_r by lia.
      by replace (Z.to_nat (j + 1) - length o)%nat with 0%nat by lia.
    - rewrite lookup_app_l by lia.
      specialize (Ho k ltac:(lia)). by apply Vec_get_Some in Ho as [_ ?]. }
  destruct Hoff as [Hsize Hoff]. simpl.
  loop_inv (λ (_ : Z) (d : list Z), d = []) d Hd.
  { lia. }
  { done. }
  { intros j d Hj ->. rewrite Hget, Hoff by lia. simpl. by eexists. }
  by subst d.
Qed.

Lemma FinishLoad_zero_rows num_threads num_bin estimate :
  FinishLoad (new_MultiValSparseBin num_threads 0 num_bin estimate)
  = Some {| num_data_ := 0; num_bin_ := num_bin;
            estimate_element_per_row_ := NaN;
            data_ := []; row_ptr_ := [0]; t_data_ := [] |}.
Proof. unfold FinishLoad. by rewrite MoveData_zero_rows. Qed.

(** C9, as stated, fails: a structure constructed with zero rows and the
    density hint 1 is finalized into the empty structure, and the
    recomputation does divide by zero: the hint 1 is overwritten with the
    quotient of [RowIndex[0] = 0] by the row count 0, which is no number. *)
Lemma C9_counterexample :
  ∃ s', FinishLoad (new_MultiValSparseBin 1 0 8 (Finite 1)) = Some s'
        ∧ row_ptr_ s' = [0] ∧ data_ s' = []
        ∧ estimate_element_per_row_ s'
          = double_div (double_of_int (RowIndex s' (num_data_ s')))
              (double_of_int (num_data_ s'))
        ∧ double_of_int (num_data_ s') = Finite 0
        ∧ estimate_element_per_row_ s' = NaN
        ∧ ¬ is_finite (estimate_element_per_row_ s').
Proof.
  rewrite FinishLoad_zero_rows. eexists. split; [done|].
  repeat split; try done. intros [].
Qed.

(** C9, amended. End-of-load finalize of a structure constructed with zero
    rows is defined and yields the empty structure of valid shape
    ([RowIndex = [0]], empty store, no thread buffers); its density-hint
    recomputation is the unguarded floating-point division [0.0 / 0], which
    does not trap and leaves the hint [NaN]. *)
Theorem C9_FinishLoad_zero_rows_empty_structure_NaN_hint
    (num_threads num_bin : Z) (estimate : double) :
  ∃ s',
    FinishLoad (new_MultiValSparseBin num_threads 0 num_bin estimate)
    = Some s'
    ∧ num_data_ s' = 0 ∧ row_ptr_ s' = [0] ∧ data_ s' = [] ∧ t_data_ s' = []
    ∧ finalized s'
    ∧ double_of_int (num_data_ s') = Finite 0
    ∧ estimate_element_per_row_ s' = NaN.
Proof.
  eexists. split; [apply FinishLoad_zero_rows|].
  repeat split; try done. repeat constructor.
Qed.

(** ** The row blocks of CopySubFeature *)

Lemma CopySubFeature_few_rows VAL_T num_threads other lower upper delta s :
  1 ≤ num_threads → 0 ≤ num_data_ s < 1024 →
  Z.min num_threads (num_data_ s `quot` 1024) = 0
  ∧ CopySubFeature VAL_T num_threads other lower upper delta s = None.
Proof.
  intros Hnt Hn.
  assert (Z.min num_threads (num_data_ s `quot` 1024) = 0) as Hblock.
  { rewrite Z.quot_small by lia. lia. }
  split; [done|]. unfold CopySubFeature. cbn zeta. by rewrite Hblock.
Qed.

(** With a positive block count the blocks partition the rows: every row
    id lies in the range [start, end) of exactly one block. *)
Lemma blocks_partition_rows (num_data n_block i : Z) :
  1 ≤ n_block → 0 ≤ i < num_data →
  let block_size := (num_data + n_block - 1) `quot` n_block in
  let in_block tid :=
    0 ≤ tid < n_block
    ∧ tid * block_size ≤ i < Z.min num_data (tid * block_size + block_size) in
  in_block (i `div` block_size)
  ∧ ∀ tid, in_block tid → tid = i `div` block_size.
Proof.
  intros Hb Hi. cbn zeta.
  rewrite Z.quot_div_nonneg by lia.
  set (bs := (num_data + n_block - 1) `div` n_block).
  pose proof (Z.div_mod (num_data + n_block - 1) n_block ltac:(lia)) as Hdm.
  pose proof (Z.mod_pos_bound (num_data + n_block - 1) n_block ltac:(lia)).
  fold bs in Hdm.
  assert (1 ≤ bs) by (apply Z.div_le_lower_bound; lia).
  assert (num_data ≤ n_block * bs) by lia.
  pose proof (Z.div_mod i bs ltac:(lia)) as Hi'.
  pose proof (Z.mod_pos_bound i bs ltac:(lia)).
  split.
  - repeat split; nia.
  - intros tid [Htid Hrange]. apply Z.div_unique with (i - tid * bs); lia.
Qed.

(** C10 fails on the code: for any structure with fewer than 1024 rows the
    block count of [CopySubFeature] is zero, so the block size is an integer
    division by zero and no row is processed. *)
Theorem C10_n_block_zero_below_1024_rows
    (VAL_T : VAL_T_kind) (num_threads : Z) (other : MultiValSparseBin)
    (lower upper delta : list Z) (s : MultiValSparseBin) :
  1 ≤ num_threads → 1 ≤ num_data_ s < 1024 →
  Z.min num_threads (num_data_ s `quot` 1024) = 0
  ∧ int_div (num_data_ s + 0 - 1) 0 = None
  ∧ CopySubFeature VAL_T num_threads other lower upper delta s = None.
Proof.
  intros Hnt Hn.
  destruct (CopySubFeature_few_rows VAL_T num_threads other lower upper delta s)
    as [? ?]; [lia..|done].
Qed.

Lemma C10_witness :
  1 ≤ 4 ∧ 1 ≤ num_data_ example_finalized < 1024
  ∧ Z.min 4 (num_data_ example_finalized `quot` 1024) = 0
  ∧ int_div (num_data_ example_finalized + 0 - 1) 0 = None
  ∧ CopySubFeature uint8_t 4 example_finalized [0] [8] [0] example_finalized
    = None.
Proof.
  split; [lia|]. split; [simpl; lia|].
  apply (C10_n_block_zero_below_1024_rows uint8_t 4 example_finalized
           [0] [8] [0] example_finalized); simpl; lia.
Defined.

(** C3 fails on the code at the specification's own three-row example: with
    the full-range filter [lower = 0], [upper = num_bin], [delta = 0] the
    call does not reproduce the source, it has no defined result, for any
    number of threads and any destination of three rows. *)
Theorem C3_CopySubFeature_undefined_on_three_rows
    (VAL_T : VAL_T_kind) (num_threads : positive) (s : MultiValSparseBin) :
  example_bin VAL_T = Some example_finalized
  ∧ Z.min (Z.pos num_threads) (num_data_ (set_num_data s 3) `quot` 1024) = 0
  ∧ CopySubFeature VAL_T (Z.pos num_threads) example_finalized [0] [8] [0]
      (set_num_data s 3)
    = None.
Proof.
  split; [by destruct VAL_T|].
  apply CopySubFeature_few_rows; simpl; lia.
Qed.

(** ** Rows and offsets *)

Lemma Vec_ext {A} (v w : list A) :
  Vec.size v = Vec.size w →
  (∀ i, 0 ≤ i < Vec.size v → Vec.get v i = Vec.get w i) →
  v = w.
Proof.
  unfold Vec.size. intros Hlen Hget. apply list_eq. intros k.
  destruct (decide (k < length v)%nat) as [Hk|Hk].
  - rewrite <- !Vec_get_nat. apply Hget. lia.
  - rewrite !lookup_ge_None_2; [done|lia..].
Qed.

Lemma Vec_get_set_eq {A} (v : list A) i x :
  0 ≤ i < Vec.size v → Vec.get (<[Z.to_nat i := x]> v) i = Some x.
Proof.
  intros Hi. unfold Vec.get. case_decide; [|lia].
  apply list_lookup_insert_eq. unfold Vec.size in Hi. lia.
Qed.

Lemma Vec_get_set_ne {A} (v : list A) i j x :
  0 ≤ i → i ≠ j → Vec.get (<[Z.to_nat i := x]> v) j = Vec.get v j.
Proof.
  intros Hi Hne. unfold Vec.get. case_decide; [|done].
  apply list_lookup_insert_ne. lia.
Qed.

Lemma length_offsets_of rows : Vec.size (offsets_of rows) = Vec.size rows + 1.
Proof.
  unfold offsets_of, Vec.size. rewrite length_fmap, length_seq. lia.
Qed.

Lemma get_offsets_of rows j :
  0 ≤ j ≤ Vec.size rows →
  Vec.get (offsets_of rows) j
  = Some (Vec.size (concat (take (Z.to_nat j) rows))).
Proof.
  intros Hj. unfold Vec.size in Hj. unfold Vec.get, offsets_of.
  case_decide; [|lia]. rewrite list_lookup_fmap, lookup_seq_lt by lia. done.
Qed.

Lemma take_S_concat {A} (rows : list (list A)) (j : nat) (r : list A) :
  rows !! j = Some r →
  concat (take (S j) rows) = concat (take j rows) ++ r.
Proof.
  intros Hr. rewrite (take_S_r _ _ _ Hr), concat_app. simpl.
  by rewrite app_nil_r.
Qed.

(** A structure whose offsets were built from a list of rows and whose
    store begins with these rows has them as its slices. *)
Lemma row_slice_offsets_of s rows rest i :
  row_ptr_ s = offsets_of rows → data_ s = concat rows ++ rest →
  0 ≤ i < Vec.size rows →
  rows !! Z.to_nat i = Some (row_slice s i)
  ∧ RowIndex s (i + 1) = RowIndex s i + Vec.size (row_slice s i).
Proof.
  intros Hrp Hd Hi.
  destruct (lookup_lt_is_Some_2 rows (Z.to_nat i)) as [r Hr];
    [unfold Vec.size in Hi; lia|].
  assert (RowIndex s i = Vec.size (concat (take (Z.to_nat i) rows))) as Ha.
  { unfold RowIndex, RowPtr. rewrite Hrp, get_offsets_of by lia. done. }
  assert (RowIndex s (i + 1)
          = Vec.size (concat (take (Z.to_nat i) rows)) + Vec.size r) as Hb.
  { unfold RowIndex, RowPtr. rewrite Hrp, get_offsets_of by lia. simpl.
    replace (Z.to_nat (i + 1)) with (S (Z.to_nat i)) by lia.
    by rewrite (take_S_concat _ _ _ Hr), Vec_size_app. }
  assert (row_slice s i = r) as Hslice.
  { assert (concat rows ++ rest
            = concat (take (Z.to_nat i) rows)
              ++ r ++ (concat (drop (S (Z.to_nat i)) rows) ++ rest)) as Hc.
    { rewrite <- (take_drop_middle rows _ r Hr) at 1.
      rewrite concat_app. simpl. by rewrite <- !app_assoc. }
    unfold row_slice. rewrite Ha, Hb, Hd, Hc.
    generalize (concat (take (Z.to_nat i) rows)). intros pre.
    unfold Vec.size. rewrite Nat2Z.id, drop_app_length.
    replace (Z.to_nat _) with (length r) by lia.
    apply take_app_length. }
  rewrite Hslice. split; [done|lia].
Qed.

Section FinalizedRows.

Variable s : MultiValSparseBin.
Hypothesis Hfin : finalized s.

Lemma row_slice_size r :
  0 ≤ r < num_data_ s →
  Vec.size (row_slice s r) = RowIndex s (r + 1) - RowIndex s r.
Proof.
  intros Hr. destruct (finalized_row_bounds s Hfin r Hr) as [[Ha Hab] Hb].
  unfold row_slice, Vec.size in *. rewrite length_take, length_drop. lia.
Qed.

Lemma length_rows_of : Vec.size (rows_of s) = num_data_ s.
Proof.
  pose proof (finalized_num_data s Hfin).
  unfold rows_of, Vec.size. rewrite length_fmap, length_seqZ. lia.
Qed.

Lemma lookup_rows_of r :
  0 ≤ r < num_data_ s → rows_of s !! Z.to_nat r = Some (row_slice s r).
Proof.
  intros Hr. unfold rows_of.
  rewrite list_lookup_fmap, lookup_seqZ_lt by lia. simpl.
  do 2 f_equal. lia.
Qed.

(** The first [j] rows are the store up to the offset of row [j]. *)
Lemma concat_take_rows_of (j : nat) :
  Z.of_nat j ≤ num_data_ s →
  concat (take j (rows_of s))
  = take (Z.to_nat (RowIndex s (Z.of_nat j))) (data_ s).
Proof.
  induction j as [|j IH]; intros Hj.
  - change (Z.of_nat 0) with 0. by rewrite (finalized_RowPtr_0 s Hfin).
  - pose proof (lookup_rows_of (Z.of_nat j) ltac:(lia)) as Hr.
    rewrite Nat2Z.id in Hr.
    rewrite (take_S_concat _ _ _ Hr), IH by lia.
    destruct (finalized_row_bounds s Hfin (Z.of_nat j) ltac:(lia))
      as [[Ha Hab] Hb].
    replace (Z.of_nat (S j)) with (Z.of_nat j + 1) by lia.
    unfold row_slice.
    replace (Z.to_nat (RowIndex s (Z.of_nat j + 1)))
      with (Z.to_nat (RowIndex s (Z.of_nat j))
            + Z.to_nat (RowIndex s (Z.of_nat j + 1) - RowIndex s (Z.of_nat j)))%nat
      by lia.
    by rewrite take_add_drop.
Qed.

(** A finalized structure is the layout of its rows. *)
Lemma finalized_layout :
  row_ptr_ s = offsets_of (rows_of s) ∧ data_ s = concat (rows_of s).
Proof.
  pose proof (finalized_num_data s Hfin) as Hn.
  pose proof length_rows_of as Hlen.
  split.
  - apply Vec_ext.
    + rewrite length_offsets_of, Hlen. by destruct Hfin as (? & _).
    + intros i Hi. destruct Hfin as (Hsize & _). rewrite Hsize in Hi.
      rewrite get_offsets_of by lia.
      rewrite concat_take_rows_of by lia.
      fold (RowPtr s i). rewrite (finalized_RowPtr s Hfin) by lia.
      f_equal. rewrite Z2Nat.id by lia.
      pose proof (finalized_RowIndex_mono s Hfin 0 i ltac:(lia) ltac:(lia)).
      pose proof (finalized_RowIndex_mono s Hfin i (num_data_ s)
                    ltac:(lia) ltac:(lia)).
      rewrite (finalized_RowPtr_0 s Hfin) in *.
      rewrite (finalized_RowPtr_last s Hfin) in *.
      unfold Vec.size in *. rewrite length_take. lia.
  - rewrite <- (take_ge (rows_of s) (Z.to_nat (num_data_ s)))
      by (unfold Vec.size in Hlen; lia).
    rewrite concat_take_rows_of by lia.
    rewrite Z2Nat.id, (finalized_RowPtr_last s Hfin) by lia.
    unfold Vec.size. rewrite Nat2Z.id. by rewrite take_ge.
Qed.

End FinalizedRows.

(** ** CopySubset *)

Lemma foldl_snoc_fmap {A B} (g : B → A) (d : list A) (l : list B) :
  foldl (λ d j, d ++ [g j]) d l = d ++ (g <$> l).
Proof.
  revert d. induction l as [|x l IH]; intros d; simpl.
  - by rewrite app_nil_r.
  - by rewrite IH, <- app_assoc.
Qed.

(** Appending the positions [lo, hi) of a vector one by one appends the
    sublist at these positions. *)
Lemma copy_range_loop (data d : list Z) lo hi :
  0 ≤ lo → lo ≤ hi → hi ≤ Vec.size data →
  for_range lo hi (λ j d, v ← Vec.get data j; Some (d ++ [v])) d
  = Some (d ++ take (Z.to_nat (hi - lo)) (drop (Z.to_nat lo) data)).
Proof.
  intros Hlo Hle Hhi.
  edestruct (for_range_foldl (λ _ : list Z, True))
    with (f := λ (d : list Z) j, d ++ [default 0 (Vec.get data j)])
    as [-> _]; [done| |].
  - intros j t Hj _. split; [|done].
    destruct (Vec_get_is_Some data j) as [v ->]; [lia|done].
  - rewrite (foldl_snoc_fmap (λ j, default 0 (Vec.get data j))).
    by rewrite fmap_get_seqZ by lia.
Qed.

Lemma Vec_get_resize_0 (rp : list Z) n :
  0 < n → default 0 (Vec.get rp 0) = 0 →
  Vec.get (resize (Z.to_nat n) 0 rp) 0 = Some 0.
Proof.
  intros Hn Hrp. rewrite (Vec_get_nat _ 0%nat).
  rewrite (Vec_get_nat _ 0%nat) in Hrp.
  destruct (Z.to_nat n) as [|k] eqn:Hk; [lia|].
  destruct rp as [|x rp]; simpl in *; by subst.
Qed.

Lemma reserve_ok_Some s :
  reserve_ok s →
  ∃ n, estimate_num_data (num_data_ s) (estimate_element_per_row_ s) = Some n
       ∧ Vec.reserve ([] : list Z) n = Some [].
Proof.
  unfold reserve_ok. intros [d Hd].
  destruct (estimate_num_data _ _) as [n|]; [|done].
  exists n. split; [done|]. cbn [mbind option_bind] in Hd.
  unfold Vec.reserve in *. by case_decide.
Qed.

Lemma CopySubset_spec other used_indices count s :
  copy_subset_ok other used_indices count s →
  CopySubset other used_indices count s
  = Some {| num_data_ := num_data_ s;
            num_bin_ := num_bin_ s;
            estimate_element_per_row_ := estimate_element_per_row_ s;
            data_ := concat (row_slice other <$> take (Z.to_nat count) used_indices);
            row_ptr_ := offsets_of (row_slice other
                                    <$> take (Z.to_nat count) used_indices);
            t_data_ := t_data_ s |}.
Proof.
  intros (Hfin & Hnum & Hrp0 & Hres & Hcount & Hused).
  set (rows := row_slice other <$> take (Z.to_nat count) used_indices).
  assert (Vec.size rows = count) as Hrows.
  { unfold rows, Vec.size in *. rewrite length_fmap, length_take. lia. }
  destruct (reserve_ok_Some s Hres) as (est & Hn & Hreserve).
  unfold CopySubset, Vec.resize. case_decide; [|lia].
  cbn [mbind option_bind num_data_ estimate_element_per_row_ set_row_ptr].
  rewrite Hn. cbn [mbind option_bind]. rewrite Hreserve.
  cbn [mbind option_bind]. rewrite Hnum.
  loop_inv (λ j st,
              num_data_ st = num_data_ s ∧ num_bin_ st = num_bin_ s
              ∧ estimate_element_per_row_ st = estimate_element_per_row_ s
              ∧ t_data_ st = t_data_ s
              ∧ data_ st = concat (take (Z.to_nat j) rows)
              ∧ Vec.size (row_ptr_ st) = count + 1
              ∧ ∀ k, 0 ≤ k ≤ j →
                  Vec.get (row_ptr_ st) k
                  = Some (Vec.size (concat (take (Z.to_nat k) rows))))
    s' HI.
  - lia.
  - repeat split; try done.
    + cbn [row_ptr_ set_data set_row_ptr]. unfold Vec.size.
      rewrite length_resize. lia.
    + intros k Hk. replace k with 0 by lia.
      cbn [row_ptr_ set_data set_row_ptr].
      apply Vec_get_resize_0; [lia|done].
  - intros j st Hj (Hnd & Hb & He & Ht & Hd & Hsize & Hget).
    destruct (Vec_get_is_Some used_indices j) as [u Hu]; [lia|].
    assert (take (Z.to_nat count) used_indices !! Z.to_nat j = Some u) as Hju.
    { rewrite lookup_take_lt by lia. by apply Vec_get_Some in Hu as [_ ?]. }
    assert (0 ≤ u < num_data_ other) as Hur.
    { rewrite Forall_lookup in Hused. by eapply Hused. }
    assert (rows !! Z.to_nat j = Some (row_slice other u)) as Hrow.
    { unfold rows. by rewrite list_lookup_fmap, Hju. }
    destruct (finalized_row_bounds other Hfin u Hur) as [[Ha Hab] Hhi].
    rewrite Hu. cbn [mbind option_bind].
    fold (RowPtr other u). fold (RowPtr other (u + 1)).
    rewrite !(finalized_RowPtr other Hfin) by lia. cbn [mbind option_bind].
    rewrite copy_range_loop by lia. cbn [mbind option_bind].
    rewrite (Hget j) by lia. cbn [mbind option_bind].
    rewrite Vec_set_Some by lia. cbn [mbind option_bind].
    eexists. split; [done|].
    cbn [num_data_ num_bin_ estimate_element_per_row_ t_data_ data_ row_ptr_
         set_data set_row_ptr].
    repeat split; try done.
    + replace (Z.to_nat (j + 1)) with (S (Z.to_nat j)) by lia.
      by rewrite (take_S_concat _ _ _ Hrow), Hd.
    + by rewrite Vec_size_insert.
    + intros k Hk. destruct (decide (k = j + 1)) as [->|Hne].
      * rewrite Vec_get_set_eq by lia. f_equal.
        replace (Z.to_nat (j + 1)) with (S (Z.to_nat j)) by lia.
        rewrite (take_S_concat _ _ _ Hrow), Vec_size_app.
        rewrite (row_slice_size other Hfin) by done. lia.
      * rewrite Vec_get_set_ne by lia. apply Hget. lia.
  - destruct HI as (Hnd & Hb & He & Ht & Hd & Hsize & Hget).
    f_equal. destruct s' as [n b e d rp t]. simpl in *. subst n b e t.
    f_equal; [done| |].
    + rewrite Hd. f_equal. apply take_ge. unfold Vec.size in Hrows. lia.
    + apply Vec_ext.
      * by rewrite length_offsets_of, Hrows.
      * intros i Hi. rewrite Hget, get_offsets_of by lia. done.
Qed.

(** A finalized destination resized to [count] rows meets the
    preconditions on the destination when its density hint sizes a
    [reserve] that succeeds. *)
Lemma copy_subset_ok_ReSize other used_indices count s :
  finalized other → finalized s → reserve_ok (ReSize count s) →
  0 ≤ count ≤ Vec.size used_indices →
  Forall (λ r, 0 ≤ r < num_data_ other) (take (Z.to_nat count) used_indices) →
  copy_subset_ok other used_indices count (ReSize count s).
Proof.
  intros Hother Hs Hres Hcount Hused.
  assert (RowIndex (ReSize count s) 0 = 0 ∧ num_data_ (ReSize count s) = count)
    as [? ?]; [|unfold copy_subset_ok; tauto].
  unfold ReSize. case_decide as Hne.
  - split; [|done]. apply (finalized_RowPtr_0 s Hs).
  - split; [apply (finalized_RowPtr_0 s Hs)|].
    destruct (decide (num_data_ s = count)); [done|contradiction].
Qed.

(** C4. For a finalized source and [count] row ids, [CopySubset] into a
    destination resized to [count] rows, whose density hint sizes a
    [reserve] that succeeds, is defined; row [i] of the result holds the
    values of source row [row_ids[i]] verbatim, the offsets start at zero,
    advance by the row sizes and end at the size of the store; and with
    [row_ids = [0..num_rows)] the offsets and the store are those of the
    source. *)
Theorem C4_CopySubset_copies_selected_rows
    (other : MultiValSparseBin) (used_indices : list Z) (count : Z)
    (s : MultiValSparseBin) :
  copy_subset_ok other used_indices count s →
  ∃ s',
    CopySubset other used_indices count s = Some s'
    ∧ num_data_ s' = count
    ∧ Vec.size (row_ptr_ s') = count + 1
    ∧ RowIndex s' 0 = 0
    ∧ (∀ i r, 0 ≤ i < count → Vec.get used_indices i = Some r →
         row_slice s' i = row_slice other r
         ∧ RowIndex s' (i + 1) = RowIndex s' i + Vec.size (row_slice other r))
    ∧ RowIndex s' count = Vec.size (data_ s')
    ∧ (used_indices = seqZ 0 (num_data_ other) → count = num_data_ other →
         row_ptr_ s' = row_ptr_ other ∧ data_ s' = data_ other).
Proof.
  intros Hok. pose proof Hok as (Hfin & Hnum & Hrp0 & _ & Hcount & Hused).
  eexists. split; [by apply CopySubset_spec|].
  set (rows := row_slice other <$> take (Z.to_nat count) used_indices).
  assert (Vec.size rows = count) as Hrows.
  { unfold rows, Vec.size in *. rewrite length_fmap, length_take. lia. }
  cbn [num_data_ row_ptr_ data_]. split; [done|].
  split; [by rewrite length_offsets_of, Hrows|].
  split; [unfold RowIndex, RowPtr; cbn [row_ptr_];
          by rewrite get_offsets_of by lia|].
  split; [|split].
  - intros i r Hi Hr.
    edestruct (row_slice_offsets_of
                 {| num_data_ := num_data_ s; num_bin_ := num_bin_ s;
                    estimate_element_per_row_ := estimate_element_per_row_ s;
                    data_ := concat rows; row_ptr_ := offsets_of rows;
                    t_data_ := t_data_ s |} rows [] i) as [Hrow Hnext];
      [done|by rewrite app_nil_r|lia|].
    assert (rows !! Z.to_nat i = Some (row_slice other r)) as Hrow'.
    { unfold rows. rewrite list_lookup_fmap, lookup_take_lt by lia.
      apply Vec_get_Some in Hr as [_ ->]. done. }
    rewrite Hrow in Hrow'. injection Hrow' as Heq.
    fold rows. rewrite Hnext, Heq. done.
  - unfold RowIndex, RowPtr. cbn [row_ptr_].
    rewrite get_offsets_of by lia. simpl. do 2 f_equal.
    apply take_ge. unfold Vec.size in Hrows. lia.
  - intros -> ->.
    assert (rows = rows_of other) as ->.
    { unfold rows, rows_of. f_equal. apply take_ge.
      rewrite length_seqZ. lia. }
    by destruct (finalized_layout other Hfin) as [<- <-].
Qed.

Lemma C4_witness :
  copy_subset_ok example_finalized [2; 0] 2 (ReSize 2 example_finalized)
  ∧ ∃ s',
      CopySubset example_finalized [2; 0] 2 (ReSize 2 example_finalized)
      = Some s'
      ∧ num_data_ s' = 2
      ∧ Vec.size (row_ptr_ s') = 2 + 1
      ∧ RowIndex s' 0 = 0
      ∧ (∀ i r, 0 ≤ i < 2 → Vec.get [2; 0] i = Some r →
           row_slice s' i = row_slice example_finalized r
           ∧ RowIndex s' (i + 1)
             = RowIndex s' i + Vec.size (row_slice example_finalized r))
      ∧ RowIndex s' 2 = Vec.size (data_ s')
      ∧ ([2; 0] = seqZ 0 (num_data_ example_finalized) →
         2 = num_data_ example_finalized →
         row_ptr_ s' = row_ptr_ example_finalized
         ∧ data_ s' = data_ example_finalized).
Proof.
  assert (copy_subset_ok example_finalized [2; 0] 2
            (ReSize 2 example_finalized)) as Hok
    by (apply (bool_decide_unpack _); vm_compute; exact I).
  split; [exact Hok|].
  exact (C4_CopySubset_copies_selected_rows example_finalized [2; 0] 2
           (ReSize 2 example_finalized) Hok).
Defined.

(** C8, as stated, fails: after copying the rows 2 and 0 of the example,
    three values in two rows, the density hint is still the 5 it was. *)
Lemma C8_counterexample :
  ∃ s',
    CopySubset example_finalized [2; 0] 2
      (set_estimate (ReSize 2 example_finalized) (Finite 5)) = Some s'
    ∧ average_per_row s' = Finite (3 # 2)
    ∧ estimate_element_per_row_ s' = Finite 5
    ∧ estimate_element_per_row_ s' ≠ average_per_row s'.
Proof. eexists. split; [reflexivity|]. by repeat split. Qed.

(** C8, amended. Under its preconditions, among them that the density hint
    sizes a [reserve] that succeeds, [CopySubset] is defined and leaves the
    density hint (and the row and bin counts) as they were: the hint is
    read to reserve capacity and never written. *)
Theorem C8_CopySubset_keeps_density_hint
    (other : MultiValSparseBin) (used_indices : list Z) (count : Z)
    (s : MultiValSparseBin) :
  copy_subset_ok other used_indices count s →
  ∃ s',
    CopySubset other used_indices count s = Some s'
    ∧ estimate_element_per_row_ s' = estimate_element_per_row_ s
    ∧ num_data_ s' = num_data_ s
    ∧ num_bin_ s' = num_bin_ s.
Proof.
  intros Hok. eexists. split; [by apply CopySubset_spec|]. done.
Qed.

Lemma C8_witness :
  copy_subset_ok example_finalized [2; 0] 2
    (set_estimate (ReSize 2 example_finalized) (Finite 5))
  ∧ ∃ s',
      CopySubset example_finalized [2; 0] 2
        (set_estimate (ReSize 2 example_finalized) (Finite 5)) = Some s'
      ∧ estimate_element_per_row_ s'
        = estimate_element_per_row_
            (set_estimate (ReSize 2 example_finalized) (Finite 5))
      ∧ num_data_ s'
        = num_data_ (set_estimate (ReSize 2 example_finalized) (Finite 5))
      ∧ num_bin_ s'
        = num_bin_ (set_estimate (ReSize 2 example_finalized) (Finite 5)).
Proof.
  assert (copy_subset_ok example_finalized [2; 0] 2
            (set_estimate (ReSize 2 example_finalized) (Finite 5))) as Hok
    by (apply (bool_decide_unpack _); vm_compute; exact I).
  split; [exact Hok|].
  exact (C8_CopySubset_keeps_density_hint example_finalized [2; 0] 2
           (set_estimate (ReSize 2 example_finalized) (Finite 5)) Hok).
Defined.

(** ** Ingestion *)

Lemma sumZ_app l1 l2 : sumZ (l1 ++ l2) = sumZ l1 + sumZ l2.
Proof. unfold sumZ. induction l1 as [|x l1 IH]; simpl; lia. Qed.

Lemma sumZ_Permutation l1 l2 : l1 ≡ₚ l2 → sumZ l1 = sumZ l2.
Proof. induction 1; unfold sumZ in *; simpl; lia. Qed.

Lemma sumZ_nonneg l : Forall (λ x, 0 ≤ x) l → 0 ≤ sumZ l.
Proof. induction 1; unfold sumZ in *; simpl; lia. Qed.

Lemma sumZ_insert {A} (f : A → Z) (l : list A) (i : nat) (x y : A) :
  l !! i = Some x →
  sumZ (f <$> <[i := y]> l) = sumZ (f <$> l) - f x + f y.
Proof.
  intros Hx. rewrite insert_take_drop by (by eapply lookup_lt_Some).
  rewrite <- (take_drop_middle l i x Hx) at 3.
  rewrite !fmap_app, !fmap_cons, !sumZ_app. unfold sumZ. simpl. lia.
Qed.

Lemma seqZ_snoc m k : 0 ≤ k → seqZ m (k + 1) = seqZ m k ++ [m + k].
Proof. intros Hk. by rewrite seqZ_app by lia. Qed.

(** Pushing the first [size] values, narrowed, at the end of a buffer. *)
Lemma push_values_loop VAL_T (values d : list Z) size :
  0 ≤ size ≤ Vec.size values →
  for_range 0 size (λ i d,
    v ← Vec.get values i; Some (d ++ [static_cast_VAL_T VAL_T v])) d
  = Some (d ++ (static_cast_VAL_T VAL_T <$> take (Z.to_nat size) values)).
Proof.
  intros Hsize.
  edestruct (for_range_foldl (λ _ : list Z, True))
    with (f := λ (d : list Z) j,
                 d ++ [static_cast_VAL_T VAL_T (default 0 (Vec.get values j))])
    as [-> _]; [done| |].
  - intros j t Hj _. split; [|done].
    destruct (Vec_get_is_Some values j) as [v ->]; [lia|done].
  - rewrite (foldl_snoc_fmap
               (λ j, static_cast_VAL_T VAL_T (default 0 (Vec.get values j)))).
    assert (take (Z.to_nat size) values
            = (λ j, default 0 (Vec.get values j)) <$> seqZ 0 size) as ->
      by (by rewrite fmap_get_seqZ by lia).
    by rewrite <- list_fmap_compose, Z.sub_0_r.
Qed.

Lemma push_values_thread_loop VAL_T (values buf : list Z) (t : list (list Z))
    slot size :
  0 ≤ size ≤ Vec.size values → Vec.get t slot = Some buf →
  for_range 0 size (λ i t,
    buf ← Vec.get t slot;
    v ← Vec.get values i;
    Vec.set t slot (buf ++ [static_cast_VAL_T VAL_T v])) t
  = Some (<[Z.to_nat slot :=
              buf ++ (static_cast_VAL_T VAL_T <$> take (Z.to_nat size) values)]> t).
Proof.
  intros Hsize Hbuf. pose proof (Vec_get_lt _ _ _ Hbuf) as Hslot.
  loop_inv (λ j (u : list (list Z)),
              u = <[Z.to_nat slot :=
                      buf ++ (static_cast_VAL_T VAL_T
                              <$> take (Z.to_nat j) values)]> t)
    t' Ht'.
  - lia.
  - simpl. rewrite app_nil_r. symmetry. apply list_insert_id.
    by apply Vec_get_Some in Hbuf as [_ ?].
  - intros j u Hj ->. rewrite Vec_get_set_eq by done. simpl.
    destruct (Vec_get_is_Some values j) as [v Hv]; [lia|]. rewrite Hv. simpl.
    rewrite Vec_set_Some by (by rewrite Vec_size_insert).
    eexists. split; [done|]. rewrite list_insert_insert_eq. f_equal.
    replace (Z.to_nat (j + 1)) with (S (Z.to_nat j)) by lia.
    apply Vec_get_Some in Hv as [_ Hv].
    by rewrite (take_S_r _ _ _ Hv), fmap_app, app_assoc.
  - by subst t'.
Qed.

Section Ingestion.

Variable VAL_T : VAL_T_kind.

Lemma PushOneRow_spec (p : push) (s : MultiValSparseBin) :
  0 ≤ p_idx p → p_idx p + 1 < Vec.size (row_ptr_ s) →
  0 ≤ p_tid p ≤ Vec.size (t_data_ s) →
  0 ≤ p_size p ≤ Vec.size (p_values p) →
  ∃ s',
    PushOneRow VAL_T (p_tid p) (p_idx p) (p_values p) (p_size p) s = Some s'
    ∧ loading s s'
    ∧ row_ptr_ s' = <[Z.to_nat (p_idx p + 1) := p_size p]> (row_ptr_ s)
    ∧ buffers_size s' = buffers_size s + p_size p.
Proof.
  intros Hidx Hrp Htid Hsize. unfold PushOneRow.
  rewrite Vec_set_Some by lia. cbn [mbind option_bind].
  assert (Vec.size (static_cast_VAL_T VAL_T
                    <$> take (Z.to_nat (p_size p)) (p_values p)) = p_size p)
    as Hlen.
  { unfold Vec.size in *. rewrite length_fmap, length_take. lia. }
  case_decide as Ht.
  - cbn [data_ set_row_ptr]. rewrite push_values_loop by done.
    eexists. split; [done|]. unfold loading, buffers_size.
    cbn [num_data_ num_bin_ estimate_element_per_row_ row_ptr_ t_data_ data_
         set_data set_row_ptr].
    rewrite Vec_size_insert, Vec_size_app, Hlen. repeat split; try done. lia.
  - cbn [t_data_ set_row_ptr].
    destruct (Vec_get_is_Some (t_data_ s) (p_tid p - 1)) as [buf Hbuf]; [lia|].
    rewrite (push_values_thread_loop _ _ buf) by done.
    eexists. split; [done|]. unfold loading, buffers_size.
    cbn [num_data_ num_bin_ estimate_element_per_row_ row_ptr_ t_data_ data_
         set_t_data set_row_ptr].
    apply Vec_get_Some in Hbuf as [_ Hbuf].
    rewrite (sumZ_insert _ _ _ buf) by done.
    rewrite !Vec_size_insert, Vec_size_app, Hlen. repeat split; try done. lia.
Qed.

Lemma loading_refl s : loading s s.
Proof. by repeat split. Qed.

Lemma loading_trans s1 s2 s3 : loading s1 s2 → loading s2 s3 → loading s1 s3.
Proof. unfold loading. intros ? ?. intuition congruence. Qed.

(** After the ingestion calls [ps] the length slot of every ingested row
    holds its count, the other slots are untouched, and the buffers grew
    by the ingested values. *)
Lemma ingest_spec (ps : list push) (s : MultiValSparseBin) :
  NoDup (p_idx <$> ps) →
  Forall (λ p, 0 ≤ p_idx p ∧ p_idx p + 1 < Vec.size (row_ptr_ s)
               ∧ 0 ≤ p_tid p ≤ Vec.size (t_data_ s)
               ∧ 0 ≤ p_size p ≤ Vec.size (p_values p)) ps →
  ∃ s',
    ingest VAL_T ps s = Some s'
    ∧ loading s s'
    ∧ (∀ p, p ∈ ps → Vec.get (row_ptr_ s') (p_idx p + 1) = Some (p_size p))
    ∧ (∀ k, k - 1 ∉ p_idx <$> ps →
         Vec.get (row_ptr_ s') k = Vec.get (row_ptr_ s) k)
    ∧ buffers_size s' = buffers_size s + total_ingested ps.
Proof.
  revert s. induction ps as [|p ps IH]; intros s Hnd Hall.
  - exists s. split; [done|]. split; [apply loading_refl|].
    split; [by intros p ?%elem_of_nil|]. split; [done|].
    unfold total_ingested, sumZ. simpl. lia.
  - rewrite fmap_cons in Hnd. apply NoDup_cons in Hnd as [Hp Hnd].
    apply Forall_cons in Hall as [(Hidx & Hrp & Htid & Hsize) Hall].
    destruct (PushOneRow_spec p s) as (s1 & Hs1 & Hl1 & Hrp1 & Hb1);
      [done..|].
    pose proof Hl1 as (_ & _ & _ & Hsrp & Hst).
    destruct (IH s1 Hnd) as (s' & Hs' & Hl' & Hin & Hout & Hb').
    { rewrite Hsrp, Hst. done. }
    exists s'. cbn [ingest]. rewrite Hs1. cbn [mbind option_bind].
    split; [done|]. split; [by eapply loading_trans|].
    split; [|split].
    + intros q [->|Hq]%elem_of_cons; [|by apply Hin].
      rewrite Hout by (by replace (p_idx p + 1 - 1) with (p_idx p) by lia).
      rewrite Hrp1. apply Vec_get_set_eq. lia.
    + intros k Hk. rewrite fmap_cons in Hk.
      apply not_elem_of_cons in Hk as [Hne Hk].
      rewrite Hout by done. rewrite Hrp1. apply Vec_get_set_ne; lia.
    + rewrite Hb', Hb1. unfold total_ingested, sumZ.
      rewrite fmap_cons. simpl. lia.
Qed.

End Ingestion.

(** ** The merge *)

Lemma prefix_sum_succ rp k :
  0 ≤ k → prefix_sum rp (k + 1) = prefix_sum rp k + row_length rp k.
Proof.
  intros Hk. unfold prefix_sum.
  rewrite seqZ_snoc, fmap_app, sumZ_app by done.
  change (sumZ (row_length rp <$> [0 + k])) with (row_length rp (0 + k) + 0).
  rewrite Z.add_0_l. lia.
Qed.

(** The first loop of [MoveData]: lengths become offsets. *)
Lemma prefix_sum_loop (rp : list Z) n :
  0 ≤ n → Vec.size rp = n + 1 → Vec.get rp 0 = Some 0 →
  for_range 0 n (λ i rp,
    a ← Vec.get rp (i + 1);
    b ← Vec.get rp i;
    Vec.set rp (i + 1) (a + b)) rp
  = Some (prefix_sum rp <$> seqZ 0 (n + 1)).
Proof.
  intros Hn Hsize H0.
  loop_inv (λ i (rp' : list Z),
              Vec.size rp' = n + 1
              ∧ (∀ k, 0 ≤ k ≤ i → Vec.get rp' k = Some (prefix_sum rp k))
              ∧ (∀ k, i < k → Vec.get rp' k = Vec.get rp k))
    rp' HI.
  - done.
  - split; [done|]. split; [|done].
    intros k Hk. by replace k with 0 by lia.
  - intros i u Hi (Hu & Hlow & Hhigh).
    rewrite (Hhigh (i + 1)), (Hlow i) by lia.
    destruct (Vec_get_is_Some rp (i + 1)) as [a Ha]; [lia|].
    rewrite Ha. cbn [mbind option_bind]. rewrite Vec_set_Some by lia.
    eexists. split; [done|]. rewrite Vec_size_insert. split; [done|]. split.
    + intros k Hk. destruct (decide (k = i + 1)) as [->|Hne].
      * rewrite Vec_get_set_eq by lia. rewrite prefix_sum_succ by lia.
        unfold row_length. rewrite Ha. simpl. f_equal. lia.
      * rewrite Vec_get_set_ne by lia. apply Hlow. lia.
    + intros k Hk. rewrite Vec_get_set_ne by lia. apply Hhigh. lia.
  - destruct HI as (Hsize' & Hlow & _). f_equal. apply Vec_ext.
    + unfold Vec.size in *. rewrite length_fmap, length_seqZ. lia.
    + intros i Hi. rewrite Hlow by lia. unfold Vec.get.
      case_decide; [|lia].
      rewrite list_lookup_fmap, lookup_seqZ_lt by lia. simpl.
      do 2 f_equal. lia.
Qed.

Lemma get_prefix_sums rp n k :
  0 ≤ k ≤ n →
  Vec.get (prefix_sum rp <$> seqZ 0 (n + 1)) k = Some (prefix_sum rp k).
Proof.
  intros Hk. unfold Vec.get. case_decide; [|lia].
  rewrite list_lookup_fmap, lookup_seqZ_lt by lia. simpl. do 2 f_equal. lia.
Qed.

Lemma sumZ_take_le (l : list Z) (k : nat) :
  Forall (λ x, 0 ≤ x) l → sumZ (take k l) ≤ sumZ l.
Proof.
  intros Hl. rewrite <- (take_drop k l) at 2. rewrite sumZ_app.
  pose proof (sumZ_nonneg (drop k l) (Forall_drop _ _ _ Hl)). lia.
Qed.

Lemma sumZ_take_S (l : list Z) (k : nat) x :
  l !! k = Some x → sumZ (take (S k) l) = sumZ (take k l) + x.
Proof.
  intros Hx. rewrite (take_S_r _ _ _ Hx), sumZ_app. unfold sumZ. simpl. lia.
Qed.

Lemma Forall_size_nonneg {A} (t : list (list A)) :
  Forall (λ x, 0 ≤ x) (Vec.size <$> t).
Proof.
  apply Forall_fmap, Forall_forall. intros l _. apply Vec_size_nonneg.
Qed.

(** [MoveData<false>] on a structure whose buffers hold exactly the values
    counted in the length slots. *)
Lemma MoveData_false_spec (s : MultiValSparseBin) :
  0 ≤ num_data_ s →
  Vec.size (row_ptr_ s) = num_data_ s + 1 →
  Vec.get (row_ptr_ s) 0 = Some 0 →
  buffers_size s = prefix_sum (row_ptr_ s) (num_data_ s) →
  ∃ s',
    MoveData false [] s = Some s'
    ∧ num_data_ s' = num_data_ s ∧ num_bin_ s' = num_bin_ s
    ∧ estimate_element_per_row_ s' = estimate_element_per_row_ s
    ∧ row_ptr_ s' = prefix_sum (row_ptr_ s) <$> seqZ 0 (num_data_ s + 1)
    ∧ Vec.size (data_ s') = buffers_size s.
Proof.
  intros Hn Hsize H0 Hbuf. unfold MoveData.
  rewrite prefix_sum_loop by done. cbn [mbind option_bind].
  cbn [num_data_ row_ptr_ t_data_ data_ set_row_ptr].
  case_decide as Ht.
  2:{ eexists. split; [done|]. repeat split.
      unfold buffers_size. cbn [data_ t_data_ set_row_ptr].
      destruct (t_data_ s); [|unfold Vec.size in Ht; simpl in Ht; lia].
      unfold sumZ. simpl. lia. }
  set (t := t_data_ s) in *. set (tsizes := Vec.size <$> t).
  assert (∀ tid, 0 ≤ tid < Vec.size t →
            ∃ src, Vec.get t tid = Some src
                   ∧ tsizes !! Z.to_nat tid = Some (Vec.size src)) as Hsrc.
  { intros tid Htid. destruct (Vec_get_is_Some t tid) as [src Hsrc]; [done|].
    exists src. split; [done|]. unfold tsizes. rewrite list_lookup_fmap.
    apply Vec_get_Some in Hsrc as [_ ->]. done. }
  loop_inv (λ j (o : list Z),
              Vec.size o = j + 1
              ∧ ∀ k, 0 ≤ k ≤ j →
                  Vec.get o k
                  = Some (Vec.size (data_ s) + sumZ (take (Z.to_nat k) tsizes)))
    offsets Hoff.
  - lia.
  - split; [done|]. intros k Hk. replace k with 0 by lia.
    rewrite (Vec_get_nat _ 0%nat). unfold sumZ. simpl. f_equal. lia.
  - intros j o Hj [Hso Ho]. rewrite last_lookup.
    pose proof (Ho j ltac:(lia)) as Hoj.
    apply Vec_get_Some in Hoj as [_ Hoj]. unfold Vec.size in Hso.
    replace (pred (length o)) with (Z.to_nat j) by lia.
    rewrite Hoj. cbn [mbind option_bind].
    destruct (Hsrc j) as (src & -> & Hts); [lia|]. cbn [mbind option_bind].
    eexists. split; [done|].
    split; [rewrite Vec_size_app; unfold Vec.size; simpl; lia|].
    intros k Hk. unfold Vec.get. case_decide; [|lia].
    destruct (decide (k = j + 1)) as [->|].
    + rewrite lookup_app_r by lia.
      replace (Z.to_nat (j + 1) - length o)%nat with 0%nat by lia. simpl.
      replace (Z.to_nat (j + 1)) with (S (Z.to_nat j)) by lia.
      rewrite (sumZ_take_S _ _ _ Hts). f_equal. lia.
    + rewrite lookup_app_l by lia.
      specialize (Ho k ltac:(lia)). by apply Vec_get_Some in Ho as [_ ?].
  - destruct Hoff as [Hosize Hoff].
    rewrite get_prefix_sums by lia. cbn [mbind option_bind].
    pose proof (sumZ_nonneg tsizes (Forall_size_nonneg t)) as Hts.
    assert (0 ≤ prefix_sum (row_ptr_ s) (num_data_ s)) as Htot.
    { rewrite <- Hbuf. unfold buffers_size. fold t tsizes.
      pose proof (Vec_size_nonneg (data_ s)). lia. }
    unfold Vec.resize. case_decide; [|lia]. cbn [mbind option_bind].
    loop_inv (λ (_ : Z) (d : list Z), Vec.size d = buffers_size s) d Hd.
    + lia.
    + unfold Vec.size. rewrite length_resize. lia.
    + intros j d Hj Hd.
      destruct (Hsrc j) as (src & -> & Hsz); [lia|]. cbn [mbind option_bind].
      rewrite Hoff by lia. cbn [mbind option_bind]. unfold Vec.copy_n.
      pose proof (sumZ_take_le tsizes (S (Z.to_nat j)) (Forall_size_nonneg t))
        as Hle.
      rewrite (sumZ_take_S _ _ _ Hsz) in Hle.
      pose proof (sumZ_nonneg (take (Z.to_nat j) tsizes)
                    ltac:(apply Forall_take, Forall_size_nonneg)) as Hpre.
      pose proof (Vec_size_nonneg src). pose proof (Vec_size_nonneg (data_ s)).
      assert (buffers_size s = Vec.size (data_ s) + sumZ tsizes) as Hb by done.
      case_decide; [|lia]. eexists. split; [done|].
      unfold Vec.size in *.
      rewrite !length_app, !length_take, length_drop. lia.
    + eexists. split; [done|]. by repeat split.
Qed.

(** ** A whole load *)

Lemma Sorted_fmap_seqZ (f : Z → Z) (k : nat) (m : Z) :
  (∀ i, m ≤ i → i + 1 < m + Z.of_nat k → f i ≤ f (i + 1)) →
  Sorted Z.le (f <$> seqZ m (Z.of_nat k)).
Proof.
  revert m. induction k as [|k IH]; intros m Hf; [constructor|].
  rewrite seqZ_cons by lia. rewrite fmap_cons.
  replace (Z.pred (Z.of_nat (S k))) with (Z.of_nat k) by lia.
  constructor.
  - apply IH. intros i Hi Hlt. apply Hf; lia.
  - destruct k as [|k]; [constructor|].
    rewrite seqZ_cons by lia. rewrite fmap_cons. constructor.
    replace (Z.succ m) with (m + 1) by lia. apply Hf; lia.
Qed.

Lemma sumZ_sizes_replicate_nil (k : nat) :
  sumZ (Vec.size <$> replicate k ([] : list Z)) = 0.
Proof.
  induction k as [|k IH]; [done|].
  change (replicate (S k) []) with (([] : list Z) :: replicate k []).
  rewrite fmap_cons.
  change (sumZ (?x :: ?l)) with (x + sumZ l). by rewrite IH.
Qed.

Lemma buffers_size_new num_threads num_data num_bin estimate :
  buffers_size (new_MultiValSparseBin num_threads num_data num_bin estimate) = 0.
Proof.
  unfold buffers_size, new_MultiValSparseBin. cbn [data_ t_data_].
  case_decide; [|done]. by rewrite sumZ_sizes_replicate_nil.
Qed.

Lemma size_t_data_new num_threads num_data num_bin estimate :
  Vec.size (t_data_ (new_MultiValSparseBin num_threads num_data num_bin estimate))
  = Z.max 1 num_threads - 1.
Proof.
  unfold new_MultiValSparseBin, Vec.size. cbn [t_data_].
  case_decide; [rewrite length_replicate|simpl]; lia.
Qed.

(** C2. After every row id of [[0, num_rows)] was ingested exactly once, in
    any order and by any worker, end-of-load finalize is defined and leaves
    a finalized structure: [RowIndex[0] = 0], [RowIndex] non-decreasing,
    [RowIndex[i+1] - RowIndex[i]] the count ingested for row [i], and
    [RowIndex[num_rows]] the total number of ingested values, which is
    also the size of the consolidated store. *)
Theorem C2_load_builds_RowIndex
    (VAL_T : VAL_T_kind) (num_threads num_data num_bin : Z)
    (estimate : double) (ps : list push) :
  0 ≤ num_data →
  valid_ingestion num_threads num_data ps →
  ∃ s',
    load VAL_T num_threads num_data num_bin estimate ps = Some s'
    ∧ finalized s'
    ∧ num_data_ s' = num_data
    ∧ RowPtr s' 0 = Some 0
    ∧ (∀ i, 0 ≤ i < num_data → RowIndex s' i ≤ RowIndex s' (i + 1))
    ∧ (∀ i, 0 ≤ i < num_data →
         ∃ p, p ∈ ps ∧ p_idx p = i
              ∧ RowIndex s' (i + 1) - RowIndex s' i = p_size p)
    ∧ RowIndex s' num_data = total_ingested ps
    ∧ Vec.size (data_ s') = total_ingested ps.
Proof.
  intros Hn [Hperm Hvalid].
  set (s0 := new_MultiValSparseBin num_threads num_data num_bin estimate).
  assert (Vec.size (row_ptr_ s0) = num_data + 1) as Hrp0.
  { unfold Vec.size. cbn [s0 new_MultiValSparseBin row_ptr_].
    rewrite length_replicate. lia. }
  assert (buffers_size s0 = 0) as Hb0 by apply buffers_size_new.
  assert (num_data_ s0 = num_data) as Hn0 by done.
  assert (∀ p, p ∈ ps → 0 ≤ p_idx p < num_data) as Hidx.
  { intros p Hp.
    assert (p_idx p ∈ seqZ 0 num_data) as Hin
      by (rewrite <- Hperm; by apply list_elem_of_fmap_2).
    apply elem_of_seqZ in Hin. lia. }
  assert (∀ i, 0 ≤ i < num_data → ∃ p, p ∈ ps ∧ p_idx p = i) as Hcover.
  { intros i Hi.
    assert (i ∈ p_idx <$> ps) as Hin
      by (rewrite Hperm; apply elem_of_seqZ; lia).
    apply list_elem_of_fmap in Hin as (p & -> & Hp). by exists p. }
  destruct (ingest_spec VAL_T ps s0)
    as (s1 & Hs1 & Hload & Hin & Hout & Hbuf).
  { rewrite Hperm. apply NoDup_seqZ. }
  { rewrite Forall_forall in Hvalid. apply Forall_forall. intros p Hp.
    destruct (Hvalid p Hp) as [Htid Hsize]. pose proof (Hidx p Hp).
    unfold s0 at 2. rewrite size_t_data_new, Hrp0. lia. }
  destruct Hload as (Hnum1 & Hbin1 & Hest1 & Hrp1 & Ht1).
  assert (∀ p, p ∈ ps → row_length (row_ptr_ s1) (p_idx p) = p_size p) as Hlen.
  { intros p Hp. unfold row_length. by rewrite (Hin p Hp). }
  assert (prefix_sum (row_ptr_ s1) num_data = total_ingested ps) as Htotal.
  { unfold prefix_sum, total_ingested.
    rewrite (sumZ_Permutation _ (row_length (row_ptr_ s1) <$> (p_idx <$> ps)))
      by (by apply fmap_Permutation).
    rewrite <- list_fmap_compose. f_equal.
    apply list_fmap_ext. intros j p Hp. apply Hlen.
    by eapply list_elem_of_lookup_2. }
  destruct (MoveData_false_spec s1)
    as (s2 & Hs2 & Hnum2 & Hbin2 & Hest2 & Hrp2 & Hd2).
  { by rewrite Hnum1, Hn0. }
  { by rewrite Hrp1, Hnum1, Hn0. }
  { rewrite Hout.
    - unfold Vec.get. case_decide; [|lia].
      apply lookup_replicate. split; [done|]. lia.
    - intros Hneg%list_elem_of_fmap. destruct Hneg as (p & Hp & Hin').
      pose proof (Hidx p Hin'). lia. }
  { by rewrite Hbuf, Hnum1, Hn0, Hb0, Htotal. }
  rewrite Hnum1, Hn0 in Hrp2. rewrite Hnum1, Hn0 in Hnum2.
  assert (∀ k, 0 ≤ k ≤ num_data →
            Vec.get (row_ptr_ s2) k = Some (prefix_sum (row_ptr_ s1) k))
    as Hget.
  { intros k Hk. rewrite Hrp2. by apply get_prefix_sums. }
  assert (∀ i, 0 ≤ i < num_data → 0 ≤ row_length (row_ptr_ s1) i) as Hnonneg.
  { intros i Hi. destruct (Hcover i Hi) as (p & Hp & <-).
    rewrite (Hlen p Hp). rewrite Forall_forall in Hvalid.
    destruct (Hvalid p Hp). lia. }
  eexists. split.
  { unfold load. fold s0. rewrite Hs1. cbn [mbind option_bind].
    unfold FinishLoad. rewrite Hs2. cbn [mbind option_bind].
    cbn [row_ptr_ num_data_ set_t_data]. rewrite Hnum2.
    rewrite Hget by lia. done. }
  cbn [set_estimate set_t_data num_data_ row_ptr_ data_ t_data_].
  unfold RowIndex, RowPtr.
  cbn [set_estimate set_t_data num_data_ row_ptr_ data_ t_data_].
  rewrite Hd2, Hbuf, Hb0, Z.add_0_l.
  split; [|split; [done|]; split; [by apply Hget|]; split; [|split; [|split]]].
  - unfold finalized.
    cbn [set_estimate set_t_data num_data_ row_ptr_ data_ t_data_].
    rewrite Hd2, Hbuf, Hb0, Z.add_0_l, Hnum2, Hrp2.
    split; [|split; [|split; [|split]]]; [| | | |done].
    + unfold Vec.size. rewrite length_fmap, length_seqZ. lia.
    + rewrite head_lookup, <- (Vec_get_nat _ 0%nat).
      by rewrite get_prefix_sums by lia.
    + replace (num_data + 1) with (Z.of_nat (Z.to_nat (num_data + 1))) by lia.
      apply Sorted_fmap_seqZ. intros i Hi Hlt.
      rewrite prefix_sum_succ by lia.
      pose proof (Hnonneg i ltac:(lia)). lia.
    + rewrite last_lookup, length_fmap, length_seqZ.
      replace (pred (Z.to_nat (num_data + 1))) with (Z.to_nat num_data) by lia.
      rewrite <- Htotal. apply Vec_get_Some. by apply get_prefix_sums.
  - intros i Hi. rewrite !Hget by lia. simpl.
    rewrite prefix_sum_succ by lia. pose proof (Hnonneg i Hi). lia.
  - intros i Hi. destruct (Hcover i Hi) as (p & Hp & <-).
    exists p. split; [done|]. split; [done|].
    rewrite !Hget by (pose proof (Hidx p Hp); lia). simpl.
    rewrite prefix_sum_succ by (pose proof (Hidx p Hp); lia).
    rewrite (Hlen p Hp). lia.
  - rewrite Hget by lia. done.
  - done.
Qed.

Lemma C2_witness :
  0 ≤ 3
  ∧ valid_ingestion 2 3
      [mkPush 1 2 [1] 1; mkPush 0 0 [3; 7] 2; mkPush 1 1 [] 0]
  ∧ ∃ s',
      load uint8_t 2 3 8 (Finite 1)
        [mkPush 1 2 [1] 1; mkPush 0 0 [3; 7] 2; mkPush 1 1 [] 0] = Some s'
      ∧ finalized s'
      ∧ num_data_ s' = 3
      ∧ RowPtr s' 0 = Some 0
      ∧ (∀ i, 0 ≤ i < 3 → RowIndex s' i ≤ RowIndex s' (i + 1))
      ∧ (∀ i, 0 ≤ i < 3 →
           ∃ p, p ∈ [mkPush 1 2 [1] 1; mkPush 0 0 [3; 7] 2; mkPush 1 1 [] 0]
                ∧ p_idx p = i
                ∧ RowIndex s' (i + 1) - RowIndex s' i = p_size p)
      ∧ RowIndex s' 3
        = total_ingested
            [mkPush 1 2 [1] 1; mkPush 0 0 [3; 7] 2; mkPush 1 1 [] 0]
      ∧ Vec.size (data_ s')
        = total_ingested
            [mkPush 1 2 [1] 1; mkPush 0 0 [3; 7] 2; mkPush 1 1 [] 0].
Proof.
  assert (valid_ingestion 2 3
            [mkPush 1 2 [1] 1; mkPush 0 0 [3; 7] 2; mkPush 1 1 [] 0]) as Hok
    by (apply (bool_decide_unpack _); vm_compute; exact I).
  split; [lia|]. split; [exact Hok|].
  exact (C2_load_builds_RowIndex uint8_t 2 3 8 (Finite 1)
           [mkPush 1 2 [1] 1; mkPush 0 0 [3; 7] 2; mkPush 1 1 [] 0]
           ltac:(lia) Hok).
Defined.

(** ** The rebin filter of CopySubFeature *)

(** *** The cursor *)

Lemma advance_from_bounds us v k r :
  advance_from us v k = Some r → k ≤ r < k + Vec.size us.
Proof.
  unfold Vec.size. revert k. induction us as [|u us IH]; intros k Hr; [done|].
  simpl in *. case_decide.
  - apply IH in Hr. lia.
  - injection Hr as <-. lia.
Qed.

(** Restarting the cursor anywhere at or before the range changes nothing. *)
Lemma advance_from_restart us v k r j :
  advance_from us v k = Some r → k ≤ j ≤ r →
  advance_from (drop (Z.to_nat (j - k)) us) v j = Some r.
Proof.
  revert k. induction us as [|u us IH]; intros k Hr Hj; [done|].
  simpl in Hr. destruct (decide (j = k)) as [->|Hne].
  - replace (Z.to_nat (k - k)) with 0%nat by lia. done.
  - case_decide.
    + replace (Z.to_nat (j - k)) with (S (Z.to_nat (j - (k + 1)))) by lia.
      simpl. apply IH; [done|lia].
    + injection Hr as <-. lia.
Qed.

Lemma advance_from_below_last us v k u :
  list.last us = Some u → v < u → is_Some (advance_from us v k).
Proof.
  revert k. induction us as [|u1 us IH]; intros k Hlast Hv; [done|].
  simpl. case_decide; [|done].
  destruct us as [|u2 us]; [simpl in Hlast; simplify_eq; lia|].
  apply IH; [|done]. by rewrite last_cons_cons in Hlast.
Qed.

Lemma advance_0 upper v : advance upper v 0 = advance_from upper v 0.
Proof. unfold advance. by case_decide. Qed.

Lemma advance_first_range upper v k :
  is_Some (advance upper v 0) → 0 ≤ k ≤ first_range upper v →
  advance upper v k = Some (first_range upper v).
Proof.
  intros [r Hr] Hk. unfold first_range in *. rewrite Hr in *. simpl in Hk.
  rewrite advance_0 in Hr. unfold advance. case_decide; [|lia].
  replace (Z.to_nat k) with (Z.to_nat (k - 0)) by lia.
  by apply advance_from_restart.
Qed.

Lemma first_range_bounds upper v :
  is_Some (advance upper v 0) → 0 ≤ first_range upper v < Vec.size upper.
Proof.
  intros [r Hr]. unfold first_range. rewrite Hr. simpl.
  rewrite advance_0 in Hr. apply advance_from_bounds in Hr. lia.
Qed.

Lemma first_range_nonneg upper v : 0 ≤ first_range upper v.
Proof.
  unfold first_range. destruct (advance upper v 0) as [r|] eqn:Hr; [|done].
  simpl. rewrite advance_0 in Hr. apply advance_from_bounds in Hr. lia.
Qed.

(** *** Loops over a slice of a vector *)

Lemma for_loop_get_fold {A St : Type} (F : A → St → option St) (data : list A)
    (n : nat) (lo : Z) (st : St) :
  0 ≤ lo → lo + Z.of_nat n ≤ Vec.size data →
  for_loop n lo (λ j st, v ← Vec.get data j; F v st) st
  = fold_opt F (take n (drop (Z.to_nat lo) data)) st.
Proof.
  revert lo st. induction n as [|n IH]; intros lo st Hlo Hhi; [done|].
  destruct (Vec_get_is_Some data lo) as [v Hv]; [lia|].
  cbn [for_loop]. rewrite Hv. cbn [mbind option_bind].
  apply Vec_get_Some in Hv as [_ Hv].
  rewrite (drop_S _ _ _ Hv). cbn [take fold_opt].
  destruct (F v st) as [st'|]; [|done]. cbn [mbind option_bind].
  rewrite IH by lia. do 3 f_equal. lia.
Qed.

Lemma for_range_get_fold {A St : Type} (F : A → St → option St) (data : list A)
    (lo hi : Z) (st : St) :
  0 ≤ lo → lo ≤ hi → hi ≤ Vec.size data →
  for_range lo hi (λ j st, v ← Vec.get data j; F v st) st
  = fold_opt F (take (Z.to_nat (hi - lo)) (drop (Z.to_nat lo) data)) st.
Proof. intros. unfold for_range. apply for_loop_get_fold; lia. Qed.

(** *** Writing into a buffer *)

Lemma write_at_nil buf bid : write_at buf bid [] = buf.
Proof.
  unfold write_at. simpl. rewrite Nat.add_0_r. apply take_drop.
Qed.

Lemma length_write_at buf bid vals :
  (bid + length vals ≤ length buf)%nat →
  length (write_at buf bid vals) = length buf.
Proof.
  intros Hle. unfold write_at.
  rewrite !length_app, length_take, length_drop. lia.
Qed.

Lemma write_at_cons buf bid x vals :
  (bid < length buf)%nat →
  write_at (<[bid := x]> buf) (S bid) vals = write_at buf bid (x :: vals).
Proof.
  intros Hlt. unfold write_at.
  rewrite (take_S_r _ _ x) by (by apply list_lookup_insert_eq).
  rewrite take_insert_ge by lia. rewrite drop_insert_lt by lia.
  rewrite <- app_assoc. simpl. do 4 f_equal. lia.
Qed.

Lemma take_write_at buf bid vals :
  (bid ≤ length buf)%nat →
  take (bid + length vals) (write_at buf bid vals) = take bid buf ++ vals.
Proof.
  intros Hle. unfold write_at. rewrite app_assoc.
  apply take_app_length'. rewrite length_app, length_take. lia.
Qed.

Lemma write_at_app buf bid vals1 vals2 :
  (bid + length vals1 + length vals2 ≤ length buf)%nat →
  write_at (write_at buf bid vals1) (bid + length vals1) vals2
  = write_at buf bid (vals1 ++ vals2).
Proof.
  intros Hle. unfold write_at.
  rewrite (app_assoc (take bid buf) vals1).
  rewrite take_app_length' by (rewrite length_app, length_take; lia).
  rewrite drop_app_ge by (rewrite length_app, length_take; lia).
  rewrite length_app, length_take, drop_drop, length_app.
  rewrite <- !app_assoc. do 4 f_equal. lia.
Qed.

(** *** One row *)

Section FilterRow.

Variable VAL_T : VAL_T_kind.
Variables lower upper delta : list Z.
Hypothesis Hlower : Vec.size upper ≤ Vec.size lower.
Hypothesis Hdelta : Vec.size upper ≤ Vec.size delta.

Local Abbreviation rebin_value := (rebin_value VAL_T lower upper delta).
Local Abbreviation rebin_row := (rebin_row VAL_T lower upper delta).
Local Abbreviation filter_value := (filter_value VAL_T lower upper delta).

Lemma below_last_is_Some v :
  match list.last upper with Some u => v < u | None => False end →
  is_Some (advance upper v 0).
Proof.
  destruct (list.last upper) as [u|] eqn:Hlast; [|done]. intros Hv.
  unfold advance. simpl. by eapply advance_from_below_last.
Qed.

(** One value: the cursor moves to the range of the value, and the value
    is emitted into the buffer or dropped. *)
Lemma filter_value_spec v buf bid k cnt :
  is_Some (advance upper v 0) → 0 ≤ k ≤ first_range upper v →
  0 ≤ bid → bid + Vec.size (rebin_value v) ≤ Vec.size buf →
  filter_value v (buf, bid, k, cnt)
  = Some (write_at buf (Z.to_nat bid) (rebin_value v),
          bid + Vec.size (rebin_value v), first_range upper v,
          cnt + Vec.size (rebin_value v)).
Proof.
  intros Hsome Hk Hbid Hroom. unfold filter_value.
  rewrite advance_first_range by done. cbn [mbind option_bind].
  pose proof (first_range_bounds upper v Hsome) as Hfr.
  destruct (Vec_get_is_Some lower (first_range upper v)) as [l Hl]; [lia|].
  destruct (Vec_get_is_Some delta (first_range upper v)) as [d Hd]; [lia|].
  assert (rebin_value v
          = if decide (l ≤ v)
            then [static_cast_VAL_T VAL_T (static_cast_uint32_t (v - d))]
            else []) as Hrv.
  { unfold rebin_value. cbn zeta. by rewrite Hl, Hd. }
  rewrite Hrv in *. rewrite Hl. cbn [mbind option_bind].
  destruct (decide (l ≤ v)).
  - unfold Vec.size in Hroom. simpl in Hroom. rewrite Hd.
    cbn [mbind option_bind].
    rewrite Vec_set_Some by (unfold Vec.size; lia). cbn [mbind option_bind].
    rewrite <- write_at_cons by lia. rewrite write_at_nil.
    unfold Vec.size. simpl. done.
  - rewrite write_at_nil. unfold Vec.size. simpl. by rewrite !Z.add_0_r.
Qed.

Lemma rebin_row_cons v row : rebin_row (v :: row) = rebin_value v ++ rebin_row row.
Proof. done. Qed.

(** One row: the loop emits the rebinned row from [bid] on and counts it. *)
Lemma filter_fold_spec row buf bid k cnt :
  Forall (λ v, match list.last upper with Some u => v < u | None => False end)
    row →
  0 ≤ k → Sorted Z.le (k :: (first_range upper <$> row)) →
  0 ≤ bid → bid + Vec.size (rebin_row row) ≤ Vec.size buf →
  ∃ k',
    fold_opt filter_value row (buf, bid, k, cnt)
    = Some (write_at buf (Z.to_nat bid) (rebin_row row),
            bid + Vec.size (rebin_row row), k',
            cnt + Vec.size (rebin_row row)).
Proof.
  revert buf bid k cnt. induction row as [|v row IH];
    intros buf bid k cnt Hbelow Hk Hsorted Hbid Hroom.
  - exists k. cbn [fold_opt]. change (rebin_row []) with ([] : list Z).
    rewrite write_at_nil. unfold Vec.size. simpl. by rewrite !Z.add_0_r.
  - apply Forall_cons in Hbelow as [Hv Hbelow].
    rewrite fmap_cons in Hsorted.
    apply Sorted_inv in Hsorted as [Hsorted Hhd].
    apply HdRel_inv in Hhd.
    rewrite rebin_row_cons in *. rewrite Vec_size_app in *.
    pose proof (Vec_size_nonneg (rebin_value v)).
    pose proof (Vec_size_nonneg (rebin_row row)).
    cbn [fold_opt].
    rewrite filter_value_spec by (try apply below_last_is_Some; try done; lia).
    cbn [mbind option_bind].
    destruct (IH (write_at buf (Z.to_nat bid) (rebin_value v))
                (bid + Vec.size (rebin_value v)) (first_range upper v)
                (cnt + Vec.size (rebin_value v))) as [k' Hk'];
      [done|apply first_range_nonneg|done|lia| |].
    { unfold Vec.size in *. rewrite length_write_at by lia. lia. }
    exists k'. rewrite Hk'. f_equal.
    replace (Z.to_nat (bid + Vec.size (rebin_value v)))
      with (Z.to_nat bid + length (rebin_value v))%nat
      by (unfold Vec.size; lia).
    rewrite write_at_app by (unfold Vec.size in *; lia).
    by rewrite !Z.add_assoc.
Qed.

End FilterRow.

(** *** One block *)

Lemma size_concat_take_le {A} (l : list (list A)) (m : nat) :
  Vec.size (concat (take m l)) ≤ Vec.size (concat l).
Proof.
  rewrite <- (take_drop m l) at 2. rewrite concat_app, Vec_size_app.
  pose proof (Vec_size_nonneg (concat (drop m l))). lia.
Qed.

Lemma take_min_length {A} (l : list A) (m : nat) :
  take (m `min` length l) l = take m l.
Proof.
  destruct (decide (m ≤ length l)%nat).
  - by rewrite Nat.min_l by lia.
  - rewrite Nat.min_r by lia. by rewrite !take_ge by lia.
Qed.

Section FilterBlocks.

Variable VAL_T : VAL_T_kind.
Variables lower upper delta : list Z.
Variable other : MultiValSparseBin.
Hypothesis Hok : filter_ok other lower upper delta.

Local Abbreviation rebin_row := (rebin_row VAL_T lower upper delta).
Local Abbreviation filter_row := (filter_row VAL_T other lower upper delta).

(** The rows the filter is to produce. *)
Local Abbreviation rebinned := (rebin_row <$> rows_of other).

Lemma length_rebinned : Vec.size rebinned = num_data_ other.
Proof.
  destruct Hok as (Hfin & _). unfold Vec.size. rewrite length_fmap.
  apply (length_rows_of other Hfin).
Qed.

Lemma lookup_rebinned i :
  0 ≤ i < num_data_ other →
  rebinned !! Z.to_nat i = Some (rebin_row (row_slice other i)).
Proof.
  intros Hi. destruct Hok as (Hfin & _).
  by rewrite list_lookup_fmap, (lookup_rows_of other) by done.
Qed.

Lemma filter_row_spec i buf bid :
  0 ≤ i < num_data_ other → 0 ≤ bid →
  bid + Vec.size (rebin_row (row_slice other i)) ≤ Vec.size buf →
  ∃ k',
    filter_row (RowIndex other i) (RowIndex other (i + 1)) buf bid
    = Some (write_at buf (Z.to_nat bid) (rebin_row (row_slice other i)),
            bid + Vec.size (rebin_row (row_slice other i)), k',
            Vec.size (rebin_row (row_slice other i))).
Proof.
  intros Hi Hbid Hroom. pose proof Hok as (Hfin & Hlower & Hdelta & Hrows).
  destruct (finalized_row_bounds other Hfin i Hi) as [[Ha Hab] Hb].
  unfold filter_row. rewrite for_range_get_fold by lia.
  fold (row_slice other i).
  rewrite Forall_lookup in Hrows.
  destruct (Hrows _ _ (lookup_rows_of other i Hi)) as [Hbelow Hsorted].
  destruct (filter_fold_spec VAL_T lower upper delta Hlower Hdelta
              (row_slice other i) buf bid 0 0) as [k' Hk']; try done.
  - constructor; [done|].
    destruct (row_slice other i) as [|v row]; constructor.
    apply first_range_nonneg.
  - exists k'. rewrite Hk'. by rewrite Z.add_0_l.
Qed.

(** The loop over the rows [start, end) of one block. *)
Lemma filter_block_rows_spec start end_ buf0 rp0 :
  0 ≤ start → end_ ≤ num_data_ other →
  Vec.size rp0 = num_data_ other + 1 →
  Vec.size (concat (take (Z.to_nat (end_ - start))
                      (drop (Z.to_nat start) rebinned))) ≤ Vec.size buf0 →
  ∃ buf bid rp,
    for_range start end_ (λ i '(buf, bid, rp),
      j_start ← RowPtr other i;
      j_end ← RowPtr other (i + 1);
      '(buf, bid, _, cur_cnt) ← filter_row j_start j_end buf bid;
      rp ← Vec.set rp (i + 1) cur_cnt;
      Some (buf, bid, rp)) (buf0, 0, rp0)
    = Some (buf, bid, rp)
    ∧ bid = Vec.size (concat (take (Z.to_nat (end_ - start))
                                (drop (Z.to_nat start) rebinned)))
    ∧ take (Z.to_nat bid) buf
      = concat (take (Z.to_nat (end_ - start)) (drop (Z.to_nat start) rebinned))
    ∧ Vec.size buf = Vec.size buf0
    ∧ Vec.size rp = num_data_ other + 1
    ∧ (∀ j, start ≤ j < end_ →
         Vec.get rp (j + 1)
         = Some (Vec.size (rebin_row (row_slice other j))))
    ∧ (∀ j, ¬ (start < j ≤ end_) → Vec.get rp j = Vec.get rp0 j).
Proof.
  intros Hstart Hend Hrp0 Hroom. pose proof Hok as (Hfin & _).
  destruct (decide (start ≤ end_)) as [Hle|Hgt].
  2:{ exists buf0, 0, rp0. rewrite for_range_empty by lia.
      replace (Z.to_nat (end_ - start)) with 0%nat by lia.
      repeat split; try done. intros j Hj. lia. }
  set (blk := drop (Z.to_nat start) rebinned) in *.
  assert (∀ i, start ≤ i < end_ →
            blk !! Z.to_nat (i - start)
            = Some (rebin_row (row_slice other i))) as Hblk.
  { intros i Hi. unfold blk. rewrite lookup_drop, <- lookup_rebinned by lia.
    f_equal. lia. }
  assert (∀ i, start ≤ i ≤ end_ →
            Vec.size (concat (take (Z.to_nat (i - start)) blk))
            ≤ Vec.size buf0) as Hfits.
  { intros i Hi. etrans; [|exact Hroom].
    replace (take (Z.to_nat (i - start)) blk)
      with (take (Z.to_nat (i - start)) (take (Z.to_nat (end_ - start)) blk))
      by (rewrite take_take; f_equal; lia).
    apply size_concat_take_le. }
  loop_inv (λ i (st : list Z * Z * list Z),
              let '(buf, bid, rp) := st in
              bid = Vec.size (concat (take (Z.to_nat (i - start)) blk))
              ∧ buf = write_at buf0 0 (concat (take (Z.to_nat (i - start)) blk))
              ∧ Vec.size rp = num_data_ other + 1
              ∧ (∀ j, start ≤ j < i →
                   Vec.get rp (j + 1)
                   = Some (Vec.size (rebin_row (row_slice other j))))
              ∧ (∀ j, ¬ (start < j ≤ i) → Vec.get rp j = Vec.get rp0 j))
    st HI.
  - done.
  - rewrite Z.sub_diag. simpl. rewrite write_at_nil.
    repeat split; try done. intros j Hj. lia.
  - intros i [[buf bid] rp] Hi (-> & -> & Hsize & Hin & Hout).
    rewrite !(finalized_RowPtr other Hfin) by lia. cbn [mbind option_bind].
    pose proof (Hblk i Hi) as Hrow.
    pose proof (Hfits i ltac:(lia)) as Hfit.
    pose proof (Hfits (i + 1) ltac:(lia)) as Hfit'.
    replace (Z.to_nat (i + 1 - start)) with (S (Z.to_nat (i - start))) in *
      by lia.
    rewrite (take_S_concat _ _ _ Hrow) in *. rewrite Vec_size_app in Hfit'.
    set (pre := concat (take (Z.to_nat (i - start)) blk)) in *.
    set (row := rebin_row (row_slice other i)) in *.
    pose proof (Vec_size_nonneg pre). pose proof (Vec_size_nonneg row).
    destruct (filter_row_spec i (write_at buf0 0 pre) (Vec.size pre))
      as [k' Hk']; [lia|lia| |].
    { fold row. unfold Vec.size in *.
      rewrite length_write_at by (simpl; lia). lia. }
    fold row in Hk'. rewrite Hk'. cbn [mbind option_bind].
    rewrite Vec_set_Some by lia. cbn [mbind option_bind].
    eexists. split; [done|]. split; [by rewrite Vec_size_app|].
    split; [|split; [by rewrite Vec_size_insert|split]].
    + unfold Vec.size at 1. rewrite Nat2Z.id.
      change (length pre) with (0 + length pre)%nat.
      apply write_at_app. unfold Vec.size in *. lia.
    + intros j Hj. destruct (decide (j = i)) as [->|Hne].
      * by rewrite Vec_get_set_eq by lia.
      * rewrite Vec_get_set_ne by lia. apply Hin. lia.
    + intros j Hj. rewrite Vec_get_set_ne by lia. apply Hout. lia.
  - destruct st as [[buf bid] rp]. destruct HI as (-> & -> & Hsize & Hin & Hout).
    set (blkc := concat (take (Z.to_nat (end_ - start)) blk)) in *.
    exists (write_at buf0 0 blkc), (Vec.size blkc), rp.
    split; [done|]. split; [done|]. split; [|split; [|done]].
    + unfold Vec.size at 1. rewrite Nat2Z.id.
      change (length blkc) with (0 + length blkc)%nat.
      rewrite take_write_at by lia. done.
    + unfold Vec.size in *. rewrite length_write_at; [done|]. simpl. lia.
Qed.

(** *** All blocks *)

Variable num_threads : Z.
Variable s0 : MultiValSparseBin.
Hypothesis Hdest : dest_ok num_threads rebinned s0.

Local Abbreviation n_block := (Z.min num_threads (num_data_ s0 `quot` 1024)).
Local Abbreviation block_size :=
  ((num_data_ s0 + n_block - 1) `quot` n_block).
Local Abbreviation blk := (λ b, block_rows block_size b rebinned).

Lemma dest_num_data : num_data_ s0 = num_data_ other.
Proof. destruct Hdest as (-> & _). apply length_rebinned. Qed.

Lemma block_size_covers :
  1 ≤ block_size ∧ num_data_ s0 ≤ n_block * block_size.
Proof.
  destruct Hdest as (_ & _ & _ & Hb & _). cbn zeta in Hb.
  assert (1024 ≤ num_data_ s0) as Hn.
  { destruct (decide (1024 ≤ num_data_ s0)); [done|].
    assert (num_data_ s0 `quot` 1024 ≤ 0); [|lia].
    destruct (decide (0 ≤ num_data_ s0)).
    - rewrite Z.quot_small; lia.
    - apply Z.quot_le_upper_bound; lia. }
  set (B := n_block) in *.
  assert (B ≤ num_data_ s0).
  { assert (num_data_ s0 `quot` 1024 ≤ num_data_ s0); [|lia].
    apply Z.quot_le_upper_bound; lia. }
  rewrite Z.quot_div_nonneg by lia.
  pose proof (Z.div_mod (num_data_ s0 + B - 1) B ltac:(lia)).
  pose proof (Z.mod_pos_bound (num_data_ s0 + B - 1) B ltac:(lia)).
  split; [|lia].
  apply Z.div_le_lower_bound; lia.
Qed.

Lemma dest_buffer tid :
  0 ≤ tid < n_block →
  ∃ buf, buffer_of s0 tid = Some buf
         ∧ Vec.size (concat (blk tid)) ≤ Vec.size buf.
Proof.
  intros Htid. destruct Hdest as (_ & _ & _ & _ & Hall). cbn zeta in Hall.
  rewrite Forall_forall in Hall.
  specialize (Hall tid ltac:(apply elem_of_seqZ; lia)).
  destruct (buffer_of s0 tid) as [buf|]; [|done]. by exists buf.
Qed.

(** The rows of the loop of block [tid] are the rows of the block. *)
Lemma block_range tid :
  0 ≤ tid →
  take (Z.to_nat (Z.min (num_data_ s0) (tid * block_size + block_size)
                  - tid * block_size))
       (drop (Z.to_nat (tid * block_size)) rebinned)
  = blk tid.
Proof.
  intros Htid. pose proof block_size_covers as [Hbs _].
  pose proof length_rebinned as Hlen. unfold Vec.size in Hlen.
  pose proof dest_num_data as Hn.
  unfold block_rows. cbn beta.
  rewrite <- (take_min_length _ (Z.to_nat block_size)).
  f_equal. rewrite length_drop. nia.
Qed.

Lemma buffer_of_set_row_ptr s rp b :
  buffer_of (set_row_ptr s rp) b = buffer_of s b.
Proof. done. Qed.

Lemma buffer_of_set_data s buf b :
  buffer_of (set_data s buf) b
  = if decide (b = 0) then Some buf else buffer_of s b.
Proof. unfold buffer_of. by case_decide. Qed.

Lemma buffer_of_set_t_data s tid buf b :
  1 ≤ tid → tid - 1 < Vec.size (t_data_ s) →
  buffer_of (set_t_data s (<[Z.to_nat (tid - 1) := buf]> (t_data_ s))) b
  = if decide (b = tid) then Some buf else buffer_of s b.
Proof.
  intros Htid Hlt. unfold buffer_of. cbn [data_ t_data_ set_t_data].
  destruct (decide (b = 0)) as [->|Hb0].
  - by rewrite decide_False by lia.
  - destruct (decide (b = tid)) as [->|Hne].
    + by rewrite Vec_get_set_eq by lia.
    + destruct (decide (0 ≤ b - 1)).
      * by rewrite Vec_get_set_ne by lia.
      * by rewrite !Vec_get_None by (rewrite ?Vec_size_insert; lia).
Qed.

Lemma blocks_loop_spec :
  ∃ s sizes,
    for_range 0 n_block
      (filter_block VAL_T other lower upper delta block_size)
      (s0, replicate (Z.to_nat (Vec.size (t_data_ s0) + 1)) 0)
    = Some (s, sizes)
    ∧ num_data_ s = num_data_ s0 ∧ num_bin_ s = num_bin_ s0
    ∧ estimate_element_per_row_ s = estimate_element_per_row_ s0
    ∧ Vec.size (row_ptr_ s) = num_data_ s0 + 1
    ∧ Vec.get (row_ptr_ s) 0 = Some 0
    ∧ (∀ j, 0 ≤ j < num_data_ s0 →
         Vec.get (row_ptr_ s) (j + 1)
         = Some (Vec.size (rebin_row (row_slice other j))))
    ∧ Vec.size (t_data_ s) = Vec.size (t_data_ s0)
    ∧ Vec.size sizes = Vec.size (t_data_ s0) + 1
    ∧ (∀ b, 0 ≤ b < n_block →
         ∃ buf, buffer_of s b = Some buf
                ∧ Vec.get sizes b = Some (Vec.size (concat (blk b)))
                ∧ take (Z.to_nat (Vec.size (concat (blk b)))) buf
                  = concat (blk b))
    ∧ (∀ b, n_block ≤ b ≤ Vec.size (t_data_ s0) → Vec.get sizes b = Some 0).
Proof.
  pose proof Hdest as (Hrows & Hrp & Hrp0 & Hb & _). cbn zeta in Hb.
  pose proof block_size_covers as [Hbs Hcover].
  pose proof dest_num_data as Hn.
  loop_inv (λ tid (st : MultiValSparseBin * list Z),
              let '(s, sizes) := st in
              num_data_ s = num_data_ s0 ∧ num_bin_ s = num_bin_ s0
              ∧ estimate_element_per_row_ s = estimate_element_per_row_ s0
              ∧ Vec.size (row_ptr_ s) = num_data_ s0 + 1
              ∧ Vec.get (row_ptr_ s) 0 = Some 0
              ∧ (∀ j, 0 ≤ j < Z.min (num_data_ s0) (tid * block_size) →
                   Vec.get (row_ptr_ s) (j + 1)
                   = Some (Vec.size (rebin_row (row_slice other j))))
              ∧ Vec.size (t_data_ s) = Vec.size (t_data_ s0)
              ∧ Vec.size sizes = Vec.size (t_data_ s0) + 1
              ∧ (∀ b, 0 ≤ b < tid →
                   ∃ buf, buffer_of s b = Some buf
                          ∧ Vec.get sizes b = Some (Vec.size (concat (blk b)))
                          ∧ take (Z.to_nat (Vec.size (concat (blk b)))) buf
                            = concat (blk b))
              ∧ (∀ b, tid ≤ b → buffer_of s b = buffer_of s0 b)
              ∧ (∀ b, tid ≤ b ≤ Vec.size (t_data_ s0) →
                   Vec.get sizes b = Some 0))
    st HI.
  - lia.
  - repeat split; try done.
    + intros j Hj. lia.
    + unfold Vec.size. rewrite length_replicate.
      pose proof (Vec_size_nonneg (t_data_ s0)). unfold Vec.size in *. lia.
    + intros b Hb'. lia.
    + intros b Hb'. unfold Vec.get. case_decide; [|lia].
      apply lookup_replicate. split; [done|]. lia.
  - intros tid [s sizes] Htid
      (Hnum & Hbin & Hest & Hsrp & Hs0 & Hlens & Hst & Hssz & Hdone & Hrest & Hzero).
    destruct (dest_buffer tid Htid) as (buf0 & Hbuf0 & Hroom).
    assert (tid ≤ Vec.size (t_data_ s0)) as HtidT.
    { unfold buffer_of in Hbuf0. case_decide.
      - pose proof (Vec_size_nonneg (t_data_ s0)). lia.
      - apply Vec_get_lt in Hbuf0. lia. }
    unfold filter_block. cbn zeta.
    change (if decide (tid = 0) then Some (data_ s)
            else Vec.get (t_data_ s) (tid - 1)) with (buffer_of s tid).
    rewrite Hrest, Hbuf0 by lia. cbn [mbind option_bind]. rewrite Hnum.
    destruct (filter_block_rows_spec (tid * block_size)
                (Z.min (num_data_ s0) (tid * block_size + block_size))
                buf0 (row_ptr_ s))
      as (buf & bid & rp & -> & Hbid & Htake & Hsbuf & Hsrp' & Hin & Hout);
      [nia|lia|lia|by rewrite block_range by lia|].
    rewrite block_range in Hbid, Htake by lia.
    cbn [mbind option_bind]. rewrite (Vec_set_Some sizes) by lia.
    cbn [mbind option_bind].
    assert (∃ s',
              (if decide (tid = 0) then Some (set_data s buf)
               else set_t_data s <$> Vec.set (t_data_ s) (tid - 1) buf)
              = Some s'
              ∧ num_data_ s' = num_data_ s ∧ num_bin_ s' = num_bin_ s
              ∧ estimate_element_per_row_ s' = estimate_element_per_row_ s
              ∧ row_ptr_ s' = row_ptr_ s
              ∧ Vec.size (t_data_ s') = Vec.size (t_data_ s)
              ∧ ∀ b, buffer_of s' b
                     = if decide (b = tid) then Some buf else buffer_of s b)
      as (s' & -> & Hnum' & Hbin' & Hest' & Hrp' & Hst' & Hbuf').
    { destruct (decide (tid = 0)) as [->|Hne].
      - eexists. split; [done|]. repeat split.
        intros b. apply buffer_of_set_data.
      - rewrite Vec_set_Some by lia. eexists. split; [done|].
        cbn [fmap option_fmap option_map num_data_ num_bin_ row_ptr_ t_data_
             estimate_element_per_row_ set_t_data].
        rewrite Vec_size_insert. repeat split.
        intros b. apply buffer_of_set_t_data; lia. }
    cbn [mbind option_bind]. eexists. split; [done|].
    cbn [num_data_ num_bin_ estimate_element_per_row_ row_ptr_ t_data_
         set_row_ptr].
    rewrite Hnum', Hbin', Hest', Hst', Vec_size_insert.
    split; [done|]. split; [done|]. split; [done|]. split; [lia|].
    split; [rewrite Hout by nia; done|].
    split; [|split; [done|split; [done|split; [|split]]]].
    + intros j Hj.
      destruct (decide (j < tid * block_size)) as [Hlt|Hge].
      * rewrite Hout by lia. apply Hlens. lia.
      * apply Hin. nia.
    + intros b Hb'. rewrite buffer_of_set_row_ptr, Hbuf'.
      destruct (decide (b = tid)) as [->|Hne].
      * exists buf. rewrite Vec_get_set_eq by lia. by rewrite <- Hbid.
      * destruct (Hdone b ltac:(lia)) as (bufb & ? & ? & ?).
        exists bufb. by rewrite Vec_get_set_ne by lia.
    + intros b Hb'. rewrite buffer_of_set_row_ptr, Hbuf'.
      rewrite decide_False by lia. apply Hrest. lia.
    + intros b Hb'. rewrite Vec_get_set_ne by lia. apply Hzero. lia.
  - destruct st as [s sizes].
    destruct HI as (Hnum & Hbin & Hest & Hsrp & Hs0 & Hlens & Hst & Hssz
                    & Hdone & Hrest & Hzero).
    exists s, sizes. split; [done|]. repeat split; try done.
    intros j Hj. apply Hlens. lia.
Qed.

(** *** The merge with exact counts *)

Lemma prefix_sum_rows (rp : list Z) (rows : list (list Z)) (k : nat) :
  (∀ j r, rows !! j = Some r → (j < k)%nat →
     row_length rp (Z.of_nat j) = Vec.size r) →
  (k ≤ length rows)%nat →
  prefix_sum rp (Z.of_nat k) = Vec.size (concat (take k rows)).
Proof.
  induction k as [|k IH]; intros Hlen Hk; [done|].
  destruct (lookup_lt_is_Some_2 rows k) as [r Hr]; [lia|].
  replace (Z.of_nat (S k)) with (Z.of_nat k + 1) by lia.
  rewrite prefix_sum_succ by lia.
  rewrite IH by first [lia|intros j r' ? ?; apply Hlen; [done|lia]].
  rewrite (take_S_concat _ _ _ Hr), Vec_size_app.
  by rewrite (Hlen k r Hr) by lia.
Qed.

(** The rows before block [m + 1] are those before block [m] and block [m]. *)
Lemma take_blocks_succ (m : Z) :
  0 ≤ m →
  take (Z.to_nat ((m + 1) * block_size)) rebinned
  = take (Z.to_nat (m * block_size)) rebinned ++ blk m.
Proof.
  intros Hm. pose proof block_size_covers as [Hbs _].
  unfold block_rows. cbn beta. rewrite take_take_drop. f_equal. nia.
Qed.

Lemma blk_beyond (b : Z) : n_block ≤ b → blk b = [].
Proof.
  intros Hb. pose proof block_size_covers as [Hbs Hcover].
  pose proof length_rebinned as Hlen. pose proof dest_num_data as Hn.
  unfold Vec.size in Hlen. unfold block_rows. cbn beta.
  rewrite drop_ge by nia. by rewrite take_nil.
Qed.

Lemma take_all_blocks (m : Z) :
  n_block ≤ m → take (Z.to_nat (m * block_size)) rebinned = rebinned.
Proof.
  intros Hb. pose proof block_size_covers as [Hbs Hcover].
  pose proof length_rebinned as Hlen. pose proof dest_num_data as Hn.
  unfold Vec.size in Hlen. apply take_ge. nia.
Qed.

Lemma merge_blocks_spec (s : MultiValSparseBin) (sizes : list Z) :
  num_data_ s = num_data_ s0 →
  Vec.size (row_ptr_ s) = num_data_ s0 + 1 →
  Vec.get (row_ptr_ s) 0 = Some 0 →
  (∀ j, 0 ≤ j < num_data_ s0 →
     Vec.get (row_ptr_ s) (j + 1)
     = Some (Vec.size (rebin_row (row_slice other j)))) →
  Vec.size sizes = Vec.size (t_data_ s) + 1 →
  (∀ b, 0 ≤ b < n_block →
     ∃ buf, buffer_of s b = Some buf
            ∧ Vec.get sizes b = Some (Vec.size (concat (blk b)))
            ∧ take (Z.to_nat (Vec.size (concat (blk b)))) buf
              = concat (blk b)) →
  (∀ b, n_block ≤ b ≤ Vec.size (t_data_ s) → Vec.get sizes b = Some 0) →
  ∃ s',
    MoveData true sizes s = Some s'
    ∧ num_data_ s' = num_data_ s0 ∧ num_bin_ s' = num_bin_ s
    ∧ estimate_element_per_row_ s' = estimate_element_per_row_ s
    ∧ t_data_ s' = t_data_ s
    ∧ row_ptr_ s' = offsets_of rebinned
    ∧ take (Z.to_nat (Vec.size (concat rebinned))) (data_ s') = concat rebinned
    ∧ (t_data_ s ≠ [] → data_ s' = concat rebinned).
Proof.
  intros Hnum Hsrp Hrp0 Hlens Hssz Hdone Hzero.
  pose proof Hdest as (_ & _ & _ & Hb & _). cbn zeta in Hb.
  pose proof block_size_covers as [Hbs Hcover].
  pose proof dest_num_data as Hn.
  pose proof length_rebinned as Hlen.
  pose proof Hok as (Hfin & _).
  pose proof (finalized_num_data other Hfin) as Hn0.
  assert (prefix_sum (row_ptr_ s) <$> seqZ 0 (num_data_ s0 + 1)
          = offsets_of rebinned) as Hoffsets.
  { apply Vec_ext.
    - rewrite length_offsets_of, Hlen. unfold Vec.size.
      rewrite length_fmap, length_seqZ. lia.
    - intros i Hi. unfold Vec.size in Hi.
      rewrite length_fmap, length_seqZ in Hi.
      rewrite get_prefix_sums, get_offsets_of by lia. f_equal.
      rewrite <- (Z2Nat.id i) at 1 by lia.
      apply prefix_sum_rows; [|unfold Vec.size in Hlen; lia].
      intros j r Hr Hj. unfold row_length.
      rewrite Hlens by lia. simpl. f_equal.
      rewrite <- (Nat2Z.id j), lookup_rebinned in Hr by lia. by simplify_eq. }
  assert (Vec.get (prefix_sum (row_ptr_ s) <$> seqZ 0 (num_data_ s0 + 1))
            (num_data_ s0) = Some (Vec.size (concat rebinned))) as Htotal.
  { rewrite Hoffsets, get_offsets_of by lia. do 3 f_equal.
    apply take_ge. unfold Vec.size in Hlen. lia. }
  unfold MoveData. rewrite Hnum.
  rewrite prefix_sum_loop by (done || lia). cbn [mbind option_bind].
  cbn [num_data_ row_ptr_ t_data_ data_ set_row_ptr]. rewrite ?Hnum.
  case_decide as Ht.
  { (* several buffers *)
    set (t := t_data_ s) in *.
    set (P := λ m, Vec.size (concat (take (Z.to_nat (m * block_size)) rebinned))).
    assert (∀ m, 0 ≤ m → P (m + 1) = P m + Vec.size (concat (blk m))) as HP.
    { intros m Hm. unfold P. by rewrite take_blocks_succ, concat_app, Vec_size_app. }
    assert (∀ m, 0 ≤ m → 0 ≤ P m ≤ Vec.size (concat rebinned)) as HPle.
    { intros m Hm. unfold P. split; [apply Vec_size_nonneg|].
      apply size_concat_take_le. }
    assert (∀ m, n_block ≤ m → P m = Vec.size (concat rebinned)) as HPall.
    { intros m Hm. unfold P. by rewrite take_all_blocks. }
    assert (∀ b, 0 ≤ b ≤ Vec.size t →
              ∃ buf, buffer_of s b = Some buf
                     ∧ Vec.get sizes b = Some (Vec.size (concat (blk b)))
                     ∧ take (Z.to_nat (Vec.size (concat (blk b)))) buf
                       = concat (blk b)) as Hall.
    { intros b Hb'. destruct (decide (b < n_block)) as [Hlt|Hge].
      - apply Hdone. lia.
      - rewrite blk_beyond by lia.
        assert (is_Some (buffer_of s b)) as [buf Hbuf].
        { unfold buffer_of. case_decide; [done|].
          apply Vec_get_is_Some. fold t. lia. }
        exists buf. split; [done|]. split; [apply Hzero; fold t; lia|done]. }
    assert (n_block ≤ Vec.size t + 1) as HBT.
    { destruct (Hdone (n_block - 1) ltac:(lia)) as (buf & Hbuf & _).
      unfold buffer_of in Hbuf. case_decide; [lia|].
      apply Vec_get_lt in Hbuf. fold t in Hbuf. lia. }
    destruct (Hall 0 ltac:(lia)) as (buf0 & Hbuf0 & Hsz0 & Htake0).
    rewrite Hsz0. cbn [mbind option_bind].
    loop_inv (λ j (o : list Z),
                Vec.size o = j + 1
                ∧ ∀ k, 0 ≤ k ≤ j → Vec.get o k = Some (P (k + 1)))
      offsets Hoff.
    - lia.
    - split; [done|]. intros k Hk. replace k with 0 by lia.
      rewrite (Vec_get_nat _ 0%nat). simpl. f_equal.
      rewrite HP by lia. unfold P. simpl. unfold Vec.size at 2. simpl. lia.
    - intros j o Hj [Hso Ho]. rewrite last_lookup.
      pose proof (Ho j ltac:(lia)) as Hoj.
      apply Vec_get_Some in Hoj as [_ Hoj]. unfold Vec.size in Hso.
      replace (pred (length o)) with (Z.to_nat j) by lia.
      rewrite Hoj. cbn [mbind option_bind].
      destruct (Hall (j + 1) ltac:(lia)) as (buf & _ & -> & _).
      cbn [mbind option_bind]. eexists. split; [done|].
      split; [rewrite Vec_size_app; unfold Vec.size; simpl; lia|].
      intros k Hk. unfold Vec.get. case_decide; [|lia].
      destruct (decide (k = j + 1)) as [->|].
      + rewrite lookup_app_r by lia.
        replace (Z.to_nat (j + 1) - length o)%nat with 0%nat by lia. simpl.
        by rewrite (HP (j + 1)) by lia.
      + rewrite lookup_app_l by lia.
        specialize (Ho k ltac:(lia)). by apply Vec_get_Some in Ho as [_ ?].
    - destruct Hoff as [Hosize Hoff].
      rewrite Htotal. cbn [mbind option_bind].
      pose proof (Vec_size_nonneg (concat rebinned)) as HL.
      unfold Vec.resize. case_decide; [|lia]. cbn [mbind option_bind].
      loop_inv (λ tid (d : list Z),
                  Vec.size d = Vec.size (concat rebinned)
                  ∧ take (Z.to_nat (P (tid + 1))) d
                    = concat (take (Z.to_nat ((tid + 1) * block_size)) rebinned))
        d Hd.
      + lia.
      + split; [unfold Vec.size; rewrite length_resize; lia|].
        unfold buffer_of in Hbuf0. rewrite decide_True in Hbuf0 by done.
        injection Hbuf0 as <-.
        assert (P 1 = Vec.size (concat (blk 0))) as HP1.
        { pose proof (HP 0 ltac:(lia)) as HP0. change (0 + 1) with 1 in HP0.
          rewrite HP0. unfold P. simpl. unfold Vec.size at 1. simpl. lia. }
        pose proof (HPle 1 ltac:(lia)) as HP1le.
        change (0 + 1) with 1. rewrite take_resize.
        rewrite Nat.min_l by lia.
        assert (Z.to_nat (P 1%Z) ≤ length (data_ s))%nat as Hfit.
        { rewrite HP1. apply (f_equal length) in Htake0.
          rewrite length_take in Htake0. unfold Vec.size in *. lia. }
        rewrite resize_le by done. rewrite HP1, Htake0.
        pose proof (take_blocks_succ 0 ltac:(lia)) as Hfirst.
        change (0 + 1) with 1 in Hfirst. rewrite Hfirst. simpl. done.
      + intros tid d Htid [Hsd Htd].
        destruct (Hall (tid + 1) ltac:(lia)) as (src & Hsrc & Hsz & Htake).
        unfold buffer_of in Hsrc. rewrite decide_False in Hsrc by lia.
        replace (tid + 1 - 1) with tid in Hsrc by lia. fold t in Hsrc.
        rewrite Hsrc. cbn [mbind option_bind].
        rewrite Hoff by lia. cbn [mbind option_bind].
        rewrite Hsz. cbn [mbind option_bind].
        set (len := Vec.size (concat (blk (tid + 1)))) in *.
        pose proof (HP (tid + 1) ltac:(lia)) as HPs. fold len in HPs.
        pose proof (HPle (tid + 1) ltac:(lia)).
        pose proof (HPle (tid + 1 + 1) ltac:(lia)).
        assert (0 ≤ len) by apply Vec_size_nonneg.
        assert (len ≤ Vec.size src) as Hlsrc.
        { apply (f_equal length) in Htake. rewrite length_take in Htake.
          unfold len, Vec.size in *. lia. }
        unfold Vec.copy_n. case_decide; [|subst len; cbn beta in *; lia].
        eexists. split; [done|].
        split.
        * unfold Vec.size in *.
          rewrite !length_app, !length_take, length_drop. lia.
        * rewrite HPs. rewrite app_assoc.
          rewrite take_app_length'
            by (unfold Vec.size in *; rewrite length_app, !length_take; lia).
          rewrite Htd, Htake. rewrite (take_blocks_succ (tid + 1)) by lia.
          by rewrite concat_app.
      + destruct Hd as [Hsd Htd].
        rewrite HPall in Htd by lia. rewrite take_all_blocks in Htd by lia.
        rewrite take_ge in Htd by (unfold Vec.size in *; lia). subst d.
        eexists. split; [done|].
        cbn [num_data_ num_bin_ estimate_element_per_row_ t_data_ row_ptr_
             data_ set_data set_row_ptr].
        repeat split; try done. apply take_ge. unfold Vec.size. lia. }
  (* one buffer *)
  assert (t_data_ s = []) as Hnil.
  { destruct (t_data_ s); [done|]. unfold Vec.size in Ht. simpl in Ht. lia. }
  assert (n_block = 1) as HB.
  { destruct (decide (n_block = 1)); [done|].
    destruct (Hdone 1 ltac:(lia)) as (buf & Hbuf & _).
    unfold buffer_of in Hbuf. rewrite decide_False, Hnil in Hbuf by lia.
    done. }
  destruct (Hdone 0 ltac:(lia)) as (buf0 & Hbuf0 & _ & Htake0).
  unfold buffer_of in Hbuf0. rewrite decide_True in Hbuf0 by done.
  injection Hbuf0 as <-.
  assert (blk 0 = rebinned) as Hblk0.
  { unfold block_rows. cbn beta. simpl. apply take_ge.
    unfold Vec.size in Hlen. nia. }
  rewrite Hblk0 in Htake0.
  eexists. split; [done|].
  cbn [num_data_ num_bin_ estimate_element_per_row_ t_data_ row_ptr_
       data_ set_data set_row_ptr].
  repeat split; try done.
Qed.

(** For a structure of at least 1024 rows per block whose buffers have
    room, [CopySubFeature] is defined and rebuilds the destination from the
    rebinned rows of the source: row [i] of the result is the subsequence
    of source row [i] that survives the filter, renumbered. *)
Lemma CopySubFeature_spec :
  ∃ s',
    CopySubFeature VAL_T num_threads other lower upper delta s0 = Some s'
    ∧ num_data_ s' = num_data_ s0
    ∧ row_ptr_ s' = offsets_of rebinned
    ∧ take (Z.to_nat (Vec.size (concat rebinned))) (data_ s') = concat rebinned
    ∧ (t_data_ s0 ≠ [] → data_ s' = concat rebinned)
    ∧ (∀ i, 0 ≤ i < num_data_ other →
         row_slice s' i = rebin_row (row_slice other i)).
Proof.
  pose proof Hdest as (_ & _ & _ & Hb & _). cbn zeta in Hb.
  destruct blocks_loop_spec
    as (s & sizes & Hloop & Hnum & Hbin & Hest & Hsrp & Hrp0 & Hlens & Hst
        & Hssz & Hdone & Hzero).
  destruct (merge_blocks_spec s sizes)
    as (s' & Hs' & Hnum' & _ & _ & Ht' & Hrp' & Htake & Hdata); try done.
  { by rewrite Hst. }
  { by rewrite Hst. }
  exists s'. split.
  { unfold CopySubFeature, int_div. cbn zeta.
    rewrite decide_False by lia. cbn [mbind option_bind].
    rewrite Hloop. cbn [mbind option_bind]. done. }
  split; [done|]. split; [done|]. split; [done|]. split.
  - intros Hne. apply Hdata. intros Hnil. apply Hne.
    destruct (t_data_ s0); [done|].
    rewrite Hnil in Hst. unfold Vec.size in Hst. simpl in Hst. lia.
  - intros i Hi.
    destruct (row_slice_offsets_of s' rebinned
                (drop (Z.to_nat (Vec.size (concat rebinned))) (data_ s')) i)
      as [Hrow _]; [done| |by rewrite length_rebinned|].
    + rewrite <- (take_drop (Z.to_nat (Vec.size (concat rebinned)))
                    (data_ s')) at 1.
      by rewrite Htake.
    + rewrite lookup_rebinned in Hrow by done. by injection Hrow.
Qed.

End FilterBlocks.

(** *** The full-range filter *)

Lemma static_cast_small VAL_T v :
  0 ≤ v < 2 ^ (8 * sizeof VAL_T) →
  static_cast_VAL_T VAL_T (static_cast_uint32_t v) = v.
Proof.
  intros Hv. unfold static_cast_VAL_T, static_cast_uint32_t.
  assert (2 ^ (8 * sizeof VAL_T) ≤ 2 ^ 32) by (by destruct VAL_T).
  rewrite (Z.mod_small v (2 ^ 32)) by lia. by apply Z.mod_small.
Qed.

Lemma rebin_value_full_range VAL_T num_bin v :
  0 ≤ v < num_bin → num_bin ≤ 2 ^ (8 * sizeof VAL_T) →
  first_range [num_bin] v = 0
  ∧ rebin_value VAL_T [0] [num_bin] [0] v = [v].
Proof.
  intros Hv Hbits.
  assert (first_range [num_bin] v = 0) as Hfr.
  { unfold first_range. rewrite advance_0. simpl.
    by rewrite decide_False by lia. }
  split; [done|]. unfold rebin_value. cbn zeta. rewrite Hfr. simpl.
  rewrite decide_True by lia. rewrite Z.sub_0_r.
  by rewrite static_cast_small by lia.
Qed.

Lemma rebin_row_full_range VAL_T num_bin row :
  Forall (λ v, 0 ≤ v < num_bin) row → num_bin ≤ 2 ^ (8 * sizeof VAL_T) →
  rebin_row VAL_T [0] [num_bin] [0] row = row
  ∧ in_range_order [num_bin] row.
Proof.
  intros Hrow Hbits. induction Hrow as [|v row Hv Hrow [IH1 [IH2 IH3]]].
  - split; [done|]. split; constructor.
  - destruct (rebin_value_full_range VAL_T num_bin v Hv Hbits) as [Hfr Hval].
    split; [|split].
    + unfold rebin_row in *. rewrite bind_cons, Hval, IH1. done.
    + constructor; [simpl; lia|done].
    + rewrite fmap_cons, Hfr. constructor; [done|].
      destruct Hrow as [|w row Hw Hrow]; constructor.
      destruct (rebin_value_full_range VAL_T num_bin w Hw Hbits) as [-> _].
      done.
Qed.

Lemma Forall_row_slice (Q : Z → Prop) s r :
  Forall Q (data_ s) → Forall Q (row_slice s r).
Proof. intros HQ. unfold row_slice. by apply Forall_take, Forall_drop. Qed.

(** On a structure of at least 1024 rows per block the single full-range
    filter reproduces the offsets and the values of the source; the store
    itself is reproduced when the destination has thread buffers, and is
    followed by what is left of the pre-sized buffer when it has none. *)
Lemma CopySubFeature_full_range VAL_T num_threads other s0 :
  finalized other → bins_in_range other →
  num_bin_ other ≤ 2 ^ (8 * sizeof VAL_T) →
  dest_ok num_threads (rows_of other) s0 →
  ∃ s',
    CopySubFeature VAL_T num_threads other [0] [num_bin_ other] [0] s0 = Some s'
    ∧ row_ptr_ s' = row_ptr_ other
    ∧ take (Z.to_nat (Vec.size (data_ other))) (data_ s') = data_ other
    ∧ (t_data_ s0 ≠ [] → data_ s' = data_ other).
Proof.
  intros Hfin Hbins Hbits Hdest.
  assert (∀ row, row ∈ rows_of other →
            rebin_row VAL_T [0] [num_bin_ other] [0] row = row
            ∧ in_range_order [num_bin_ other] row) as Hrows.
  { intros row (r & -> & _)%list_elem_of_fmap.
    apply rebin_row_full_range; [|done]. by apply Forall_row_slice. }
  assert (rebin_row VAL_T [0] [num_bin_ other] [0] <$> rows_of other
          = rows_of other) as Hsame.
  { rewrite <- (list_fmap_id (rows_of other)) at 2.
    apply list_fmap_ext. intros j row Hrow. apply Hrows.
    by eapply list_elem_of_lookup_2. }
  destruct (CopySubFeature_spec VAL_T [0] [num_bin_ other] [0] other)
    with (num_threads := num_threads) (s0 := s0)
    as (s' & Hs' & _ & Hrp & Htake & Hdata & _).
  { split; [done|]. split; [done|]. split; [done|].
    apply Forall_forall. intros row Hrow. by apply Hrows. }
  { by rewrite Hsame. }
  rewrite Hsame in *.
  destruct (finalized_layout other Hfin) as [Hl1 Hl2].
  rewrite <- Hl1 in Hrp. rewrite <- Hl2 in Htake, Hdata. by exists s'.
Qed.

(** The specification of [CopySubFeature] at work: 1024 rows, two threads
    (hence one block), the range [[1, 4)] shifted by 1. *)
Lemma CopySubFeature_spec_example :
  filter_ok large_source [1] [4] [1]
  ∧ dest_ok 2 (rebin_row uint8_t [1] [4] [1] <$> rows_of large_source)
      (large_dest 1024 [replicate 16 0])
  ∧ ∃ s',
      CopySubFeature uint8_t 2 large_source [1] [4] [1]
        (large_dest 1024 [replicate 16 0]) = Some s'
      ∧ row_slice s' 0 = [] ∧ row_slice s' 1 = [0] ∧ row_slice s' 7 = [2]
      ∧ Vec.size (data_ s') = 768.
Proof.
  assert (filter_ok large_source [1] [4] [1]) as Hok
    by (apply (bool_decide_unpack _); vm_compute; exact I).
  assert (dest_ok 2 (rebin_row uint8_t [1] [4] [1] <$> rows_of large_source)
            (large_dest 1024 [replicate 16 0])) as Hdest
    by (apply (bool_decide_unpack _); vm_compute; exact I).
  split; [exact Hok|]. split; [exact Hdest|].
  destruct (CopySubFeature_spec uint8_t [1] [4] [1] large_source Hok 2
              (large_dest 1024 [replicate 16 0]) Hdest)
    as (s' & Hs' & _ & _ & _ & Hdata & Hrows).
  exists s'. split; [exact Hs'|].
  rewrite !Hrows by (simpl; lia). rewrite Hdata by done.
  repeat split; vm_compute; reflexivity.
Qed.

(** With no thread buffer the merge does not resize the store: after the
    full-range filter the offsets are those of the source, but the store
    keeps the 2000 entries it was pre-sized to, the 1024 values first. *)
Lemma CopySubFeature_single_thread_keeps_buffer :
  (λ s', (row_ptr_ s', Vec.size (data_ s'), take 1024 (data_ s')))
  <$> CopySubFeature uint8_t 1 large_source [0] [4] [0] (large_dest 2000 [])
  = Some (row_ptr_ large_source, 2000, data_ large_source).
Proof. vm_compute. reflexivity. Qed.

(** * Further properties of the code *)

(** ** Loops that fail *)

(** A loop has no result as soon as one iteration has none, whatever the
    iterations before it did; [I] is what they preserve. *)
Lemma for_loop_None {St : Type} (I : St → Prop) (body : Z → St → option St)
    (n : nat) (i k : Z) (s : St) :
  I s →
  (∀ j t t', i ≤ j < i + Z.of_nat n → I t → body j t = Some t' → I t') →
  i ≤ k < i + Z.of_nat n →
  (∀ t, I t → body k t = None) →
  for_loop n i body s = None.
Proof.
  revert i s. induction n as [|n IH]; intros i s Hs Hpres Hk Hfail; [lia|].
  cbn [for_loop]. destruct (body i s) as [t|] eqn:E; [|done].
  cbn [mbind option_bind].
  destruct (decide (k = i)) as [->|Hne]; [by rewrite Hfail in E|].
  apply IH.
  - eapply Hpres; [|done|done]. lia.
  - intros j u u' Hj. apply Hpres. lia.
  - lia.
  - done.
Qed.

Lemma for_range_None {St : Type} (I : St → Prop) (body : Z → St → option St)
    (lo hi k : Z) (s : St) :
  I s →
  (∀ j t t', lo ≤ j < hi → I t → body j t = Some t' → I t') →
  lo ≤ k < hi →
  (∀ t, I t → body k t = None) →
  for_range lo hi body s = None.
Proof.
  intros Hs Hpres Hk Hfail. unfold for_range.
  apply (for_loop_None I) with (k := k); [done| |lia|done].
  intros j t t' Hj. apply Hpres. lia.
Qed.

(** What the iterations preserve holds when the loop ends. *)
Lemma for_loop_Some_inv {St : Type} (I : St → Prop)
    (body : Z → St → option St) (n : nat) (i : Z) (s s' : St) :
  I s →
  (∀ j t t', i ≤ j < i + Z.of_nat n → I t → body j t = Some t' → I t') →
  for_loop n i body s = Some s' → I s'.
Proof.
  revert i s. induction n as [|n IH]; intros i s Hs Hpres Hrun.
  - cbn in Hrun. by simplify_eq.
  - cbn [for_loop] in Hrun. destruct (body i s) as [t|] eqn:E; [|done].
    cbn [mbind option_bind] in Hrun. apply (IH (i + 1) t); [| |done].
    + eapply Hpres; [|done|done]. lia.
    + intros j u u' Hj. apply Hpres. lia.
Qed.

Lemma for_range_Some_inv {St : Type} (I : St → Prop)
    (body : Z → St → option St) (lo hi : Z) (s s' : St) :
  I s →
  (∀ j t t', lo ≤ j < hi → I t → body j t = Some t' → I t') →
  for_range lo hi body s = Some s' → I s'.
Proof.
  intros Hs Hpres. unfold for_range. apply for_loop_Some_inv; [done|].
  intros j t t' Hj. apply Hpres. lia.
Qed.

(** ** The accumulator at and beyond its bounds *)

Section HistogramBounds.

Context {score_t hist_t : Type}.
Variable to_hist : score_t → hist_t.
Variable hadd : hist_t → hist_t → hist_t.
Variable one_f : score_t.
Variable VAL_T : VAL_T_kind.

Local Abbreviation ACC_GH := (ACC_GH to_hist hadd).
Local Abbreviation accumulate_row := (accumulate_row to_hist hadd one_f).
Local Abbreviation Accumulate_spec := (Accumulate_spec to_hist hadd one_f).
Local Abbreviation ConstructHistogramInner :=
  (ConstructHistogramInner to_hist hadd one_f VAL_T).
Local Abbreviation Accumulate := (Accumulate to_hist hadd one_f VAL_T).
Local Abbreviation hessian_of := (hessian_of one_f).
Local Abbreviation contributions := (contributions one_f).
Local Abbreviation sum_onto := (sum_onto to_hist hadd).

Implicit Types (hist out : list hist_t) (g h : score_t) (b r k : Z).
Implicit Types (gradients hs : list score_t).
Implicit Types (hessians : option (list score_t)).

Lemma shiftl_1 b : Z.shiftl b 1 = 2 * b.
Proof. rewrite Z.shiftl_mul_pow2 by lia. lia. Qed.

(** The macro never changes the size of the histogram. *)
Lemma ACC_GH_size hist b g h hist' :
  ACC_GH hist b g h = Some hist' → Vec.size hist' = Vec.size hist.
Proof.
  unfold ACC_GH. cbn zeta. intros Hrun.
  destruct (Vec.get hist (Z.shiftl b 1)) as [x|]; [|done].
  cbn [mbind option_bind] in Hrun. unfold Vec.set in Hrun at 2.
  case_decide; [|done]. cbn [mbind option_bind] in Hrun.
  destruct (Vec.get _ (Z.shiftl b 1 + 1)) as [y|]; [|done].
  cbn [mbind option_bind] in Hrun. unfold Vec.set in Hrun.
  case_decide; [|done]. simplify_eq. by rewrite !Vec_size_insert.
Qed.

(** It has no result when one of its two entries does not exist. *)
Lemma ACC_GH_None hist b g h :
  ¬ (0 ≤ b ∧ 2 * b + 1 < Vec.size hist) → ACC_GH hist b g h = None.
Proof.
  intros Hb. unfold ACC_GH. cbn zeta. rewrite shiftl_1.
  destruct (Vec.get hist (2 * b)) as [x|] eqn:Hx; [|done].
  apply Vec_get_lt in Hx. cbn [mbind option_bind].
  rewrite Vec_set_Some by done. cbn [mbind option_bind].
  rewrite (Vec_get_None _ (2 * b + 1)); [done|].
  rewrite Vec_size_insert. lia.
Qed.

Lemma accumulate_row_size use_hessians s gradients hs r out out' :
  accumulate_row use_hessians s gradients hs r out = Some out' →
  Vec.size out' = Vec.size out.
Proof.
  unfold accumulate_row. intros Hrun.
  destruct (RowPtr s r) as [j_start|]; [|done].
  destruct (RowPtr s (r + 1)) as [j_end|]; [|done].
  cbn [mbind option_bind] in Hrun. revert Hrun.
  apply (for_range_Some_inv (λ o, Vec.size o = Vec.size out)); [done|].
  intros j t t' _ Ht Hbody.
  destruct (Vec.get (data_ s) j) as [bin|]; [|done].
  destruct (Vec.get gradients r) as [g|]; [|done].
  cbn [mbind option_bind] in Hbody. destruct use_hessians.
  - destruct (Vec.get hs r) as [h|]; [|done].
    cbn [mbind option_bind] in Hbody. apply ACC_GH_size in Hbody. congruence.
  - apply ACC_GH_size in Hbody. congruence.
Qed.

(** A row id that is no row of the structure: [RowPtr] reads outside
    [row_ptr_]. *)
Lemma accumulate_row_None_row use_hessians s gradients hs r out :
  Vec.size (row_ptr_ s) = num_data_ s + 1 →
  ¬ (0 ≤ r < num_data_ s) →
  accumulate_row use_hessians s gradients hs r out = None.
Proof.
  intros Hsize Hr. unfold accumulate_row, RowPtr.
  destruct (Vec.get (row_ptr_ s) r) as [j_start|] eqn:Hlo; [|done].
  apply Vec_get_lt in Hlo. cbn [mbind option_bind].
  by rewrite (Vec_get_None (row_ptr_ s) (r + 1)) by lia.
Qed.

(** A stored bin whose two entries the histogram does not have. *)
Lemma accumulate_row_None_bin use_hessians s gradients hs r b out :
  finalized s → 0 ≤ r < num_data_ s →
  b ∈ row_slice s r →
  ¬ (0 ≤ b ∧ 2 * b + 1 < Vec.size out) →
  accumulate_row use_hessians s gradients hs r out = None.
Proof.
  intros Hfin Hr Hb Hout. unfold accumulate_row.
  rewrite !(finalized_RowPtr s Hfin) by lia. cbn [mbind option_bind].
  destruct (finalized_row_bounds s Hfin r Hr) as [[Ha Hab] Hhi].
  apply list_elem_of_lookup in Hb as [p Hp]. unfold row_slice in Hp.
  apply lookup_take_Some in Hp as [Hp Hlt]. rewrite lookup_drop in Hp.
  apply (for_range_None (λ o, Vec.size o = Vec.size out))
    with (k := RowIndex s r + Z.of_nat p); [done| |lia|].
  - intros j t t' _ Ht Hbody.
    destruct (Vec.get (data_ s) j) as [bin|]; [|done].
    destruct (Vec.get gradients r) as [g|]; [|done].
    cbn [mbind option_bind] in Hbody. destruct use_hessians.
    + destruct (Vec.get hs r) as [h|]; [|done].
      cbn [mbind option_bind] in Hbody. apply ACC_GH_size in Hbody. congruence.
    + apply ACC_GH_size in Hbody. congruence.
  - intros t Ht.
    assert (Vec.get (data_ s) (RowIndex s r + Z.of_nat p) = Some b) as ->.
    { apply Vec_get_Some. split; [lia|]. rewrite <- Hp. f_equal. lia. }
    cbn [mbind option_bind].
    destruct (Vec.get gradients r) as [g|]; [|done].
    cbn [mbind option_bind]. destruct use_hessians.
    + destruct (Vec.get hs r) as [h|]; [|done]. cbn [mbind option_bind].
      apply ACC_GH_None. by rewrite Ht.
    + apply ACC_GH_None. by rewrite Ht.
Qed.

(** A call has no result when the row read at one of its positions makes
    the loop over that row fail for every histogram of the given size. *)
Lemma ConstructHistogramInner_None use_prefetch use_hessians s sel
    start end_ gradients hs out i :
  start ≤ i < end_ →
  (∀ r o, row_at sel i = Some r → Vec.size o = Vec.size out →
     accumulate_row use_hessians s gradients hs r o = None) →
  ConstructHistogramInner (is_indexed sel) use_prefetch use_hessians s
    (indices_of sel) start end_ gradients hs out = None.
Proof.
  intros Hi Hfail. unfold ConstructHistogramInner. cbn zeta.
  set (pf_end := end_ - 32 `div` sizeof VAL_T).
  assert (∀ j t t',
            (idx ← (if is_indexed sel then Vec.get (indices_of sel) j
                    else Some j);
             accumulate_row use_hessians s gradients hs idx t) = Some t' →
            Vec.size t' = Vec.size t) as Hkeep.
  { intros j t t' Hbody.
    destruct (if is_indexed sel then _ else _) as [idx|]; [|done].
    by apply accumulate_row_size in Hbody. }
  assert (∀ t, Vec.size t = Vec.size out →
            (idx ← (if is_indexed sel then Vec.get (indices_of sel) i
                    else Some i);
             accumulate_row use_hessians s gradients hs idx t) = None)
    as Hbad.
  { intros t Ht.
    replace (if is_indexed sel then Vec.get (indices_of sel) i else Some i)
      with (row_at sel i) by (by destruct sel).
    destruct (row_at sel i) as [r|] eqn:Hr; [|done]. by apply Hfail. }
  assert (∀ lo o, lo ≤ i → Vec.size o = Vec.size out →
            for_range lo end_ (λ i0 out1,
              idx ← (if is_indexed sel then Vec.get (indices_of sel) i0
                     else Some i0);
              accumulate_row use_hessians s gradients hs idx out1) o = None)
    as Hrest.
  { intros lo o Hlo Ho.
    apply (for_range_None (λ t, Vec.size t = Vec.size out)) with (k := i);
      [done| |lia|done].
    intros j t t' _ Ht Hbody. apply Hkeep in Hbody. congruence. }
  destruct use_prefetch; [|apply Hrest; [lia|done]].
  destruct (decide (i < pf_end)) as [Hlt|Hge].
  - match goal with
    | |- context [for_range start pf_end ?body out] =>
        assert (for_range start pf_end body out = None) as ->; [|done]
    end.
    apply (for_range_None (λ t, Vec.size t = Vec.size out)) with (k := i);
      [done| |lia|].
    + intros j t t' _ Ht Hbody.
      destruct (if is_indexed sel then Vec.get (indices_of sel) j else _)
        as [idx|]; [|done].
      cbn [mbind option_bind] in Hbody.
      destruct (if is_indexed sel then Vec.get (indices_of sel) (j + _)
                else _) as [pf_idx|]; [|done].
      cbn [mbind option_bind] in Hbody.
      destruct (RowPtr s pf_idx); [|done].
      cbn [mbind option_bind] in Hbody.
      apply accumulate_row_size in Hbody. congruence.
    + intros t Ht. specialize (Hbad t Ht).
      destruct (if is_indexed sel then Vec.get (indices_of sel) i else _)
        as [idx|]; [|done].
      cbn [mbind option_bind] in *.
      destruct (if is_indexed sel then Vec.get (indices_of sel) (i + _)
                else _) as [pf_idx|]; [|done].
      cbn [mbind option_bind].
      by destruct (RowPtr s pf_idx).
  - destruct (for_range start pf_end _ out) as [out1|] eqn:Hpf; [|done].
    cbn [mbind option_bind]. apply Hrest; [lia|].
    revert Hpf.
    apply (for_range_Some_inv (λ t, Vec.size t = Vec.size out)); [done|].
    intros j t t' _ Ht Hbody.
    destruct (if is_indexed sel then Vec.get (indices_of sel) j else _)
      as [idx|]; [|done].
    cbn [mbind option_bind] in Hbody.
    destruct (if is_indexed sel then Vec.get (indices_of sel) (j + _)
              else _) as [pf_idx|]; [|done].
    cbn [mbind option_bind] in Hbody.
    destruct (RowPtr s pf_idx); [|done].
    cbn [mbind option_bind] in Hbody.
    apply accumulate_row_size in Hbody. congruence.
Qed.

Lemma Accumulate_None s sel start end_ gradients hessians out i :
  start ≤ i < end_ →
  (∀ r o, row_at sel i = Some r → Vec.size o = Vec.size out →
     accumulate_row (use_hessians_of hessians) s gradients
       (default [] hessians) r o = None) →
  Accumulate s sel start end_ gradients hessians out = None.
Proof.
  intros Hi Hfail.
  destruct sel as [|data_indices], hessians as [hs|];
    unfold Accumulate, ConstructHistogram_indexed_hessians,
      ConstructHistogram_range_hessians, ConstructHistogram_indexed,
      ConstructHistogram_range.
  - by apply (ConstructHistogramInner_None false true s Identity) with (i := i).
  - by apply (ConstructHistogramInner_None false false s Identity)
      with (i := i).
  - by apply (ConstructHistogramInner_None true true s (Indexed data_indices))
      with (i := i).
  - by apply (ConstructHistogramInner_None true false s (Indexed data_indices))
      with (i := i).
Qed.

End HistogramBounds.

Section HistogramOrder.

Context {score_t hist_t : Type}.
Variable to_hist : score_t → hist_t.
Variable hadd : hist_t → hist_t → hist_t.
Variable one_f : score_t.
Hypothesis hadd_swap : ∀ y a b, hadd (hadd y a) b = hadd (hadd y b) a.

(** Where the order of two additions to an entry does not matter, the
    order of all of them does not. *)
Lemma sum_onto_Permutation (x : hist_t) (cs cs' : list score_t) :
  cs ≡ₚ cs' → sum_onto to_hist hadd x cs = sum_onto to_hist hadd x cs'.
Proof.
  intros Hp. revert x. unfold sum_onto.
  induction Hp as [|c cs cs' _ IH|c c' cs|cs cs' cs'' _ IH1 _ IH2];
    intros x; cbn [foldl].
  - done.
  - apply IH.
  - by rewrite hadd_swap.
  - by rewrite IH1.
Qed.

Lemma Accumulate_spec_Permutation (s : MultiValSparseBin) (rows rows' : list Z)
    (gradients : list score_t) (hessians : option (list score_t))
    (out : list hist_t) :
  rows ≡ₚ rows' →
  Accumulate_spec to_hist hadd one_f s rows gradients hessians out
  = Accumulate_spec to_hist hadd one_f s rows' gradients hessians out.
Proof.
  intros Hp. apply Vec_ext.
  - by rewrite !Accumulate_spec_size.
  - intros k _. rewrite !get_Accumulate_spec.
    destruct (Vec.get out k) as [y|]; [|done]. cbn [fmap option_fmap option_map].
    f_equal. apply sum_onto_Permutation. unfold contributions.
    by rewrite Hp.
Qed.

End HistogramOrder.

Lemma hessian_of_replicate {score_t : Type} (one_f : score_t) (n : nat) (r : Z) :
  hessian_of one_f (Some (replicate n one_f)) r = hessian_of one_f None r.
Proof.
  unfold hessian_of. destruct (Vec.get _ r) as [h|] eqn:Hh; [|done].
  apply Vec_get_Some in Hh as [_ Hh]. by apply lookup_replicate in Hh as [-> _].
Qed.

Lemma Accumulate_spec_replicate {score_t hist_t : Type}
    (to_hist : score_t → hist_t) (hadd : hist_t → hist_t → hist_t)
    (one_f : score_t) (s : MultiValSparseBin) (rows : list Z)
    (gradients : list score_t) (n : nat) (out : list hist_t) :
  Accumulate_spec to_hist hadd one_f s rows gradients
    (Some (replicate n one_f)) out
  = Accumulate_spec to_hist hadd one_f s rows gradients None out.
Proof.
  unfold Accumulate_spec. revert out.
  induction rows as [|r rows IH]; intros out; [done|].
  cbn [foldl]. rewrite IH. f_equal. unfold add_row.
  by rewrite hessian_of_replicate.
Qed.

(** X1. A call over an empty range of positions ([end <= start]) returns
    the histogram as it was, for every structure and all arguments: none of
    the four overloads reads anything. *)
Theorem Accumulate_empty_range
    {score_t hist_t : Type} (to_hist : score_t → hist_t)
    (hadd : hist_t → hist_t → hist_t) (one_f : score_t) (VAL_T : VAL_T_kind)
    (s : MultiValSparseBin) (sel : row_selector) (start end_ : Z)
    (gradients : list score_t) (hessians : option (list score_t))
    (out : list hist_t) :
  end_ ≤ start →
  Accumulate to_hist hadd one_f VAL_T s sel start end_ gradients hessians out
  = Some out.
Proof.
  intros Hle. pose proof (pf_offset_pos VAL_T).
  destruct sel as [|data_indices], hessians as [hs|];
    unfold Accumulate, ConstructHistogram_indexed_hessians,
      ConstructHistogram_range_hessians, ConstructHistogram_indexed,
      ConstructHistogram_range, ConstructHistogramInner;
    cbn zeta; rewrite ?for_range_empty by lia; cbn [mbind option_bind];
    by rewrite ?for_range_empty by lia.
Qed.

Lemma Accumulate_empty_range_witness :
  2 ≤ 2
  ∧ Accumulate id Z.add 1 uint16_t example_finalized (Indexed []) 2 2
      [] None [4; 5]
    = Some [4; 5].
Proof.
  split; [lia|].
  apply (Accumulate_empty_range id Z.add 1 uint16_t example_finalized
           (Indexed []) 2 2 [] None [4; 5]).
  lia.
Defined.

(** X2. The accumulator does not check row ids: when some position of the
    range has no row id ([data_indices] is too short) or a row id outside
    [[0, num_data_)], the call reads outside [row_ptr_] and has no defined
    result. *)
Theorem Accumulate_undefined_outside_rows
    {score_t hist_t : Type} (to_hist : score_t → hist_t)
    (hadd : hist_t → hist_t → hist_t) (one_f : score_t) (VAL_T : VAL_T_kind)
    (s : MultiValSparseBin) (sel : row_selector) (start end_ i : Z)
    (gradients : list score_t) (hessians : option (list score_t))
    (out : list hist_t) :
  Vec.size (row_ptr_ s) = num_data_ s + 1 →
  start ≤ i < end_ →
  match row_at sel i with
  | Some r => ¬ (0 ≤ r < num_data_ s)
  | None => True
  end →
  Accumulate to_hist hadd one_f VAL_T s sel start end_ gradients hessians out
  = None.
Proof.
  intros Hsize Hi Hrow. apply Accumulate_None with (i := i); [done|].
  intros r o Hr _. rewrite Hr in Hrow.
  by apply accumulate_row_None_row.
Qed.

Lemma Accumulate_undefined_outside_rows_witness :
  Vec.size (row_ptr_ example_finalized) = num_data_ example_finalized + 1
  ∧ 0 ≤ 3 < 4
  ∧ match row_at Identity 3 with
    | Some r => ¬ (0 ≤ r < num_data_ example_finalized)
    | None => True
    end
  ∧ Accumulate id Z.add 1 uint8_t example_finalized Identity 0 4
      [10; 20; 30; 40] None (replicate 16 0)
    = None.
Proof.
  assert (match row_at Identity 3 with
          | Some r => ¬ (0 ≤ r < num_data_ example_finalized)
          | None => True
          end) as Hrow by (simpl; lia).
  split; [reflexivity|]. split; [lia|]. split; [exact Hrow|].
  exact (Accumulate_undefined_outside_rows id Z.add 1 uint8_t
           example_finalized Identity 0 4 3 [10; 20; 30; 40] None
           (replicate 16 0) eq_refl ltac:(lia) Hrow).
Defined.

(** X3. The accumulator does not check bins against the histogram: when a
    row of the range stores a bin [b] whose entry [2b + 1] lies beyond the
    histogram, the call has no defined result. *)
Theorem Accumulate_undefined_on_short_histogram
    {score_t hist_t : Type} (to_hist : score_t → hist_t)
    (hadd : hist_t → hist_t → hist_t) (one_f : score_t) (VAL_T : VAL_T_kind)
    (s : MultiValSparseBin) (sel : row_selector) (start end_ i r b : Z)
    (gradients : list score_t) (hessians : option (list score_t))
    (out : list hist_t) :
  finalized s →
  start ≤ i < end_ →
  row_at sel i = Some r →
  b ∈ row_slice s r →
  Vec.size out ≤ 2 * b + 1 →
  Accumulate to_hist hadd one_f VAL_T s sel start end_ gradients hessians out
  = None.
Proof.
  intros Hfin Hi Hrow Hb Hout. apply Accumulate_None with (i := i); [done|].
  intros r' o Hr' Ho. assert (r' = r) as -> by congruence.
  destruct (decide (0 ≤ r < num_data_ s)) as [Hr|Hr].
  - apply accumulate_row_None_bin with (b := b); [done..|]. lia.
  - apply accumulate_row_None_row; [|done]. by destruct Hfin.
Qed.

Lemma Accumulate_undefined_on_short_histogram_witness :
  finalized example_finalized
  ∧ 0 ≤ 0 < 3
  ∧ row_at (Indexed [0; 1; 2]) 0 = Some 0
  ∧ 7 ∈ row_slice example_finalized 0
  ∧ Vec.size (replicate 14 0) ≤ 2 * 7 + 1
  ∧ Accumulate id Z.add 1 uint8_t example_finalized (Indexed [0; 1; 2]) 0 3
      [10; 20; 30] None (replicate 14 0)
    = None.
Proof.
  assert (finalized example_finalized) as Hfin
    by (apply (bool_decide_unpack _); vm_compute; exact I).
  assert (7 ∈ row_slice example_finalized 0) as Hin
    by (apply (bool_decide_unpack _); vm_compute; exact I).
  split; [exact Hfin|]. split; [lia|]. split; [reflexivity|].
  split; [exact Hin|]. split; [vm_compute; discriminate|].
  exact (Accumulate_undefined_on_short_histogram id Z.add 1 uint8_t
           example_finalized (Indexed [0; 1; 2]) 0 3 0 0 7 [10; 20; 30] None
           (replicate 14 0) Hfin ltac:(lia) eq_refl Hin
           ltac:(vm_compute; discriminate)).
Defined.

(** X4. The overloads without hessians compute what the overloads with
    hessians compute on an array of ones: the literal [1.0f] takes the
    place of [hessians[idx]]. *)
Theorem Accumulate_without_hessians_is_unit_hessians
    {score_t hist_t : Type} (to_hist : score_t → hist_t)
    (hadd : hist_t → hist_t → hist_t) (one_f : score_t) (VAL_T : VAL_T_kind)
    (s : MultiValSparseBin) (sel : row_selector) (start end_ : Z)
    (gradients : list score_t) (n : nat) (out : list hist_t) :
  accumulate_ok s sel start end_ gradients None out →
  num_data_ s ≤ Z.of_nat n →
  Accumulate to_hist hadd one_f VAL_T s sel start end_ gradients
    (Some (replicate n one_f)) out
  = Accumulate to_hist hadd one_f VAL_T s sel start end_ gradients None out.
Proof.
  intros Hok Hn.
  rewrite (Accumulate_spec_correct to_hist hadd one_f VAL_T s sel start end_
             gradients None out Hok).
  rewrite Accumulate_spec_correct.
  - by rewrite Accumulate_spec_replicate.
  - destruct Hok as (Hfin & Hbins & Hsel & Hgrad & _ & Hout).
    unfold accumulate_ok. repeat (split; [done|]). split; [|done].
    unfold Vec.size. rewrite length_replicate. lia.
Qed.

Lemma Accumulate_without_hessians_is_unit_hessians_witness :
  accumulate_ok example_finalized Identity 0 3 [10; 20; 30] None
    (replicate 16 0)
  ∧ num_data_ example_finalized ≤ Z.of_nat 3
  ∧ Accumulate id Z.add 1 uint8_t example_finalized Identity 0 3
      [10; 20; 30] (Some (replicate 3 1)) (replicate 16 0)
    = Accumulate id Z.add 1 uint8_t example_finalized Identity 0 3
        [10; 20; 30] None (replicate 16 0).
Proof.
  assert (accumulate_ok example_finalized Identity 0 3 [10; 20; 30] None
            (replicate 16 0)) as Hok
    by (apply (bool_decide_unpack _); vm_compute; exact I).
  split; [exact Hok|]. split; [simpl; lia|].
  exact (Accumulate_without_hessians_is_unit_hessians id Z.add 1 uint8_t
           example_finalized Identity 0 3 [10; 20; 30] 3 (replicate 16 0)
           Hok ltac:(simpl; lia)).
Defined.

(** X5. In arithmetic where the order of two additions to an entry does
    not matter, the histogram does not depend on the order of the rows: two
    calls whose active rows are permutations of each other (two orders of
    [data_indices], or an index list against a range) return the same
    histogram. *)
Theorem Accumulate_order_independent
    {score_t hist_t : Type} (to_hist : score_t → hist_t)
    (hadd : hist_t → hist_t → hist_t) (one_f : score_t) (VAL_T : VAL_T_kind)
    (s : MultiValSparseBin) (sel1 sel2 : row_selector)
    (start1 end1 start2 end2 : Z)
    (gradients : list score_t) (hessians : option (list score_t))
    (out : list hist_t) :
  (∀ y a b, hadd (hadd y a) b = hadd (hadd y b) a) →
  active_rows sel1 start1 end1 ≡ₚ active_rows sel2 start2 end2 →
  accumulate_ok s sel1 start1 end1 gradients hessians out →
  accumulate_ok s sel2 start2 end2 gradients hessians out →
  ∃ h,
    Accumulate to_hist hadd one_f VAL_T s sel1 start1 end1 gradients hessians
      out = Some h
    ∧ Accumulate to_hist hadd one_f VAL_T s sel2 start2 end2 gradients hessians
        out = Some h.
Proof.
  intros Hswap Hperm Hok1 Hok2. eexists. split.
  - by apply Accumulate_spec_correct.
  - rewrite Accumulate_spec_correct by done. f_equal.
    symmetry. by apply Accumulate_spec_Permutation.
Qed.

Lemma Accumulate_order_independent_witness :
  (∀ y a b : Z, y + a + b = y + b + a)
  ∧ active_rows (Indexed [2; 0; 1]) 0 3 ≡ₚ active_rows Identity 0 3
  ∧ accumulate_ok example_finalized (Indexed [2; 0; 1]) 0 3 [10; 20; 30]
      (Some [1; 2; 3]) (replicate 16 0)
  ∧ accumulate_ok example_finalized Identity 0 3 [10; 20; 30]
      (Some [1; 2; 3]) (replicate 16 0)
  ∧ ∃ h,
      Accumulate id Z.add 1 uint8_t example_finalized (Indexed [2; 0; 1]) 0 3
        [10; 20; 30] (Some [1; 2; 3]) (replicate 16 0) = Some h
      ∧ Accumulate id Z.add 1 uint8_t example_finalized Identity 0 3
          [10; 20; 30] (Some [1; 2; 3]) (replicate 16 0) = Some h.
Proof.
  assert (active_rows (Indexed [2; 0; 1]) 0 3 ≡ₚ active_rows Identity 0 3)
    as Hperm.
  { change ([2; 0; 1] ≡ₚ [0; 1; 2]).
    apply (perm_trans (l' := [0; 2; 1])); [apply perm_swap|].
    apply perm_skip, perm_swap. }
  assert (accumulate_ok example_finalized (Indexed [2; 0; 1]) 0 3 [10; 20; 30]
            (Some [1; 2; 3]) (replicate 16 0)) as Hok1
    by (apply (bool_decide_unpack _); vm_compute; exact I).
  assert (accumulate_ok example_finalized Identity 0 3 [10; 20; 30]
            (Some [1; 2; 3]) (replicate 16 0)) as Hok2
    by (apply (bool_decide_unpack _); vm_compute; exact I).
  split; [intros; lia|]. split; [exact Hperm|].
  split; [exact Hok1|]. split; [exact Hok2|].
  exact (Accumulate_order_independent id Z.add 1 uint8_t example_finalized
           (Indexed [2; 0; 1]) Identity 0 3 0 3 [10; 20; 30] (Some [1; 2; 3])
           (replicate 16 0) ltac:(intros; lia) Hperm Hok1 Hok2).
Defined.

(** ** Structures given by their rows *)

Lemma Sorted_le_lookup_succ (l : list Z) :
  (∀ i a b, l !! i = Some a → l !! S i = Some b → a ≤ b) → Sorted Z.le l.
Proof.
  induction l as [|x l IH]; intros Hl; [constructor|].
  constructor.
  - apply IH. intros i a b Ha Hb. by apply (Hl (S i)).
  - destruct l as [|y l]; constructor. by apply (Hl 0%nat).
Qed.

Lemma size_concat_take_S {A} (rows : list (list A)) (j : nat) :
  Vec.size (concat (take j rows)) ≤ Vec.size (concat (take (S j) rows)).
Proof.
  destruct (rows !! j) as [r|] eqn:Hr.
  - rewrite (take_S_concat _ _ _ Hr), Vec_size_app.
    pose proof (Vec_size_nonneg r). lia.
  - apply lookup_ge_None in Hr. by rewrite !take_ge by lia.
Qed.

(** Offsets and a store built from a list of rows make a finalized
    structure, and its rows are that list. *)
Lemma layout_finalized s rows :
  row_ptr_ s = offsets_of rows → data_ s = concat rows → t_data_ s = [] →
  num_data_ s = Vec.size rows →
  finalized s.
Proof.
  intros Hrp Hd Ht Hn. unfold finalized. rewrite Hrp, Hd, Hn.
  split; [apply length_offsets_of|]. split; [done|].
  split; [|split; [|done]].
  - apply Sorted_le_lookup_succ. intros i a b Ha Hb. unfold offsets_of in *.
    rewrite list_lookup_fmap in Ha, Hb.
    destruct (seq 0 (S (length rows)) !! i) as [j|] eqn:Hj; [|done].
    destruct (seq 0 (S (length rows)) !! S i) as [j'|] eqn:Hj'; [|done].
    apply lookup_seq in Hj as [-> _]. apply lookup_seq in Hj' as [-> _].
    simpl in Ha, Hb. simplify_eq. apply size_concat_take_S.
  - rewrite last_lookup. unfold offsets_of.
    rewrite length_fmap, length_seq. cbn [pred].
    rewrite list_lookup_fmap, lookup_seq_lt by lia. simpl.
    by rewrite take_ge by lia.
Qed.

Lemma rows_of_layout s rows rest :
  row_ptr_ s = offsets_of rows → data_ s = concat rows ++ rest →
  num_data_ s = Vec.size rows →
  rows_of s = rows.
Proof.
  intros Hrp Hd Hn. apply list_eq. intros i. unfold rows_of.
  rewrite list_lookup_fmap.
  destruct (decide (i < length rows)%nat) as [Hi|Hi].
  - rewrite lookup_seqZ_lt by (unfold Vec.size in Hn; lia). simpl.
    destruct (row_slice_offsets_of s rows rest (Z.of_nat i) Hrp Hd)
      as [Hrow _]; [unfold Vec.size; lia|].
    rewrite Nat2Z.id in Hrow. rewrite Hrow. by rewrite Z.add_0_l.
  - rewrite lookup_seqZ_ge by (unfold Vec.size in Hn; lia).
    symmetry. apply lookup_ge_None. lia.
Qed.

Lemma size_concat {A} (l : list (list A)) :
  Vec.size (concat l) = sumZ (Vec.size <$> l).
Proof.
  induction l as [|x l IH]; [done|].
  rewrite fmap_cons. cbn [concat]. rewrite Vec_size_app, IH. done.
Qed.

(** ** What a load stores *)

Section LoadedStore.

Variable VAL_T : VAL_T_kind.

Local Abbreviation pushed := (pushed_values VAL_T).

Lemma size_pushed (p : push) :
  0 ≤ p_size p ≤ Vec.size (p_values p) → Vec.size (pushed p) = p_size p.
Proof.
  intros Hsize. unfold pushed_values, Vec.size in *.
  rewrite length_fmap, length_take. lia.
Qed.

(** One call appends its values to the buffer of its worker and to no
    other buffer. *)
Lemma PushOneRow_buffers (p : push) (s : MultiValSparseBin) :
  0 ≤ p_idx p + 1 < Vec.size (row_ptr_ s) →
  0 ≤ p_tid p ≤ Vec.size (t_data_ s) →
  0 ≤ p_size p ≤ Vec.size (p_values p) →
  ∃ s',
    PushOneRow VAL_T (p_tid p) (p_idx p) (p_values p) (p_size p) s = Some s'
    ∧ Vec.size (row_ptr_ s') = Vec.size (row_ptr_ s)
    ∧ Vec.size (t_data_ s') = Vec.size (t_data_ s)
    ∧ ∀ t buf, buffers s !! t = Some buf →
        buffers s' !! t
        = Some (if decide (Z.of_nat t = p_tid p) then buf ++ pushed p
                else buf).
Proof.
  intros Hrp Htid Hsize. unfold PushOneRow.
  rewrite Vec_set_Some by lia. cbn [mbind option_bind].
  case_decide as Ht.
  - cbn [data_ set_row_ptr]. rewrite push_values_loop by done.
    eexists. split; [done|].
    cbn [row_ptr_ t_data_ data_ set_data set_row_ptr].
    rewrite Vec_size_insert. split; [done|]. split; [done|].
    intros [|t] buf Hbuf; unfold buffers in *;
      cbn [row_ptr_ t_data_ data_ set_data set_row_ptr] in *.
    + simpl in *. simplify_eq. by rewrite decide_True by lia.
    + simpl in *. by rewrite decide_False by lia.
  - cbn [t_data_ set_row_ptr].
    destruct (Vec_get_is_Some (t_data_ s) (p_tid p - 1)) as [buf0 Hbuf0];
      [lia|].
    rewrite (push_values_thread_loop _ _ buf0) by done.
    eexists. split; [done|].
    cbn [row_ptr_ t_data_ data_ set_t_data set_row_ptr].
    rewrite !Vec_size_insert. split; [done|]. split; [done|].
    apply Vec_get_Some in Hbuf0 as [_ Hbuf0].
    intros [|t] buf Hbuf; unfold buffers in *;
      cbn [row_ptr_ t_data_ data_ set_t_data set_row_ptr] in *.
    + simpl in *. by rewrite decide_False by lia.
    + simpl in *. destruct (decide (Z.of_nat (S t) = p_tid p)) as [Heq|Hne].
      * replace (Z.to_nat (p_tid p - 1)) with t in * by lia.
        rewrite list_lookup_insert_eq by (by eapply lookup_lt_Some).
        by simplify_eq.
      * rewrite list_lookup_insert_ne by lia. done.
Qed.

Lemma pushes_of_cons tid (p : push) ps :
  pushes_of tid (p :: ps)
  = if decide (p_tid p = tid) then p :: pushes_of tid ps else pushes_of tid ps.
Proof. unfold pushes_of. by rewrite filter_cons. Qed.

(** After the calls [ps] every buffer holds, behind what it held, the
    values of the calls of its worker in their order. *)
Lemma ingest_buffers (ps : list push) (s : MultiValSparseBin) :
  Forall (λ p, 0 ≤ p_idx p + 1 < Vec.size (row_ptr_ s)
               ∧ 0 ≤ p_tid p ≤ Vec.size (t_data_ s)
               ∧ 0 ≤ p_size p ≤ Vec.size (p_values p)) ps →
  ∃ s',
    ingest VAL_T ps s = Some s'
    ∧ ∀ t buf, buffers s !! t = Some buf →
        buffers s' !! t
        = Some (buf ++ concat (pushed <$> pushes_of (Z.of_nat t) ps)).
Proof.
  revert s. induction ps as [|p ps IH]; intros s Hall.
  - exists s. split; [done|]. intros t buf Hbuf. simpl.
    by rewrite app_nil_r.
  - apply Forall_cons in Hall as [(Hrp & Htid & Hsize) Hall].
    destruct (PushOneRow_buffers p s) as (s1 & Hs1 & Hrp1 & Ht1 & Hb1);
      [done..|].
    destruct (IH s1) as (s' & Hs' & Hb').
    { by rewrite Hrp1, Ht1. }
    exists s'. cbn [ingest]. rewrite Hs1. cbn [mbind option_bind].
    split; [done|]. intros t buf Hbuf.
    rewrite (Hb' t _ (Hb1 t buf Hbuf)). rewrite pushes_of_cons.
    destruct (decide (Z.of_nat t = p_tid p)) as [Heq|Hne].
    + rewrite decide_True by done. rewrite fmap_cons. cbn [concat].
      by rewrite app_assoc.
    + by rewrite decide_False by done.
Qed.

End LoadedStore.

(** [MoveData<false>] appends the thread buffers, in worker order, to the
    primary buffer. *)
Lemma MoveData_false_data (s : MultiValSparseBin) :
  0 ≤ num_data_ s →
  Vec.size (row_ptr_ s) = num_data_ s + 1 →
  Vec.get (row_ptr_ s) 0 = Some 0 →
  buffers_size s = prefix_sum (row_ptr_ s) (num_data_ s) →
  MoveData false [] s
  = Some (set_data
            (set_row_ptr s (prefix_sum (row_ptr_ s) <$> seqZ 0 (num_data_ s + 1)))
            (concat (buffers s))).
Proof.
  intros Hn Hsize H0 Hbuf. unfold MoveData.
  rewrite prefix_sum_loop by done. cbn [mbind option_bind].
  cbn [num_data_ row_ptr_ t_data_ data_ set_row_ptr].
  unfold buffers. cbn [concat].
  case_decide as Ht.
  2:{ destruct (t_data_ s) eqn:Hts;
        [|unfold Vec.size in Ht; simpl in Ht; lia].
      cbn [concat]. rewrite app_nil_r. unfold set_data, set_row_ptr.
      cbn [num_data_ num_bin_ estimate_element_per_row_ data_ row_ptr_ t_data_].
      by rewrite Hts. }
  set (t := t_data_ s) in *. set (tsizes := Vec.size <$> t).
  assert (∀ tid, 0 ≤ tid < Vec.size t →
            ∃ src, Vec.get t tid = Some src
                   ∧ tsizes !! Z.to_nat tid = Some (Vec.size src)) as Hsrc.
  { intros tid Htid. destruct (Vec_get_is_Some t tid) as [src Hsrc]; [done|].
    exists src. split; [done|]. unfold tsizes. rewrite list_lookup_fmap.
    apply Vec_get_Some in Hsrc as [_ ->]. done. }
  loop_inv (λ j (o : list Z),
              Vec.size o = j + 1
              ∧ ∀ k, 0 ≤ k ≤ j →
                  Vec.get o k
                  = Some (Vec.size (data_ s) + sumZ (take (Z.to_nat k) tsizes)))
    offsets Hoff.
  - lia.
  - split; [done|]. intros k Hk. replace k with 0 by lia.
    rewrite (Vec_get_nat _ 0%nat). unfold sumZ. simpl. f_equal. lia.
  - intros j o Hj [Hso Ho]. rewrite last_lookup.
    pose proof (Ho j ltac:(lia)) as Hoj.
    apply Vec_get_Some in Hoj as [_ Hoj]. unfold Vec.size in Hso.
    replace (pred (length o)) with (Z.to_nat j) by lia.
    rewrite Hoj. cbn [mbind option_bind].
    destruct (Hsrc j) as (src & -> & Hts); [lia|]. cbn [mbind option_bind].
    eexists. split; [done|].
    split; [rewrite Vec_size_app; unfold Vec.size; simpl; lia|].
    intros k Hk. unfold Vec.get. case_decide; [|lia].
    destruct (decide (k = j + 1)) as [->|].
    + rewrite lookup_app_r by lia.
      replace (Z.to_nat (j + 1) - length o)%nat with 0%nat by lia. simpl.
      replace (Z.to_nat (j + 1)) with (S (Z.to_nat j)) by lia.
      rewrite (sumZ_take_S _ _ _ Hts). f_equal. lia.
    + rewrite lookup_app_l by lia.
      specialize (Ho k ltac:(lia)). by apply Vec_get_Some in Ho as [_ ?].
  - destruct Hoff as [Hosize Hoff].
    rewrite get_prefix_sums by lia. cbn [mbind option_bind].
    pose proof (sumZ_nonneg tsizes (Forall_size_nonneg t)) as Hts.
    assert (buffers_size s = Vec.size (data_ s) + sumZ tsizes) as Hb by done.
    pose proof (Vec_size_nonneg (data_ s)) as Hd0.
    unfold Vec.resize. case_decide; [|lia]. cbn [mbind option_bind].
    rewrite <- Hbuf.
    set (N := Z.to_nat (buffers_size s)).
    set (pre := λ j : Z, data_ s ++ concat (take (Z.to_nat j) t)).
    assert (∀ j, Vec.size (pre j)
                 = Vec.size (data_ s) + sumZ (take (Z.to_nat j) tsizes))
      as Hpre.
    { intros j. unfold pre. rewrite Vec_size_app, size_concat.
      unfold tsizes. by rewrite fmap_take. }
    loop_inv (λ (j : Z) (d : list Z),
                d = pre j ++ replicate (N - length (pre j)) 0) d Hd.
    + lia.
    + unfold pre. cbn [take concat]. rewrite app_nil_r.
      apply resize_ge. unfold Vec.size in *. lia.
    + intros j d Hj ->.
      destruct (Hsrc j) as (src & Hget & Hsz); [lia|]. rewrite Hget.
      cbn [mbind option_bind].
      rewrite Hoff by lia. cbn [mbind option_bind]. unfold Vec.copy_n.
      pose proof (sumZ_take_le tsizes (S (Z.to_nat j)) (Forall_size_nonneg t))
        as Hle.
      rewrite (sumZ_take_S _ _ _ Hsz) in Hle.
      pose proof (sumZ_nonneg (take (Z.to_nat j) tsizes)
                    ltac:(apply Forall_take, Forall_size_nonneg)) as Hpos.
      pose proof (Vec_size_nonneg src) as Hsrc0.
      pose proof (Hpre j) as Hpj. rewrite <- Hpj.
      assert (Vec.size (pre j ++ replicate (N - length (pre j)) 0)
              = buffers_size s) as Hdsize.
      { rewrite Vec_size_app. unfold Vec.size at 2.
        rewrite length_replicate. unfold Vec.size in *. lia. }
      case_decide as Hcopy; [|lia]. eexists. split; [done|].
      replace (pre (j + 1)) with (pre j ++ src).
      2:{ unfold pre. replace (Z.to_nat (j + 1)) with (S (Z.to_nat j)) by lia.
          apply Vec_get_Some in Hget as [_ Hget].
          by rewrite (take_S_concat _ _ _ Hget), app_assoc. }
      unfold Vec.size in *.
      rewrite take_app_length' by lia.
      rewrite Nat2Z.id, firstn_all, <- app_assoc. do 2 f_equal.
      rewrite drop_app_ge by lia. rewrite drop_replicate, length_app.
      f_equal. lia.
    + subst d. do 2 f_equal.
      pose proof (Hpre (Vec.size t)) as Hp.
      assert (pre (Vec.size t) = data_ s ++ concat t) as Hfull.
      { unfold pre, Vec.size. by rewrite Nat2Z.id, firstn_all. }
      rewrite Hfull in *.
      assert (Z.to_nat (Vec.size t) = length t) as Hl
        by (unfold Vec.size; lia).
      rewrite Hl in Hp.
      rewrite take_ge in Hp by (unfold tsizes; rewrite length_fmap; lia).
      replace (N - length (data_ s ++ concat t))%nat with 0%nat;
        [by rewrite app_nil_r|].
      unfold Vec.size in Hp, Hb. lia.
Qed.

Lemma filter_split_Permutation {A} (P Q R : A → Prop)
    `{!∀ x, Decision (P x)} `{!∀ x, Decision (Q x)} `{!∀ x, Decision (R x)}
    (l : list A) :
  (∀ x, R x ↔ P x ∨ Q x) → (∀ x, P x → Q x → False) →
  filter P l ++ filter Q l ≡ₚ filter R l.
Proof.
  intros HR Hdisj. induction l as [|x l IH]; [done|].
  rewrite !filter_cons. pose proof (HR x). pose proof (Hdisj x).
  destruct (decide (P x)) as [HP|HP], (decide (Q x)) as [HQ|HQ],
    (decide (R x)) as [Hx|Hx];
    try tauto.
  - simpl. by constructor.
  - rewrite <- Permutation_middle. by constructor.
Qed.

Lemma filter_all {A} (P : A → Prop) `{!∀ x, Decision (P x)} (l : list A) :
  Forall P l → filter P l = l.
Proof.
  induction 1 as [|x l Hx _ IH]; [done|].
  by rewrite filter_cons, decide_True, IH by done.
Qed.

Lemma filter_none {A} (P : A → Prop) `{!∀ x, Decision (P x)} (l : list A) :
  (∀ x, ¬ P x) → filter P l = [].
Proof.
  intros HP. induction l as [|x l IH]; [done|].
  by rewrite filter_cons, decide_False, IH by done.
Qed.

(** The calls of the workers [a, a + m), worker by worker, are the calls
    of these workers. *)
Lemma pushes_of_range (ps : list push) (a : Z) (m : nat) :
  (tid ← seqZ a (Z.of_nat m); pushes_of tid ps)
  ≡ₚ filter (λ p, a ≤ p_tid p < a + Z.of_nat m) ps.
Proof.
  revert a. induction m as [|m IH]; intros a.
  - simpl. rewrite filter_none; [done|]. intros p. lia.
  - rewrite seqZ_cons by lia. rewrite bind_cons.
    replace (Z.pred (Z.of_nat (S m))) with (Z.of_nat m) by lia.
    rewrite IH. unfold pushes_of.
    apply (filter_split_Permutation (λ p, p_tid p = a)
             (λ p, Z.succ a ≤ p_tid p < Z.succ a + Z.of_nat m)
             (λ p, a ≤ p_tid p < a + Z.of_nat (S m))); intros p; lia.
Qed.

Lemma store_order_Permutation (num_threads : Z) (ps : list push) :
  Forall (λ p, 0 ≤ p_tid p < Z.max 1 num_threads) ps →
  store_order num_threads ps ≡ₚ ps.
Proof.
  intros Htid. unfold store_order.
  rewrite <- (seqZ_to_nat 0 (Z.max 1 num_threads)), pushes_of_range.
  rewrite filter_all; [done|].
  eapply Forall_impl; [exact Htid|]. intros p Hp. simpl in *. lia.
Qed.

Lemma concat_fmap_bind {A B C} (f : B → list C) (g : A → list B) (l : list A) :
  concat (f <$> (l ≫= g)) = concat ((λ x, concat (f <$> g x)) <$> l).
Proof.
  induction l as [|x l IH]; [done|].
  rewrite bind_cons, fmap_app, concat_app, fmap_cons. cbn [concat].
  by rewrite IH.
Qed.

(** A whole load in closed form: when the calls, taken worker by worker,
    come in row order, the structure after [FinishLoad] stores the pushed
    rows. *)
Lemma load_layout (VAL_T : VAL_T_kind) (num_threads n num_bin : Z)
    (estimate : double) (ps : list push) :
  0 ≤ n →
  Forall (λ p, 0 ≤ p_tid p < Z.max 1 num_threads
               ∧ 0 ≤ p_size p ≤ Vec.size (p_values p)) ps →
  p_idx <$> store_order num_threads ps = seqZ 0 n →
  load VAL_T num_threads n num_bin estimate ps
  = Some {| num_data_ := n;
            num_bin_ := num_bin;
            estimate_element_per_row_ :=
              double_div
                (double_of_int
                   (Vec.size (concat (pushed_values VAL_T
                                      <$> store_order num_threads ps))))
                (double_of_int n);
            data_ := concat (pushed_values VAL_T <$> store_order num_threads ps);
            row_ptr_ := offsets_of (pushed_values VAL_T
                                    <$> store_order num_threads ps);
            t_data_ := [] |}.
Proof.
  intros Hn Hvalid Horder.
  set (so := store_order num_threads ps) in *.
  set (rows := pushed_values VAL_T <$> so).
  assert (so ≡ₚ ps) as Hperm.
  { apply store_order_Permutation. eapply Forall_impl; [exact Hvalid|].
    by intros p [? _]. }
  assert (p_idx <$> ps ≡ₚ seqZ 0 n) as Hidxs by (by rewrite <- Hperm, Horder).
  set (s0 := new_MultiValSparseBin num_threads n num_bin estimate).
  assert (Vec.size (row_ptr_ s0) = n + 1) as Hrp0.
  { unfold Vec.size. cbn [s0 new_MultiValSparseBin row_ptr_].
    rewrite length_replicate. lia. }
  assert (∀ p, p ∈ ps → 0 ≤ p_idx p < n) as Hidx.
  { intros p Hp.
    assert (p_idx p ∈ seqZ 0 n) as Hin
      by (rewrite <- Hidxs; by apply list_elem_of_fmap_2).
    apply elem_of_seqZ in Hin. lia. }
  rewrite Forall_forall in Hvalid.
  destruct (ingest_spec VAL_T ps s0)
    as (s1 & Hs1 & Hload & Hin & Hout & Hbuf).
  { rewrite Hidxs. apply NoDup_seqZ. }
  { apply Forall_forall. intros p Hp.
    destruct (Hvalid p Hp) as [Htid Hsize]. pose proof (Hidx p Hp).
    unfold s0 at 2. rewrite size_t_data_new, Hrp0. lia. }
  destruct (ingest_buffers VAL_T ps s0) as (s1' & Hs1' & Hbufs).
  { apply Forall_forall. intros p Hp.
    destruct (Hvalid p Hp) as [Htid Hsize]. pose proof (Hidx p Hp).
    unfold s0 at 2. rewrite size_t_data_new, Hrp0. lia. }
  assert (s1' = s1) as -> by congruence. clear Hs1'.
  destruct Hload as (Hnum1 & Hbin1 & Hest1 & Hrp1 & Ht1).
  change (num_data_ s0) with n in Hnum1.
  change (num_bin_ s0) with num_bin in Hbin1.
  rewrite Hrp0 in Hrp1. unfold s0 in Ht1. rewrite size_t_data_new in Ht1.
  assert (buffers_size s0 = 0) as Hb0 by apply buffers_size_new.
  (* the length slots hold the sizes of the rows *)
  assert (Vec.size rows = n) as Hrows.
  { unfold rows, Vec.size. rewrite length_fmap.
    rewrite <- (length_fmap p_idx), Horder, length_seqZ. lia. }
  assert (∀ j r, rows !! j = Some r →
            row_length (row_ptr_ s1) (Z.of_nat j) = Vec.size r) as Hlen.
  { intros j r Hr. unfold rows in Hr. rewrite list_lookup_fmap in Hr.
    destruct (so !! j) as [p|] eqn:Hp; [|done]. simpl in Hr. simplify_eq.
    assert (p ∈ ps) as Hpin
      by (rewrite <- Hperm; by eapply list_elem_of_lookup_2).
    assert (p_idx p = Z.of_nat j) as Hpj.
    { assert ((p_idx <$> so) !! j = Some (p_idx p)) as Hl
        by (by rewrite list_lookup_fmap, Hp).
      rewrite Horder in Hl. apply lookup_seqZ in Hl. lia. }
    unfold row_length. rewrite <- Hpj, (Hin p Hpin). simpl.
    symmetry. apply size_pushed. by destruct (Hvalid p Hpin). }
  assert (∀ k, 0 ≤ k ≤ n →
            prefix_sum (row_ptr_ s1) k
            = Vec.size (concat (take (Z.to_nat k) rows))) as Hsum.
  { intros k Hk. rewrite <- (Z2Nat.id k) at 1 by lia.
    apply prefix_sum_rows; [|unfold Vec.size in Hrows; lia].
    intros j r Hr _. by apply Hlen. }
  (* the buffers hold the rows *)
  assert (concat (buffers s1) = concat rows) as Hstore.
  { unfold rows, so, store_order. rewrite concat_fmap_bind. f_equal.
    apply list_eq. intros t. rewrite list_lookup_fmap.
    destruct (decide (Z.of_nat t < Z.max 1 num_threads)) as [Ht|Ht].
    - rewrite lookup_seqZ_lt by lia. simpl. rewrite Z.add_0_l.
      rewrite (Hbufs t []); [done|].
      unfold buffers, s0, new_MultiValSparseBin. cbn [data_ t_data_].
      destruct t as [|t]; [done|]. simpl.
      case_decide; [|lia]. apply lookup_replicate. split; [done|]. lia.
    - rewrite lookup_seqZ_ge by lia. simpl. apply lookup_ge_None.
      unfold buffers. simpl. unfold Vec.size in Ht1. lia. }
  assert (buffers_size s1 = prefix_sum (row_ptr_ s1) (num_data_ s1)) as Hbs.
  { rewrite Hnum1, Hsum by lia.
    rewrite take_ge by (unfold Vec.size in Hrows; lia).
    rewrite <- Hstore. unfold buffers_size, buffers. cbn [concat].
    by rewrite Vec_size_app, size_concat. }
  unfold load. fold s0. rewrite Hs1. cbn [mbind option_bind].
  unfold FinishLoad. rewrite MoveData_false_data; [|lia|lia| |done].
  2:{ rewrite Hout.
      - unfold Vec.get. case_decide; [|lia].
        apply lookup_replicate. split; [done|]. lia.
      - intros Hneg%list_elem_of_fmap. destruct Hneg as (p & Hp & Hin').
        pose proof (Hidx p Hin'). lia. }
  cbn [mbind option_bind].
  cbn [row_ptr_ num_data_ set_t_data set_data set_row_ptr].
  rewrite Hnum1. rewrite get_prefix_sums by lia. cbn [mbind option_bind].
  unfold set_estimate.
  cbn [row_ptr_ num_data_ num_bin_ data_ t_data_ set_t_data set_data
       set_row_ptr].
  rewrite Hnum1, Hbin1, Hstore. rewrite (Hsum n) by lia.
  rewrite take_ge by (unfold Vec.size in Hrows; lia).
  do 2 f_equal. apply Vec_ext.
  - unfold Vec.size in *. rewrite length_fmap, length_seqZ.
    unfold offsets_of. rewrite length_fmap, length_seq. lia.
  - intros k Hk. unfold Vec.size in Hk.
    rewrite length_fmap, length_seqZ in Hk.
    rewrite get_prefix_sums, get_offsets_of by lia. f_equal. apply Hsum. lia.
Qed.

(** X6. A load round trip. When the ingestion calls, taken worker by
    worker (worker 0's calls in their order, then worker 1's, ...), come in
    row order, construction, ingestion and [FinishLoad] yield a finalized
    structure whose row [idx] holds exactly the first [size] values pushed
    for it, narrowed to [VAL_T] (verbatim when they fit [VAL_T]), and whose
    density hint is the number of stored values divided by the number of
    rows. *)
Theorem load_stores_pushed_rows
    (VAL_T : VAL_T_kind) (num_threads n num_bin : Z) (estimate : double)
    (ps : list push) :
  0 ≤ n →
  Forall (λ p, 0 ≤ p_tid p < Z.max 1 num_threads
               ∧ 0 ≤ p_size p ≤ Vec.size (p_values p)) ps →
  p_idx <$> store_order num_threads ps = seqZ 0 n →
  ∃ s',
    load VAL_T num_threads n num_bin estimate ps = Some s'
    ∧ finalized s'
    ∧ num_data_ s' = n
    ∧ rows_of s' = pushed_values VAL_T <$> store_order num_threads ps
    ∧ (∀ p, p ∈ ps → row_slice s' (p_idx p) = pushed_values VAL_T p)
    ∧ (∀ p, p ∈ ps →
         Forall (λ v, 0 ≤ v < 2 ^ (8 * sizeof VAL_T)) (p_values p) →
         row_slice s' (p_idx p) = take (Z.to_nat (p_size p)) (p_values p))
    ∧ estimate_element_per_row_ s' = average_per_row s'.
Proof.
  intros Hn Hvalid Horder. eexists. split; [by apply load_layout|].
  set (so := store_order num_threads ps) in *.
  set (rows := pushed_values VAL_T <$> so).
  set (s' := mkMultiValSparseBin _ _ _ _ _ _).
  assert (Vec.size rows = n) as Hrows.
  { unfold rows, Vec.size. rewrite length_fmap.
    rewrite <- (length_fmap p_idx), Horder, length_seqZ. lia. }
  assert (finalized s') as Hfin by (by apply (layout_finalized s' rows)).
  assert (rows_of s' = rows) as Hrs.
  { apply (rows_of_layout s' rows []); [done| |done].
    by rewrite app_nil_r. }
  assert (∀ p, p ∈ ps → row_slice s' (p_idx p) = pushed_values VAL_T p)
    as Hslice.
  { intros p Hp.
    assert (p ∈ so) as Hso.
    { unfold so. rewrite store_order_Permutation; [done|].
      eapply Forall_impl; [exact Hvalid|]. by intros q [? _]. }
    apply list_elem_of_lookup in Hso as [j Hj].
    assert (p_idx p = Z.of_nat j) as Hpj.
    { assert ((p_idx <$> so) !! j = Some (p_idx p)) as Hl
        by (by rewrite list_lookup_fmap, Hj).
      rewrite Horder in Hl. apply lookup_seqZ in Hl. lia. }
    assert (rows !! j = Some (pushed_values VAL_T p)) as Hr
      by (unfold rows; by rewrite list_lookup_fmap, Hj).
    apply lookup_lt_Some in Hr as Hlt. unfold Vec.size in Hrows.
    rewrite <- Hrs, <- (Nat2Z.id j) in Hr.
    rewrite lookup_rows_of in Hr by (change (num_data_ s') with n; lia).
    rewrite Hpj. congruence. }
  split; [done|]. split; [done|]. split; [done|]. split; [done|].
  split; [|done].
  intros p Hp Hfit. rewrite (Hslice p Hp). unfold pushed_values.
  rewrite <- (list_fmap_id (take _ _)) at 2. apply list_fmap_ext.
  intros j v Hv. simpl. unfold static_cast_VAL_T. apply Z.mod_small.
  apply list_elem_of_lookup_2, subseteq_take in Hv.
  rewrite Forall_forall in Hfit. by apply Hfit.
Qed.

Lemma load_stores_pushed_rows_witness :
  0 ≤ 3
  ∧ Forall (λ p, 0 ≤ p_tid p < Z.max 1 2
                 ∧ 0 ≤ p_size p ≤ Vec.size (p_values p))
      [mkPush 1 2 [1] 1; mkPush 0 0 [3; 7] 2; mkPush 0 1 [] 0]
  ∧ p_idx <$> store_order 2
                [mkPush 1 2 [1] 1; mkPush 0 0 [3; 7] 2; mkPush 0 1 [] 0]
    = seqZ 0 3
  ∧ ∃ s',
      load uint8_t 2 3 8 (Finite 1)
        [mkPush 1 2 [1] 1; mkPush 0 0 [3; 7] 2; mkPush 0 1 [] 0] = Some s'
      ∧ finalized s'
      ∧ num_data_ s' = 3
      ∧ rows_of s'
        = pushed_values uint8_t
          <$> store_order 2
                [mkPush 1 2 [1] 1; mkPush 0 0 [3; 7] 2; mkPush 0 1 [] 0]
      ∧ (∀ p, p ∈ [mkPush 1 2 [1] 1; mkPush 0 0 [3; 7] 2; mkPush 0 1 [] 0] →
           row_slice s' (p_idx p) = pushed_values uint8_t p)
      ∧ (∀ p, p ∈ [mkPush 1 2 [1] 1; mkPush 0 0 [3; 7] 2; mkPush 0 1 [] 0] →
           Forall (λ v, 0 ≤ v < 2 ^ (8 * sizeof uint8_t)) (p_values p) →
           row_slice s' (p_idx p) = take (Z.to_nat (p_size p)) (p_values p))
      ∧ estimate_element_per_row_ s' = average_per_row s'.
Proof.
  assert (Forall (λ p, 0 ≤ p_tid p < Z.max 1 2
                       ∧ 0 ≤ p_size p ≤ Vec.size (p_values p))
            [mkPush 1 2 [1] 1; mkPush 0 0 [3; 7] 2; mkPush 0 1 [] 0]) as Hok
    by (apply (bool_decide_unpack _); vm_compute; exact I).
  split; [lia|]. split; [exact Hok|]. split; [reflexivity|].
  exact (load_stores_pushed_rows uint8_t 2 3 8 (Finite 1)
           [mkPush 1 2 [1] 1; mkPush 0 0 [3; 7] 2; mkPush 0 1 [] 0]
           ltac:(lia) Hok eq_refl).
Defined.

(** X7. [PushOneRow] is defined exactly when the length slot
    [row_ptr_[idx + 1]] exists and, if it pushes anything ([size > 0]),
    [values] holds [size] values and the worker is worker 0 or has a thread
    buffer. Nothing else is checked: [idx = -1] writes [row_ptr_[0]], and a
    call with [size <= 0] touches no buffer. *)
Theorem PushOneRow_defined_iff
    (VAL_T : VAL_T_kind) (tid idx : Z) (values : list Z) (size : Z)
    (s : MultiValSparseBin) :
  is_Some (PushOneRow VAL_T tid idx values size s)
  ↔ 0 ≤ idx + 1 < Vec.size (row_ptr_ s)
    ∧ (0 < size →
       size ≤ Vec.size values
       ∧ (tid = 0 ∨ 0 < tid ≤ Vec.size (t_data_ s))).
Proof.
  split.
  - intros Hdef. unfold PushOneRow in Hdef.
    destruct (decide (0 ≤ idx + 1 < Vec.size (row_ptr_ s))) as [Hidx|Hidx].
    2:{ unfold Vec.set in Hdef. rewrite decide_False in Hdef by done.
        by destruct Hdef. }
    split; [done|]. intros Hsize.
    rewrite Vec_set_Some in Hdef by done. cbn [mbind option_bind] in Hdef.
    destruct (decide (tid = 0)) as [->|Htid].
    + split; [|by left].
      destruct (decide (size ≤ Vec.size values)) as [|Hlong]; [done|].
      rewrite (for_range_None (λ _, True)) with (k := Vec.size values)
        in Hdef; [by destruct Hdef|done|done| |].
      * pose proof (Vec_size_nonneg values). lia.
      * intros d _.
        by rewrite (Vec_get_None values (Vec.size values)) by lia.
    + cbn [t_data_ set_row_ptr] in Hdef.
      destruct (decide (0 < tid ≤ Vec.size (t_data_ s))) as [Hslot|Hslot].
      * split; [|by right].
        destruct (decide (size ≤ Vec.size values)) as [|Hlong]; [done|].
        rewrite (for_range_None (λ _, True)) with (k := Vec.size values)
          in Hdef; [by destruct Hdef|done|done| |].
        -- pose proof (Vec_size_nonneg values). lia.
        -- intros t _. destruct (Vec.get t (tid - 1)); [|done].
           cbn [mbind option_bind].
           by rewrite (Vec_get_None values (Vec.size values)) by lia.
      * rewrite (for_range_None
                   (λ t : list (list Z), Vec.size t = Vec.size (t_data_ s)))
          with (k := 0) in Hdef; [by destruct Hdef|done| |lia|].
        -- intros j t t' _ Ht Hbody.
           destruct (Vec.get t (tid - 1)); [|done].
           cbn [mbind option_bind] in Hbody.
           destruct (Vec.get values j); [|done].
           cbn [mbind option_bind] in Hbody. unfold Vec.set in Hbody.
           case_decide; [|done]. simplify_eq. by rewrite Vec_size_insert.
        -- intros t Ht. by rewrite (Vec_get_None t (tid - 1)) by lia.
  - intros [Hidx Hpush].
    destruct (decide (0 < size)) as [Hsize|Hsize].
    + destruct (Hpush Hsize) as [Hlen Htid].
      pose proof (Vec_size_nonneg (t_data_ s)).
      destruct (PushOneRow_buffers VAL_T (mkPush tid idx values size) s)
        as (s' & Hs' & _); cbn [p_tid p_idx p_values p_size];
        [done|lia|lia|].
      cbn [p_tid p_idx p_values p_size] in Hs'. by rewrite Hs'.
    + unfold PushOneRow. rewrite Vec_set_Some by done.
      cbn [mbind option_bind]. rewrite !for_range_empty by lia.
      by case_decide.
Qed.

(** ** Copying rows *)

(** X8. [ReSize] and [CopySubset] keep the class invariant: for a
    finalized source, a finalized structure resized to [count] rows, whose
    density hint sizes a [reserve] that succeeds, and refilled from [count]
    row ids is finalized again; its rows are the selected rows of the
    source, in the order of the ids; its bin count is untouched, and its
    values are bins of it when the source's are. *)
Theorem ReSize_CopySubset_finalized
    (other : MultiValSparseBin) (used_indices : list Z) (count : Z)
    (s : MultiValSparseBin) :
  finalized other → finalized s → reserve_ok (ReSize count s) →
  0 ≤ count ≤ Vec.size used_indices →
  Forall (λ r, 0 ≤ r < num_data_ other) (take (Z.to_nat count) used_indices) →
  ∃ s',
    CopySubset other used_indices count (ReSize count s) = Some s'
    ∧ finalized s'
    ∧ num_data_ s' = count
    ∧ rows_of s' = row_slice other <$> take (Z.to_nat count) used_indices
    ∧ num_bin_ s' = num_bin_ s
    ∧ (bins_in_range other → num_bin_ other ≤ num_bin_ s → bins_in_range s').
Proof.
  intros Hother Hs Hres Hcount Hused.
  pose proof (copy_subset_ok_ReSize other used_indices count s
                Hother Hs Hres Hcount Hused) as Hok.
  pose proof Hok as (_ & Hnum & _).
  eexists. split; [by apply CopySubset_spec|].
  set (rows := row_slice other <$> take (Z.to_nat count) used_indices).
  set (s' := mkMultiValSparseBin _ _ _ _ _ _).
  assert (Vec.size rows = count) as Hrows.
  { unfold rows, Vec.size in *. rewrite length_fmap, length_take. lia. }
  assert (t_data_ (ReSize count s) = []) as Ht.
  { destruct Hs as (_ & _ & _ & _ & Ht). unfold ReSize. by case_decide. }
  assert (num_bin_ (ReSize count s) = num_bin_ s) as Hbin
    by (unfold ReSize; by case_decide).
  assert (num_data_ s' = Vec.size rows) as Hns by (by rewrite Hrows).
  split; [by apply (layout_finalized s' rows)|]. split; [done|].
  split; [apply (rows_of_layout s' rows []); [done| |done];
          by rewrite app_nil_r|].
  split; [done|].
  intros Hbins Hle. unfold bins_in_range. cbn [s' data_ num_bin_].
  rewrite Hbin. apply Forall_concat, Forall_fmap, Forall_forall.
  intros r _. simpl. apply Forall_row_slice.
  eapply Forall_impl; [exact Hbins|]. intros b Hb. simpl in *. lia.
Qed.

Lemma ReSize_CopySubset_finalized_witness :
  finalized example_finalized
  ∧ finalized example_finalized
  ∧ reserve_ok (ReSize 2 example_finalized)
  ∧ 0 ≤ 2 ≤ Vec.size [2; 0]
  ∧ Forall (λ r, 0 ≤ r < num_data_ example_finalized)
      (take (Z.to_nat 2) [2; 0])
  ∧ ∃ s',
      CopySubset example_finalized [2; 0] 2 (ReSize 2 example_finalized)
      = Some s'
      ∧ finalized s'
      ∧ num_data_ s' = 2
      ∧ rows_of s' = row_slice example_finalized <$> take (Z.to_nat 2) [2; 0]
      ∧ num_bin_ s' = num_bin_ example_finalized
      ∧ (bins_in_range example_finalized →
         num_bin_ example_finalized ≤ num_bin_ example_finalized →
         bins_in_range s').
Proof.
  assert (finalized example_finalized) as Hfin
    by (apply (bool_decide_unpack _); vm_compute; exact I).
  assert (Forall (λ r, 0 ≤ r < num_data_ example_finalized)
            (take (Z.to_nat 2) [2; 0])) as Hused
    by (apply (bool_decide_unpack _); vm_compute; exact I).
  assert (reserve_ok (ReSize 2 example_finalized)) as Hres
    by (apply (bool_decide_unpack _); vm_compute; exact I).
  split; [exact Hfin|]. split; [exact Hfin|]. split; [exact Hres|].
  split; [vm_compute; split; discriminate|]. split; [exact Hused|].
  exact (ReSize_CopySubset_finalized example_finalized [2; 0] 2
           example_finalized Hfin Hfin Hres
           ltac:(vm_compute; split; discriminate) Hused).
Defined.

(** X9. [CopySubset] checks nothing: a call that copies anything is defined
    only if the destination has at least [num_used_indices] rows, the id
    list holds that many ids, and every one of them is a row of the source.
    Otherwise it writes beyond [row_ptr_] or reads beyond the id list or
    the source's [row_ptr_]. *)
Theorem CopySubset_defined_only_within_bounds
    (other : MultiValSparseBin) (used_indices : list Z)
    (num_used_indices : Z) (s : MultiValSparseBin) :
  finalized other →
  0 < num_used_indices →
  is_Some (CopySubset other used_indices num_used_indices s) →
  num_used_indices ≤ num_data_ s
  ∧ num_used_indices ≤ Vec.size used_indices
  ∧ Forall (λ r, 0 ≤ r < num_data_ other)
      (take (Z.to_nat num_used_indices) used_indices).
Proof.
  intros Hfin Hcount Hdef. unfold CopySubset in Hdef.
  destruct (Vec.resize (row_ptr_ s) (num_data_ s + 1) 0) as [rp|] eqn:Hrp;
    [|by destruct Hdef].
  cbn [mbind option_bind] in Hdef.
  destruct (estimate_num_data _ _) as [est|]; [|by destruct Hdef].
  cbn [mbind option_bind] in Hdef.
  destruct (Vec.reserve _ est) as [d0|]; [|by destruct Hdef].
  cbn [mbind option_bind] in Hdef.
  assert (Vec.size rp = num_data_ s + 1) as Hsize.
  { unfold Vec.resize in Hrp. case_decide; [|done]. simplify_eq.
    unfold Vec.size. rewrite length_resize. lia. }
  match type of Hdef with
  | is_Some (for_range _ _ ?body ?init) =>
      set (copy_row := body) in *; set (s1 := init) in *
  end.
  assert (∀ k, 0 ≤ k < num_used_indices →
            (∀ st, Vec.size (row_ptr_ st) = num_data_ s + 1 →
               copy_row k st = None) → False) as Hnone.
  { intros k Hk Hfail.
    rewrite (for_range_None
               (λ st, Vec.size (row_ptr_ st) = num_data_ s + 1))
      with (k := k) in Hdef; [by destruct Hdef|done| |done|done].
    intros j st st' _ Hst Hbody. unfold copy_row in Hbody.
    simplify_option_eq. unfold Vec.set in *. case_decide; [|done].
    simplify_eq. cbn [row_ptr_ set_row_ptr]. by rewrite Vec_size_insert. }
  split; [|split].
  - destruct (decide (num_used_indices ≤ num_data_ s)) as [|Hmany]; [done|].
    exfalso. apply (Hnone (Z.max 0 (num_data_ s))); [lia|].
    intros st Hst. unfold copy_row.
    destruct (Vec.get used_indices _) as [u|]; [|done].
    cbn [mbind option_bind].
    destruct (Vec.get (row_ptr_ other) u) as [j_lo|]; [|done].
    cbn [mbind option_bind].
    destruct (Vec.get (row_ptr_ other) (u + 1)) as [j_hi|]; [|done].
    cbn [mbind option_bind].
    destruct (for_range j_lo j_hi _ _) as [d|]; [|done].
    cbn [mbind option_bind].
    destruct (Vec.get (row_ptr_ st) _) as [a|]; [|done].
    cbn [mbind option_bind]. unfold Vec.set. by rewrite decide_False by lia.
  - destruct (decide (num_used_indices ≤ Vec.size used_indices))
      as [|Hshort]; [done|].
    exfalso. pose proof (Vec_size_nonneg used_indices).
    apply (Hnone (Vec.size used_indices)); [lia|].
    intros st _. unfold copy_row.
    by rewrite (Vec_get_None used_indices (Vec.size used_indices)) by lia.
  - apply Forall_lookup_2. intros i r Hi.
    apply lookup_take_Some in Hi as [Hi Hlt].
    destruct (decide (0 ≤ r < num_data_ other)) as [|Hr]; [done|].
    exfalso. apply (Hnone (Z.of_nat i)); [lia|].
    intros st _. unfold copy_row. rewrite (Vec_get_nat used_indices i), Hi.
    cbn [mbind option_bind].
    destruct (Vec.get (row_ptr_ other) r) as [j_lo|] eqn:Hlo; [|done].
    apply Vec_get_lt in Hlo. cbn [mbind option_bind].
    destruct Hfin as (Hlen & _).
    by rewrite (Vec_get_None (row_ptr_ other) (r + 1)) by lia.
Qed.

Lemma CopySubset_defined_only_within_bounds_witness :
  finalized example_finalized
  ∧ 0 < 2
  ∧ is_Some (CopySubset example_finalized [2; 0] 2 (ReSize 2 example_finalized))
  ∧ 2 ≤ num_data_ (ReSize 2 example_finalized)
  ∧ 2 ≤ Vec.size [2; 0]
  ∧ Forall (λ r, 0 ≤ r < num_data_ example_finalized)
      (take (Z.to_nat 2) [2; 0]).
Proof.
  assert (finalized example_finalized) as Hfin
    by (apply (bool_decide_unpack _); vm_compute; exact I).
  assert (is_Some (CopySubset example_finalized [2; 0] 2
                     (ReSize 2 example_finalized))) as Hdef
    by (vm_compute; eauto).
  split; [exact Hfin|]. split; [lia|]. split; [exact Hdef|].
  exact (CopySubset_defined_only_within_bounds example_finalized [2; 0] 2
           (ReSize 2 example_finalized) Hfin ltac:(lia) Hdef).
Defined.

(** X22. [CopySubset] sizes a [reserve] from the density hint of the
    destination and never writes the hint: a call returns only if the
    product of the row count, the hint and 1.5 is a number whose truncation
    is a non-negative [data_size_t], and then the hint, the row count, the
    bin count and the thread buffers are what they were, and [row_ptr_] has
    one slot more than there are rows. *)
Theorem CopySubset_returns_only_with_reservable_hint
    (other : MultiValSparseBin) (used_indices : list Z)
    (num_used_indices : Z) (s s' : MultiValSparseBin) :
  CopySubset other used_indices num_used_indices s = Some s' →
  reserve_ok s
  ∧ estimate_element_per_row_ s' = estimate_element_per_row_ s
  ∧ num_data_ s' = num_data_ s
  ∧ num_bin_ s' = num_bin_ s
  ∧ t_data_ s' = t_data_ s
  ∧ Vec.size (row_ptr_ s') = num_data_ s + 1.
Proof.
  intros Hrun. unfold CopySubset in Hrun.
  destruct (Vec.resize (row_ptr_ s) (num_data_ s + 1) 0) as [rp|] eqn:Hrp;
    [|done].
  cbn [mbind option_bind num_data_ estimate_element_per_row_ set_row_ptr]
    in Hrun.
  destruct (estimate_num_data _ _) as [est|] eqn:Hest; [|done].
  cbn [mbind option_bind] in Hrun.
  destruct (Vec.reserve _ est) as [d0|] eqn:Hreserve; [|done].
  cbn [mbind option_bind] in Hrun.
  assert (Vec.size rp = num_data_ s + 1) as Hsize.
  { unfold Vec.resize in Hrp. case_decide; [|done]. simplify_eq.
    unfold Vec.size. rewrite length_resize. lia. }
  split.
  { unfold reserve_ok. rewrite Hest. cbn [mbind option_bind].
    by rewrite Hreserve. }
  apply (for_range_Some_inv
           (λ st, estimate_element_per_row_ st = estimate_element_per_row_ s
                  ∧ num_data_ st = num_data_ s
                  ∧ num_bin_ st = num_bin_ s
                  ∧ t_data_ st = t_data_ s
                  ∧ Vec.size (row_ptr_ st) = num_data_ s + 1)) in Hrun;
    [done|done|].
  intros j st st' _ (He & Hn & Hb & Ht & Hlen) Hbody.
  simplify_option_eq. unfold Vec.set in *. case_decide; [|done].
  simplify_eq.
  cbn [estimate_element_per_row_ num_data_ num_bin_ t_data_ row_ptr_
       set_row_ptr set_data].
  by rewrite Vec_size_insert.
Qed.

Lemma CopySubset_returns_only_with_reservable_hint_witness :
  CopySubset example_finalized [2; 0] 2
    (set_estimate (ReSize 2 example_finalized) (Finite 5))
  = Some {| num_data_ := 2; num_bin_ := num_bin_ example_finalized;
            estimate_element_per_row_ := Finite 5;
            data_ := row_slice example_finalized 2
                     ++ row_slice example_finalized 0;
            row_ptr_ := [0; Vec.size (row_slice example_finalized 2);
                         Vec.size (row_slice example_finalized 2)
                         + Vec.size (row_slice example_finalized 0)];
            t_data_ := [] |}
  ∧ reserve_ok (set_estimate (ReSize 2 example_finalized) (Finite 5))
  ∧ Finite 5
    = estimate_element_per_row_
        (set_estimate (ReSize 2 example_finalized) (Finite 5))
  ∧ 2 = num_data_ (set_estimate (ReSize 2 example_finalized) (Finite 5))
  ∧ num_bin_ example_finalized
    = num_bin_ (set_estimate (ReSize 2 example_finalized) (Finite 5))
  ∧ [] = t_data_ (set_estimate (ReSize 2 example_finalized) (Finite 5))
  ∧ Vec.size [0; Vec.size (row_slice example_finalized 2);
              Vec.size (row_slice example_finalized 2)
              + Vec.size (row_slice example_finalized 0)]
    = num_data_ (set_estimate (ReSize 2 example_finalized) (Finite 5)) + 1.
Proof.
  assert (CopySubset example_finalized [2; 0] 2
            (set_estimate (ReSize 2 example_finalized) (Finite 5))
          = Some {| num_data_ := 2; num_bin_ := num_bin_ example_finalized;
                    estimate_element_per_row_ := Finite 5;
                    data_ := row_slice example_finalized 2
                             ++ row_slice example_finalized 0;
                    row_ptr_ := [0; Vec.size (row_slice example_finalized 2);
                                 Vec.size (row_slice example_finalized 2)
                                 + Vec.size (row_slice example_finalized 0)];
                    t_data_ := [] |}) as Hrun by (vm_compute; reflexivity).
  split; [exact Hrun|].
  exact (CopySubset_returns_only_with_reservable_hint example_finalized
           [2; 0] 2 (set_estimate (ReSize 2 example_finalized) (Finite 5)) _
           Hrun).
Defined.

(** X23. A density hint that is no number stops [CopySubset]: whatever the
    source, the row ids and the counts, a call on a destination whose hint
    is NaN has no result, because the size of the [reserve] is the
    conversion of NaN to [data_size_t]. The structure that [FinishLoad]
    makes of a load of zero rows is such a destination, also after
    [ReSize]. *)
Theorem CopySubset_undefined_on_NaN_hint
    (num_threads num_bin : Z) (estimate : double) :
  (∀ other used_indices num_used_indices s,
     estimate_element_per_row_ s = NaN →
     CopySubset other used_indices num_used_indices s = None)
  ∧ ∃ s0,
      FinishLoad (new_MultiValSparseBin num_threads 0 num_bin estimate)
      = Some s0
      ∧ ∀ other used_indices num_used_indices count,
          CopySubset other used_indices num_used_indices (ReSize count s0)
          = None.
Proof.
  assert (∀ other used_indices num_used_indices s,
            estimate_element_per_row_ s = NaN →
            CopySubset other used_indices num_used_indices s = None) as HNaN.
  { intros other used_indices num_used_indices s Hhint. unfold CopySubset.
    destruct (Vec.resize _ _ _) as [rp|]; [|done].
    cbn [mbind option_bind num_data_ estimate_element_per_row_ set_row_ptr].
    by rewrite Hhint. }
  split; [exact HNaN|].
  eexists. split; [apply FinishLoad_zero_rows|].
  intros other used_indices num_used_indices count. apply HNaN.
  unfold ReSize. by case_decide.
Qed.

(** The structure [ReSize] and [CopySubset] leave, with what the later
    copies and histograms need of it. *)
Lemma CopySubset_ReSize_rows other used_indices count s :
  finalized other → finalized s → reserve_ok (ReSize count s) →
  0 ≤ count ≤ Vec.size used_indices →
  Forall (λ r, 0 ≤ r < num_data_ other) (take (Z.to_nat count) used_indices) →
  ∃ s',
    CopySubset other used_indices count (ReSize count s) = Some s'
    ∧ finalized s'
    ∧ num_data_ s' = count
    ∧ num_bin_ s' = num_bin_ s
    ∧ data_ s'
      = concat (row_slice other <$> take (Z.to_nat count) used_indices)
    ∧ row_ptr_ s'
      = offsets_of (row_slice other <$> take (Z.to_nat count) used_indices)
    ∧ ∀ i r, 0 ≤ i < count → Vec.get used_indices i = Some r →
        row_slice s' i = row_slice other r.
Proof.
  intros Hother Hs Hres Hcount Hused.
  pose proof (copy_subset_ok_ReSize other used_indices count s
                Hother Hs Hres Hcount Hused) as Hok.
  pose proof Hok as (_ & Hnum & _).
  eexists. split; [by apply CopySubset_spec|].
  set (rows := row_slice other <$> take (Z.to_nat count) used_indices).
  set (s' := mkMultiValSparseBin _ _ _ _ _ _).
  assert (Vec.size rows = count) as Hrows.
  { unfold rows, Vec.size in *. rewrite length_fmap, length_take. lia. }
  assert (t_data_ (ReSize count s) = []) as Ht.
  { destruct Hs as (_ & _ & _ & _ & Ht). unfold ReSize. by case_decide. }
  assert (num_bin_ (ReSize count s) = num_bin_ s) as Hbin
    by (unfold ReSize; by case_decide).
  assert (num_data_ s' = Vec.size rows) as Hns by (by rewrite Hrows).
  split; [by apply (layout_finalized s' rows)|]. split; [done|].
  split; [done|]. split; [done|]. split; [done|].
  intros i r Hi Hr.
  destruct (row_slice_offsets_of s' rows [] i) as [Hrow _];
    [done|by rewrite app_nil_r|lia|].
  assert (rows !! Z.to_nat i = Some (row_slice other r)) as Hrow'.
  { unfold rows. rewrite list_lookup_fmap, lookup_take_lt by lia.
    apply Vec_get_Some in Hr as [_ ->]. done. }
  congruence.
Qed.

Lemma foldl_ext_in {St B} (f g : St → B → St) (s : St) (l : list B) :
  (∀ t x, x ∈ l → f t x = g t x) → foldl f s l = foldl g s l.
Proof.
  revert s. induction l as [|x l IH]; intros s Hfg; [done|].
  cbn [foldl]. rewrite Hfg by left. apply IH.
  intros t y Hy. apply Hfg. by right.
Qed.

Lemma get_gather {A} (d : A) (scores : list A) (row_ids : list Z) i r :
  Vec.get row_ids i = Some r →
  Vec.get (gather d scores row_ids) i = Some (default d (Vec.get scores r)).
Proof.
  intros [Hi Hr]%Vec_get_Some. apply Vec_get_Some. split; [done|].
  unfold gather. by rewrite list_lookup_fmap, Hr.
Qed.

Lemma length_gather {A} (d : A) (scores : list A) (row_ids : list Z) :
  length (gather d scores row_ids) = length row_ids.
Proof. unfold gather. by rewrite length_fmap. Qed.

(** X10. Copying a subset of a subset is copying the subset of the
    composed row ids: with [s1] the rows [ids1] of the source, the copy of
    the rows [ids2] of [s1] is the copy of the rows [ids1[ids2[i]]] of the
    source. The destinations are finalized structures resized to the row
    counts, whose density hints size a [reserve] that succeeds. *)
Theorem CopySubset_compose
    (other : MultiValSparseBin) (ids1 ids2 : list Z) (count1 count2 : Z)
    (d1 d2 : MultiValSparseBin) :
  finalized other → finalized d1 → finalized d2 →
  reserve_ok (ReSize count1 d1) → reserve_ok (ReSize count2 d2) →
  0 ≤ count1 ≤ Vec.size ids1 →
  Forall (λ r, 0 ≤ r < num_data_ other) (take (Z.to_nat count1) ids1) →
  0 ≤ count2 ≤ Vec.size ids2 →
  Forall (λ r, 0 ≤ r < count1) (take (Z.to_nat count2) ids2) →
  ∃ s1 s2,
    CopySubset other ids1 count1 (ReSize count1 d1) = Some s1
    ∧ CopySubset s1 ids2 count2 (ReSize count2 d2) = Some s2
    ∧ CopySubset other (gather 0 ids1 (take (Z.to_nat count2) ids2)) count2
        (ReSize count2 d2) = Some s2.
Proof.
  intros Hother Hd1 Hd2 Hres1 Hres2 Hc1 Hids1 Hc2 Hids2.
  destruct (CopySubset_ReSize_rows other ids1 count1 d1)
    as (s1 & Hs1 & Hfin1 & Hn1 & _ & _ & _ & Hrows1); [done..|].
  exists s1. eexists. split; [done|].
  assert (Vec.size (take (Z.to_nat count2) ids2) = count2) as Hlen2.
  { unfold Vec.size in *. rewrite length_take. lia. }
  assert (row_slice s1 <$> take (Z.to_nat count2) ids2
          = row_slice other
            <$> take (Z.to_nat count2)
                  (gather 0 ids1 (take (Z.to_nat count2) ids2))) as Hsame.
  { rewrite (take_ge (gather _ _ _))
      by (rewrite length_gather; unfold Vec.size in *; lia).
    unfold gather. rewrite <- list_fmap_compose.
    apply list_fmap_ext. intros j i Hi. simpl.
    rewrite Forall_lookup in Hids2. pose proof (Hids2 j i Hi) as Hrange.
    destruct (Vec_get_is_Some ids1 i) as [r Hr]; [lia|].
    rewrite Hr. simpl. apply Hrows1; [lia|done]. }
  split.
  - rewrite CopySubset_spec.
    2:{ apply copy_subset_ok_ReSize; [done|done|done|done|].
        by rewrite Hn1. }
    by rewrite Hsame.
  - rewrite CopySubset_spec; [done|].
    apply copy_subset_ok_ReSize; [done|done|done| |].
    + unfold Vec.size in *. rewrite length_gather. lia.
    + rewrite (take_ge (gather _ _ _))
        by (rewrite length_gather; unfold Vec.size in *; lia).
      unfold gather. apply Forall_fmap, Forall_forall. intros i Hi. simpl.
      rewrite Forall_forall in Hids2. pose proof (Hids2 i Hi) as Hrange.
      destruct (Vec_get_is_Some ids1 i) as [r Hr]; [lia|].
      rewrite Hr. simpl. rewrite Forall_lookup in Hids1.
      apply Vec_get_Some in Hr as [_ Hr].
      apply (Hids1 (Z.to_nat i) r). rewrite lookup_take_lt by lia. done.
Qed.

Lemma CopySubset_compose_witness :
  finalized example_finalized
  ∧ finalized example_finalized
  ∧ finalized example_finalized
  ∧ reserve_ok (ReSize 2 example_finalized)
  ∧ reserve_ok (ReSize 3 example_finalized)
  ∧ 0 ≤ 2 ≤ Vec.size [2; 0]
  ∧ Forall (λ r, 0 ≤ r < num_data_ example_finalized)
      (take (Z.to_nat 2) [2; 0])
  ∧ 0 ≤ 3 ≤ Vec.size [1; 1; 0]
  ∧ Forall (λ r, 0 ≤ r < 2) (take (Z.to_nat 3) [1; 1; 0])
  ∧ ∃ s1 s2,
      CopySubset example_finalized [2; 0] 2 (ReSize 2 example_finalized)
      = Some s1
      ∧ CopySubset s1 [1; 1; 0] 3 (ReSize 3 example_finalized) = Some s2
      ∧ CopySubset example_finalized
          (gather 0 [2; 0] (take (Z.to_nat 3) [1; 1; 0])) 3
          (ReSize 3 example_finalized) = Some s2.
Proof.
  assert (finalized example_finalized) as Hfin
    by (apply (bool_decide_unpack _); vm_compute; exact I).
  assert (Forall (λ r, 0 ≤ r < num_data_ example_finalized)
            (take (Z.to_nat 2) [2; 0])) as H1
    by (apply (bool_decide_unpack _); vm_compute; exact I).
  assert (Forall (λ r, 0 ≤ r < 2) (take (Z.to_nat 3) [1; 1; 0])) as H2
    by (apply (bool_decide_unpack _); vm_compute; exact I).
  assert (reserve_ok (ReSize 2 example_finalized)) as Hres1
    by (apply (bool_decide_unpack _); vm_compute; exact I).
  assert (reserve_ok (ReSize 3 example_finalized)) as Hres2
    by (apply (bool_decide_unpack _); vm_compute; exact I).
  split; [exact Hfin|]. split; [exact Hfin|]. split; [exact Hfin|].
  split; [exact Hres1|]. split; [exact Hres2|].
  split; [vm_compute; split; discriminate|]. split; [exact H1|].
  split; [vm_compute; split; discriminate|]. split; [exact H2|].
  exact (CopySubset_compose example_finalized [2; 0] [1; 1; 0] 2 3
           example_finalized example_finalized Hfin Hfin Hfin Hres1 Hres2
           ltac:(vm_compute; split; discriminate) H1
           ltac:(vm_compute; split; discriminate) H2).
Defined.

(** X11. The histogram of a subset copy is the indexed histogram of the
    source: after [ReSize] and [CopySubset] with the row ids [ids] into a
    finalized destination whose density hint sizes a [reserve] that
    succeeds, a call over all rows of the copy, with the gradients and
    hessians of the selected rows, returns what the indexed call with [ids]
    returns on the source. *)
Theorem Accumulate_on_subset_copy
    {score_t hist_t : Type} (to_hist : score_t → hist_t)
    (hadd : hist_t → hist_t → hist_t) (one_f : score_t) (VAL_T : VAL_T_kind)
    (other : MultiValSparseBin) (ids : list Z) (count : Z)
    (d : MultiValSparseBin)
    (gradients : list score_t) (hessians : option (list score_t))
    (out : list hist_t) :
  finalized d → reserve_ok (ReSize count d) →
  num_bin_ d = num_bin_ other → 0 ≤ count →
  accumulate_ok other (Indexed ids) 0 count gradients hessians out →
  ∃ s' h,
    CopySubset other ids count (ReSize count d) = Some s'
    ∧ Accumulate to_hist hadd one_f VAL_T s' Identity 0 count
        (gather one_f gradients (take (Z.to_nat count) ids))
        ((λ hs, gather one_f hs (take (Z.to_nat count) ids)) <$> hessians)
        out = Some h
    ∧ Accumulate to_hist hadd one_f VAL_T other (Indexed ids) 0 count
        gradients hessians out = Some h.
Proof.
  intros Hd Hres Hbin Hcount Hok.
  pose proof Hok as (Hother & Hbins & [_ [Hlen Hids]] & Hgrad & Hhess & Hout).
  cbn [active_rows] in Hids. rewrite Z.sub_0_r, drop_0 in Hids.
  destruct (CopySubset_ReSize_rows other ids count d)
    as (s' & Hs' & Hfin' & Hn' & Hbin' & Hdata' & _ & Hrows'); [done..|].
  set (sub := take (Z.to_nat count) ids) in *.
  assert (Vec.size sub = count) as Hsub.
  { unfold sub, Vec.size in *. rewrite length_take. lia. }
  exists s'. eexists. split; [done|]. split.
  - apply Accumulate_spec_correct. unfold accumulate_ok.
    split; [done|]. split; [|split; [|split; [|split]]].
    + unfold bins_in_range. rewrite Hdata', Hbin', Hbin.
      apply Forall_concat, Forall_fmap, Forall_forall.
      intros r _. simpl. by apply Forall_row_slice.
    + split; [done|]. lia.
    + unfold Vec.size in *. rewrite length_gather. lia.
    + destruct hessians as [hs|]; [|done]. simpl.
      unfold Vec.size in *. rewrite length_gather. lia.
    + by rewrite Hbin', Hbin.
  - rewrite Accumulate_spec_correct by done. f_equal.
    cbn [active_rows]. rewrite !Z.sub_0_r, drop_0.
    assert (take (Z.to_nat count) ids
            = (λ j, default 0 (Vec.get ids j)) <$> seqZ 0 count) as ->
      by (by rewrite fmap_get_seqZ by lia).
    unfold Accumulate_spec.
    rewrite <- (foldl_fmap_l (add_row to_hist hadd one_f other gradients
                               hessians)).
    apply foldl_ext_in. intros o i Hi. apply elem_of_seqZ in Hi.
    destruct (Vec_get_is_Some ids i) as [r Hr]; [lia|]. rewrite Hr. simpl.
    assert (Vec.get sub i = Some r) as Hsubi.
    { apply Vec_get_Some in Hr as [? Hr]. apply Vec_get_Some.
      split; [done|]. unfold sub. rewrite lookup_take_lt by lia. done. }
    unfold add_row. rewrite (Hrows' i r) by (done || lia).
    f_equal. f_equal.
    + unfold gradient_of. by rewrite (get_gather _ _ _ _ _ Hsubi).
    + destruct hessians as [hs|]; [|done]. simpl.
      by rewrite (get_gather _ _ _ _ _ Hsubi).
Qed.

Lemma Accumulate_on_subset_copy_witness :
  finalized example_finalized
  ∧ reserve_ok (ReSize 2 example_finalized)
  ∧ num_bin_ example_finalized = num_bin_ example_finalized
  ∧ 0 ≤ 2
  ∧ accumulate_ok example_finalized (Indexed [2; 0]) 0 2 [10; 20; 30]
      (Some [1; 2; 3]) (replicate 16 0)
  ∧ ∃ s' h,
      CopySubset example_finalized [2; 0] 2 (ReSize 2 example_finalized)
      = Some s'
      ∧ Accumulate id Z.add 1 uint8_t s' Identity 0 2
          (gather 1 [10; 20; 30] (take (Z.to_nat 2) [2; 0]))
          ((λ hs, gather 1 hs (take (Z.to_nat 2) [2; 0])) <$> Some [1; 2; 3])
          (replicate 16 0) = Some h
      ∧ Accumulate id Z.add 1 uint8_t example_finalized (Indexed [2; 0]) 0 2
          [10; 20; 30] (Some [1; 2; 3]) (replicate 16 0) = Some h.
Proof.
  assert (finalized example_finalized) as Hfin
    by (apply (bool_decide_unpack _); vm_compute; exact I).
  assert (accumulate_ok example_finalized (Indexed [2; 0]) 0 2 [10; 20; 30]
            (Some [1; 2; 3]) (replicate 16 0)) as Hok
    by (apply (bool_decide_unpack _); vm_compute; exact I).
  assert (reserve_ok (ReSize 2 example_finalized)) as Hres
    by (apply (bool_decide_unpack _); vm_compute; exact I).
  split; [exact Hfin|]. split; [exact Hres|]. split; [reflexivity|].
  split; [lia|]. split; [exact Hok|].
  exact (Accumulate_on_subset_copy id Z.add 1 uint8_t example_finalized
           [2; 0] 2 example_finalized [10; 20; 30] (Some [1; 2; 3])
           (replicate 16 0) Hfin Hres eq_refl ltac:(lia) Hok).
Defined.

(** ** Rebinning into a sub-feature destination *)

(** X12. With at least 1024 rows per block, a thread buffer for every
    block but the first and room in every buffer for what its block emits,
    [CopySubFeature] is defined and the rows of the destination are the
    rows of the source passed through the filter: every value [v] is kept
    as [v - delta[k]] when [lower[k] <= v] for the first [k] with
    [v < upper[k]], and dropped otherwise. The offsets are those of the
    filtered rows, whatever the number of blocks; the store is exactly
    their concatenation when the destination has thread buffers. *)
Theorem CopySubFeature_filters_rows
    (VAL_T : VAL_T_kind) (num_threads : Z) (other : MultiValSparseBin)
    (lower upper delta : list Z) (s0 : MultiValSparseBin) :
  filter_ok other lower upper delta →
  dest_ok num_threads (rebin_row VAL_T lower upper delta <$> rows_of other) s0 →
  ∃ s',
    CopySubFeature VAL_T num_threads other lower upper delta s0 = Some s'
    ∧ num_data_ s' = num_data_ other
    ∧ rows_of s' = rebin_row VAL_T lower upper delta <$> rows_of other
    ∧ row_ptr_ s'
      = offsets_of (rebin_row VAL_T lower upper delta <$> rows_of other)
    ∧ (t_data_ s0 ≠ [] →
       data_ s' = concat (rebin_row VAL_T lower upper delta <$> rows_of other)).
Proof.
  intros Hok Hdest.
  destruct (CopySubFeature_spec VAL_T lower upper delta other Hok
              num_threads s0 Hdest)
    as (s' & Hs' & Hnum & Hrp & Htake & Hdata & _).
  pose proof Hdest as (Hrows & _). cbn zeta in Hrows.
  pose proof Hok as (Hfin & _).
  assert (num_data_ s0 = num_data_ other) as Hn.
  { rewrite Hrows. unfold Vec.size. rewrite length_fmap.
    apply (length_rows_of other Hfin). }
  exists s'. split; [done|]. split; [congruence|]. split; [|done].
  pose proof (take_drop
                (Z.to_nat (Vec.size (concat
                   (rebin_row VAL_T lower upper delta <$> rows_of other))))
                (data_ s')) as Hsplit.
  rewrite Htake in Hsplit.
  by apply (rows_of_layout s' _ _ Hrp (eq_sym Hsplit)); congruence.
Qed.

Lemma CopySubFeature_filters_rows_witness :
  filter_ok large_source [1] [4] [1]
  ∧ dest_ok 2 (rebin_row uint8_t [1] [4] [1] <$> rows_of large_source)
      (large_dest 1024 [replicate 16 0])
  ∧ ∃ s',
      CopySubFeature uint8_t 2 large_source [1] [4] [1]
        (large_dest 1024 [replicate 16 0]) = Some s'
      ∧ num_data_ s' = num_data_ large_source
      ∧ rows_of s' = rebin_row uint8_t [1] [4] [1] <$> rows_of large_source
      ∧ row_ptr_ s'
        = offsets_of (rebin_row uint8_t [1] [4] [1] <$> rows_of large_source)
      ∧ (t_data_ (large_dest 1024 [replicate 16 0]) ≠ [] →
         data_ s'
         = concat (rebin_row uint8_t [1] [4] [1] <$> rows_of large_source)).
Proof.
  assert (filter_ok large_source [1] [4] [1]) as Hok
    by (apply (bool_decide_unpack _); vm_compute; exact I).
  assert (dest_ok 2 (rebin_row uint8_t [1] [4] [1] <$> rows_of large_source)
            (large_dest 1024 [replicate 16 0])) as Hdest
    by (apply (bool_decide_unpack _); vm_compute; exact I).
  split; [exact Hok|]. split; [exact Hdest|].
  exact (CopySubFeature_filters_rows uint8_t 2 large_source [1] [4] [1]
           (large_dest 1024 [replicate 16 0]) Hok Hdest).
Defined.

(** X13. The full-range round trip. With at least 1024 rows per block and
    room in the buffers, the single filter [lower = 0], [upper = num_bin],
    [delta = 0] reproduces the source: the same offsets and rows, and the
    same store when the destination has thread buffers. *)
Theorem CopySubFeature_full_range_reproduces_source
    (VAL_T : VAL_T_kind) (num_threads : Z) (other s0 : MultiValSparseBin) :
  finalized other → bins_in_range other →
  num_bin_ other ≤ 2 ^ (8 * sizeof VAL_T) →
  dest_ok num_threads (rows_of other) s0 →
  ∃ s',
    CopySubFeature VAL_T num_threads other [0] [num_bin_ other] [0] s0 = Some s'
    ∧ row_ptr_ s' = row_ptr_ other
    ∧ rows_of s' = rows_of other
    ∧ (t_data_ s0 ≠ [] → data_ s' = data_ other).
Proof.
  intros Hfin Hbins Hbits Hdest.
  assert (∀ row, row ∈ rows_of other →
            rebin_row VAL_T [0] [num_bin_ other] [0] row = row
            ∧ in_range_order [num_bin_ other] row) as Hrows.
  { intros row (r & -> & _)%list_elem_of_fmap.
    apply rebin_row_full_range; [|done]. by apply Forall_row_slice. }
  assert (rebin_row VAL_T [0] [num_bin_ other] [0] <$> rows_of other
          = rows_of other) as Hsame.
  { rewrite <- (list_fmap_id (rows_of other)) at 2.
    apply list_fmap_ext. intros j row Hrow. apply Hrows.
    by eapply list_elem_of_lookup_2. }
  destruct (CopySubFeature_spec VAL_T [0] [num_bin_ other] [0] other)
    with (num_threads := num_threads) (s0 := s0)
    as (s' & Hs' & Hnum & Hrp & Htake & Hdata & _).
  { split; [done|]. split; [done|]. split; [done|].
    apply Forall_forall. intros row Hrow. by apply Hrows. }
  { by rewrite Hsame. }
  rewrite Hsame in *.
  destruct (finalized_layout other Hfin) as [Hl1 Hl2].
  pose proof Hdest as (Hlen & _). cbn zeta in Hlen.
  exists s'. split; [done|]. split; [congruence|]. split.
  - pose proof (take_drop (Z.to_nat (Vec.size (concat (rows_of other))))
                  (data_ s')) as Hsplit.
    rewrite Htake in Hsplit.
    by apply (rows_of_layout s' _ _ Hrp (eq_sym Hsplit)); congruence.
  - intros Hne. rewrite Hl2. by apply Hdata.
Qed.

Lemma CopySubFeature_full_range_reproduces_source_witness :
  finalized large_source
  ∧ bins_in_range large_source
  ∧ num_bin_ large_source ≤ 2 ^ (8 * sizeof uint8_t)
  ∧ dest_ok 2 (rows_of large_source) (large_dest 1024 [replicate 16 0])
  ∧ ∃ s',
      CopySubFeature uint8_t 2 large_source [0] [num_bin_ large_source] [0]
        (large_dest 1024 [replicate 16 0]) = Some s'
      ∧ row_ptr_ s' = row_ptr_ large_source
      ∧ rows_of s' = rows_of large_source
      ∧ (t_data_ (large_dest 1024 [replicate 16 0]) ≠ [] →
         data_ s' = data_ large_source).
Proof.
  assert (finalized large_source) as Hfin
    by (apply (bool_decide_unpack _); vm_compute; exact I).
  assert (bins_in_range large_source) as Hbins
    by (apply (bool_decide_unpack _); vm_compute; exact I).
  assert (dest_ok 2 (rows_of large_source) (large_dest 1024 [replicate 16 0]))
    as Hdest
    by (apply (bool_decide_unpack _); vm_compute; exact I).
  split; [exact Hfin|]. split; [exact Hbins|].
  split; [vm_compute; discriminate|]. split; [exact Hdest|].
  exact (CopySubFeature_full_range_reproduces_source uint8_t 2 large_source
           (large_dest 1024 [replicate 16 0]) Hfin Hbins
           ltac:(vm_compute; discriminate) Hdest).
Defined.

(** ** What [CopySubFeature] does not check *)

(** The filter writes into a buffer; it never resizes one. *)
Lemma filter_value_size VAL_T lower upper delta v buf bid k cnt
    buf' bid' k' cnt' :
  filter_value VAL_T lower upper delta v (buf, bid, k, cnt)
  = Some (buf', bid', k', cnt') →
  Vec.size buf' = Vec.size buf.
Proof.
  unfold filter_value. intros Hrun.
  destruct (advance upper v k) as [k1|]; [|done].
  cbn [mbind option_bind] in Hrun.
  destruct (Vec.get lower k1) as [l|]; [|done].
  cbn [mbind option_bind] in Hrun.
  destruct (decide (l ≤ v)); [|by simplify_eq].
  destruct (Vec.get delta k1) as [d|]; [|done].
  cbn [mbind option_bind] in Hrun. unfold Vec.set in Hrun.
  case_decide; [|done]. cbn [mbind option_bind] in Hrun. simplify_eq.
  by rewrite Vec_size_insert.
Qed.

Lemma filter_row_size VAL_T other lower upper delta j_start j_end buf bid
    buf' bid' k' cnt' :
  filter_row VAL_T other lower upper delta j_start j_end buf bid
  = Some (buf', bid', k', cnt') →
  Vec.size buf' = Vec.size buf.
Proof.
  unfold filter_row. intros Hrun.
  apply (for_range_Some_inv
           (λ st : list Z * Z * Z * Z, Vec.size st.1.1.1 = Vec.size buf))
    in Hrun; [done|done|].
  intros j [[[b1 i1] k1] c1] [[[b2 i2] k2] c2] _ Hsize Hbody.
  destruct (Vec.get (data_ other) j) as [v|]; [|done].
  cbn [mbind option_bind] in Hbody.
  apply filter_value_size in Hbody. simpl in *. congruence.
Qed.

(** A block leaves the row count and the size of every buffer as they
    were. *)
Lemma filter_block_keeps VAL_T other lower upper delta block_size tid st st' :
  filter_block VAL_T other lower upper delta block_size tid st = Some st' →
  num_data_ st'.1 = num_data_ st.1
  ∧ Vec.size <$> buffers st'.1 = Vec.size <$> buffers st.1.
Proof.
  destruct st as [s sizes]. unfold filter_block. intros Hrun.
  destruct (if decide (tid = 0) then Some (data_ s) else _) as [buf|] eqn:Hbuf;
    [|done].
  cbn [mbind option_bind] in Hrun.
  destruct (for_range _ _ _ _) as [[[buf' bid] rp]|] eqn:Hrows; [|done].
  cbn [mbind option_bind] in Hrun.
  assert (Vec.size buf' = Vec.size buf) as Hsize.
  { apply (for_range_Some_inv
             (λ st : list Z * Z * list Z, Vec.size st.1.1 = Vec.size buf))
      in Hrows; [done|done|].
    intros i [[b1 i1] r1] [[b2 i2] r2] _ Hb1 Hbody.
    destruct (RowPtr other i) as [j_start|]; [|done].
    cbn [mbind option_bind] in Hbody.
    destruct (RowPtr other (i + 1)) as [j_end|]; [|done].
    cbn [mbind option_bind] in Hbody.
    destruct (filter_row _ _ _ _ _ _ _ _ _) as [[[[b3 i3] k3] c3]|] eqn:Hrow;
      [|done].
    cbn [mbind option_bind] in Hbody.
    destruct (Vec.set r1 (i + 1) c3); [|done].
    cbn [mbind option_bind] in Hbody. simplify_eq.
    apply filter_row_size in Hrow. simpl in *. congruence. }
  destruct (Vec.set sizes tid bid) as [sizes1|]; [|done].
  cbn [mbind option_bind] in Hrun.
  destruct (decide (tid = 0)) as [->|Htid].
  - cbn [mbind option_bind] in Hrun. simplify_eq.
    unfold buffers. cbn [fst num_data_ data_ t_data_ set_row_ptr set_data].
    by rewrite !fmap_cons, Hsize.
  - unfold Vec.set in Hrun. case_decide as Hslot; [|done].
    cbn [fmap option_fmap option_map mbind option_bind] in Hrun.
    simplify_eq.
    unfold buffers. cbn [fst num_data_ data_ t_data_ set_row_ptr set_t_data].
    split; [done|]. rewrite !fmap_cons. f_equal.
    rewrite list_fmap_insert, Hsize. apply list_insert_id.
    apply Vec_get_Some in Hbuf as [_ Hbuf].
    by rewrite list_lookup_fmap, Hbuf.
Qed.

(** The loop over the blocks has no result when one block has none for
    every destination of the given row count and buffer sizes. *)
Lemma CopySubFeature_None VAL_T num_threads other lower upper delta s tid :
  let n_block := Z.min num_threads (num_data_ s `quot` 1024) in
  let block_size := (num_data_ s + n_block - 1) `quot` n_block in
  0 ≤ tid < n_block →
  (∀ s1 sizes, num_data_ s1 = num_data_ s →
     Vec.size <$> buffers s1 = Vec.size <$> buffers s →
     filter_block VAL_T other lower upper delta block_size tid (s1, sizes)
     = None) →
  CopySubFeature VAL_T num_threads other lower upper delta s = None.
Proof.
  intros n_block block_size Htid Hfail. unfold CopySubFeature, int_div.
  cbn zeta. fold n_block. rewrite decide_False by lia.
  cbn [mbind option_bind]. fold block_size.
  rewrite (for_range_None
             (λ st : MultiValSparseBin * list Z,
                num_data_ st.1 = num_data_ s
                ∧ Vec.size <$> buffers st.1 = Vec.size <$> buffers s))
    with (k := tid); [done|done| |done|].
  - intros j st st' _ [Hn Ht] Hrun.
    apply filter_block_keeps in Hrun as [-> ->]. done.
  - intros [s1 sizes] [Hn Ht]. by apply Hfail.
Qed.

(** X14. [CopySubFeature] does not create thread buffers: when the
    destination has fewer of them than the blocks need ([n_block - 1] for
    [n_block = min(num_threads, num_data_ / 1024)]), the call reads outside
    [t_data_] and has no defined result. A finalized or cloned structure
    has none, so it is no destination for two or more blocks. *)
Theorem CopySubFeature_undefined_without_thread_buffers
    (VAL_T : VAL_T_kind) (num_threads : Z) (other : MultiValSparseBin)
    (lower upper delta : list Z) (s : MultiValSparseBin) :
  Vec.size (t_data_ s) + 1 < Z.min num_threads (num_data_ s `quot` 1024) →
  CopySubFeature VAL_T num_threads other lower upper delta s = None.
Proof.
  intros Hfew. pose proof (Vec_size_nonneg (t_data_ s)).
  apply CopySubFeature_None with (tid := Vec.size (t_data_ s) + 1);
    cbn zeta; [lia|].
  intros s1 sizes _ Ht. unfold filter_block.
  rewrite decide_False by lia.
  assert (Vec.size (t_data_ s1) = Vec.size (t_data_ s)) as Hsize.
  { apply (f_equal length) in Ht. unfold buffers in Ht.
    rewrite !length_fmap in Ht. simpl in Ht. unfold Vec.size. lia. }
  by rewrite Vec_get_None by lia.
Qed.

Lemma CopySubFeature_undefined_without_thread_buffers_witness :
  Vec.size (t_data_ (ReSize 2048 (Clone (large_dest 0 [[]; []])))) + 1
  < Z.min 2 (num_data_ (ReSize 2048 (Clone (large_dest 0 [[]; []])))
             `quot` 1024)
  ∧ CopySubFeature uint8_t 2 large_source [0] [4] [0]
      (ReSize 2048 (Clone (large_dest 0 [[]; []])))
    = None.
Proof.
  split; [reflexivity|].
  apply (CopySubFeature_undefined_without_thread_buffers uint8_t 2
           large_source [0] [4] [0]
           (ReSize 2048 (Clone (large_dest 0 [[]; []])))).
  reflexivity.
Defined.

Lemma advance_from_None us v k :
  Forall (λ u, u ≤ v) us → advance_from us v k = None.
Proof.
  intros Hus. revert k. induction Hus as [|u us Hu _ IH]; intros k; [done|].
  cbn [advance_from]. by rewrite decide_True by done.
Qed.

Lemma advance_None upper v k :
  Forall (λ u, u ≤ v) upper → advance upper v k = None.
Proof.
  intros Hv. unfold advance. case_decide; [|done].
  by apply advance_from_None, Forall_drop.
Qed.

(** The loop over a row that holds a value no upper bound exceeds. *)
Lemma filter_row_None VAL_T other lower upper delta i v buf bid :
  finalized other → 0 ≤ i < num_data_ other →
  v ∈ row_slice other i →
  Forall (λ u, u ≤ v) upper →
  filter_row VAL_T other lower upper delta (RowIndex other i)
    (RowIndex other (i + 1)) buf bid = None.
Proof.
  intros Hfin Hi Hv Hup. unfold filter_row.
  destruct (finalized_row_bounds other Hfin i Hi) as [[Ha Hab] Hhi].
  apply list_elem_of_lookup in Hv as [p Hp]. unfold row_slice in Hp.
  apply lookup_take_Some in Hp as [Hp Hlt]. rewrite lookup_drop in Hp.
  apply (for_range_None (λ _, True))
    with (k := RowIndex other i + Z.of_nat p); [done|done|lia|].
  intros [[[buf' bid'] k] cnt] _.
  assert (Vec.get (data_ other) (RowIndex other i + Z.of_nat p) = Some v)
    as ->.
  { apply Vec_get_Some. split; [lia|]. rewrite <- Hp. f_equal. lia. }
  cbn [mbind option_bind]. unfold filter_value.
  by rewrite advance_None.
Qed.

(** X15. [CopySubFeature] does not check values against the bounds: when a
    row that is copied holds a value that no entry of [upper] exceeds, the
    cursor [k] runs off the end of [upper] and the call has no defined
    result. *)
Theorem CopySubFeature_undefined_above_upper_bounds
    (VAL_T : VAL_T_kind) (num_threads : Z) (other : MultiValSparseBin)
    (lower upper delta : list Z) (s : MultiValSparseBin) (i v : Z) :
  finalized other →
  1 ≤ num_threads →
  0 ≤ i < num_data_ s → i < num_data_ other →
  v ∈ row_slice other i →
  Forall (λ u, u ≤ v) upper →
  CopySubFeature VAL_T num_threads other lower upper delta s = None.
Proof.
  intros Hfin Hnt Hi Hio Hv Hup.
  destruct (decide (num_data_ s < 1024)) as [Hfew|Hmany].
  { by apply CopySubFeature_few_rows; [|lia]. }
  assert (1024 ≤ num_data_ s) as Hn by lia.
  assert (1 ≤ num_data_ s `quot` 1024) as Hq
    by (apply Z.quot_le_lower_bound; lia).
  set (n_block := Z.min num_threads (num_data_ s `quot` 1024)).
  set (block_size := (num_data_ s + n_block - 1) `quot` n_block).
  destruct (blocks_partition_rows (num_data_ s) n_block i)
    as [(Htid & Hlo & Hhi) _]; [lia|lia|].
  fold block_size in Htid, Hlo, Hhi.
  apply CopySubFeature_None with (tid := i `div` block_size);
    cbn zeta; fold n_block block_size; [done|].
  intros s1 sizes Hn1 _. unfold filter_block.
  destruct (if decide (i `div` block_size = 0) then Some (data_ s1) else _)
    as [buf|]; [|done].
  cbn [mbind option_bind]. rewrite Hn1.
  rewrite (for_range_None (λ _, True)) with (k := i);
    [done|done|done|lia|].
  intros [[buf' bid] rp] _.
  rewrite !(finalized_RowPtr other Hfin) by lia. cbn [mbind option_bind].
  by rewrite (filter_row_None VAL_T other lower upper delta i v)
    by (done || lia).
Qed.

Lemma CopySubFeature_undefined_above_upper_bounds_witness :
  finalized large_source
  ∧ 1 ≤ 2
  ∧ 0 ≤ 3 < num_data_ (large_dest 1024 [replicate 16 0])
  ∧ 3 < num_data_ large_source
  ∧ 3 ∈ row_slice large_source 3
  ∧ Forall (λ u, u ≤ 3) [1; 3]
  ∧ CopySubFeature uint8_t 2 large_source [0; 1] [1; 3] [0; 0]
      (large_dest 1024 [replicate 16 0])
    = None.
Proof.
  assert (finalized large_source) as Hfin
    by (apply (bool_decide_unpack _); vm_compute; exact I).
  assert (3 ∈ row_slice large_source 3) as Hin
    by (apply (bool_decide_unpack _); vm_compute; exact I).
  assert (Forall (λ u, u ≤ 3) [1; 3]) as Hup
    by (apply (bool_decide_unpack _); vm_compute; exact I).
  split; [exact Hfin|]. split; [lia|].
  split; [vm_compute; split; [discriminate|reflexivity]|].
  split; [reflexivity|]. split; [exact Hin|]. split; [exact Hup|].
  exact (CopySubFeature_undefined_above_upper_bounds uint8_t 2 large_source
           [0; 1] [1; 3] [0; 0] (large_dest 1024 [replicate 16 0]) 3 3
           Hfin ltac:(lia)
           ltac:(vm_compute; split; [discriminate|reflexivity])
           eq_refl Hin Hup).
Defined.

(** ** Clones, resized structures and destinations *)

(** The histogram calls read the offsets and the store, nothing else. *)
Lemma Accumulate_ext {score_t hist_t : Type} (to_hist : score_t → hist_t)
    (hadd : hist_t → hist_t → hist_t) (one_f : score_t) (VAL_T : VAL_T_kind)
    (s1 s2 : MultiValSparseBin) (sel : row_selector) (start end_ : Z)
    (gradients : list score_t) (hessians : option (list score_t))
    (out : list hist_t) :
  row_ptr_ s1 = row_ptr_ s2 → data_ s1 = data_ s2 →
  Accumulate to_hist hadd one_f VAL_T s1 sel start end_ gradients hessians out
  = Accumulate to_hist hadd one_f VAL_T s2 sel start end_ gradients hessians
      out.
Proof.
  intros Hrp Hd.
  destruct sel, hessians;
    unfold Accumulate, ConstructHistogram_indexed_hessians,
      ConstructHistogram_range_hessians, ConstructHistogram_indexed,
      ConstructHistogram_range, ConstructHistogramInner, accumulate_row,
      RowPtr;
    by rewrite Hrp, Hd.
Qed.

Lemma rows_of_ext (s1 s2 : MultiValSparseBin) :
  num_data_ s1 = num_data_ s2 → row_ptr_ s1 = row_ptr_ s2 →
  data_ s1 = data_ s2 → rows_of s1 = rows_of s2.
Proof.
  intros Hn Hrp Hd. unfold rows_of. rewrite Hn. apply list_fmap_ext.
  intros i r _. unfold row_slice, RowIndex, RowPtr. by rewrite Hrp, Hd.
Qed.

(** X16. [Clone] copies the row count, the bin count, the density hint,
    the offsets and the store, and no thread buffer: the clone has the rows
    of the original, every histogram call returns on it what it returns on
    the original, and the clone of a finalized structure is an equal
    structure. *)
Theorem Clone_keeps_rows_and_histograms (s : MultiValSparseBin) :
  num_data_ (Clone s) = num_data_ s
  ∧ num_bin_ (Clone s) = num_bin_ s
  ∧ estimate_element_per_row_ (Clone s) = estimate_element_per_row_ s
  ∧ row_ptr_ (Clone s) = row_ptr_ s
  ∧ data_ (Clone s) = data_ s
  ∧ t_data_ (Clone s) = []
  ∧ rows_of (Clone s) = rows_of s
  ∧ (finalized s → Clone s = s)
  ∧ ∀ (score_t hist_t : Type) (to_hist : score_t → hist_t)
      (hadd : hist_t → hist_t → hist_t) (one_f : score_t) (VAL_T : VAL_T_kind)
      (sel : row_selector) (start end_ : Z) (gradients : list score_t)
      (hessians : option (list score_t)) (out : list hist_t),
      Accumulate to_hist hadd one_f VAL_T (Clone s) sel start end_ gradients
        hessians out
      = Accumulate to_hist hadd one_f VAL_T s sel start end_ gradients
          hessians out.
Proof.
  do 6 (split; [done|]). split; [by apply rows_of_ext|]. split.
  - intros (_ & _ & _ & _ & Ht). destruct s as [n b e d rp t].
    simpl in Ht. subst t. done.
  - intros. by apply Accumulate_ext.
Qed.



(** The loop of [ReSizeForSubFeature] over the thread buffers: every buffer
    is resized to its capacity. *)
Lemma resize_buffers_loop (capacity : Z → Z) (t : list (list Z)) :
  (∀ i, 0 ≤ i → 0 ≤ capacity i) →
  for_range 0 (Vec.size t) (λ i t,
    buf ← Vec.get t i;
    buf ← Vec.resize buf (capacity i) 0;
    Vec.set t i buf) t
  = Some (imap (λ i buf,
                  list.resize (Z.to_nat (capacity (Z.of_nat i))) 0 buf) t).
Proof.
  intros Hcap.
  set (f := λ (i : nat) (buf : list Z),
              list.resize (Z.to_nat (capacity (Z.of_nat i))) 0 buf).
  loop_inv (λ j (u : list (list Z)),
              u = take (Z.to_nat j) (imap f t) ++ drop (Z.to_nat j) t)
    t' Ht'.
  - apply Vec_size_nonneg.
  - done.
  - intros j u Hj ->. unfold Vec.size in Hj.
    destruct (lookup_lt_is_Some_2 t (Z.to_nat j)) as [buf Hbuf]; [lia|].
    assert (length (take (Z.to_nat j) (imap f t)) = Z.to_nat j) as Hlen
      by (rewrite length_take, length_imap; lia).
    assert (Vec.get (take (Z.to_nat j) (imap f t) ++ drop (Z.to_nat j) t) j
            = Some buf) as ->.
    { apply Vec_get_Some. split; [lia|].
      rewrite lookup_app_r by lia. rewrite Hlen, Nat.sub_diag, lookup_drop.
      by rewrite Nat.add_0_r. }
    cbn [mbind option_bind]. unfold Vec.resize.
    rewrite decide_True by (apply Hcap; lia). cbn [mbind option_bind].
    rewrite Vec_set_Some
      by (unfold Vec.size; rewrite length_app, Hlen, length_drop; lia).
    eexists. split; [done|].
    replace (Z.to_nat (j + 1)) with (S (Z.to_nat j)) by lia.
    rewrite (take_S_r (imap f t) (Z.to_nat j) (f (Z.to_nat j) buf))
      by (by rewrite list_lookup_imap, Hbuf).
    rewrite <- app_assoc. cbn [app].
    rewrite insert_app_r_alt by lia. rewrite Hlen, Nat.sub_diag.
    rewrite (drop_S t buf (Z.to_nat j)) by done.
    unfold f. by rewrite Z2Nat.id by lia.
  - subst t'. f_equal. unfold Vec.size. rewrite Nat2Z.id.
    rewrite drop_all, app_nil_r. apply take_ge. by rewrite length_imap.
Qed.

(** [CreateLike] in closed form. *)
Lemma CreateLike_spec num_threads cap num_bin num_features fraction s :
  0 ≤ capacity_data cap → (∀ i, 0 ≤ i → 0 ≤ capacity_t_data cap i) →
  CreateLike num_threads cap num_bin num_features fraction s
  = Some {| num_data_ := num_data_ s;
            num_bin_ := num_bin;
            estimate_element_per_row_ :=
              double_mul (estimate_element_per_row_ s) fraction;
            data_ := replicate (Z.to_nat (capacity_data cap)) 0;
            row_ptr_ := replicate (Z.to_nat (num_data_ s + 1)) 0;
            t_data_ := (λ i, replicate (Z.to_nat (capacity_t_data cap i)) 0)
                       <$> seqZ 0 (Z.max 1 num_threads - 1) |}.
Proof.
  intros Hd Ht. unfold CreateLike, ReSizeForSubFeature.
  cbn [data_ set_num_bin new_MultiValSparseBin]. rewrite decide_True by done.
  assert (Vec.resize ([] : list Z) (capacity_data cap) 0
          = Some (replicate (Z.to_nat (capacity_data cap)) 0)) as ->.
  { unfold Vec.resize. rewrite decide_True by done. by rewrite resize_nil. }
  cbn [mbind option_bind t_data_]. rewrite resize_buffers_loop by done.
  cbn [mbind option_bind]. unfold set_t_data, set_data.
  cbn [num_data_ num_bin_ estimate_element_per_row_ data_ row_ptr_ t_data_
       set_num_bin new_MultiValSparseBin].
  do 2 f_equal.
  apply list_eq. intros k. rewrite list_lookup_imap, list_lookup_fmap.
  destruct (decide (Z.of_nat k < Z.max 1 num_threads - 1)) as [Hk|Hk].
  - rewrite lookup_seqZ_lt by lia. destruct (decide (1 < num_threads)); [|lia].
    rewrite lookup_replicate_2 by lia. simpl.
    by rewrite resize_nil, Z.add_0_l.
  - rewrite lookup_seqZ_ge by lia.
    destruct (decide (1 < num_threads)); [|done].
    assert (replicate (Z.to_nat (num_threads - 1)) ([] : list Z) !! k = None)
      as -> by (apply lookup_replicate_None; lia).
    done.
Qed.

(** X18. [ReSizeForSubFeature] sets the bin count and keeps the row count,
    the offsets and the density hint. A structure that holds values is
    otherwise untouched; on one whose primary buffer is empty, the primary
    buffer becomes [capacity()] zeros and every thread buffer is extended
    by zeros to its capacity. *)
Theorem ReSizeForSubFeature_fills_empty_buffers
    (cap : capacities) (num_bin num_features : Z) (s : MultiValSparseBin) :
  0 ≤ capacity_data cap → (∀ i, 0 ≤ i → 0 ≤ capacity_t_data cap i) →
  ∃ s',
    ReSizeForSubFeature cap num_bin num_features s = Some s'
    ∧ num_bin_ s' = num_bin
    ∧ num_data_ s' = num_data_ s
    ∧ row_ptr_ s' = row_ptr_ s
    ∧ estimate_element_per_row_ s' = estimate_element_per_row_ s
    ∧ (data_ s ≠ [] → data_ s' = data_ s ∧ t_data_ s' = t_data_ s)
    ∧ (data_ s = [] →
       data_ s' = replicate (Z.to_nat (capacity_data cap)) 0
       ∧ Vec.size (t_data_ s') = Vec.size (t_data_ s)
       ∧ ∀ i buf, Vec.get (t_data_ s) i = Some buf →
           Vec.size buf ≤ capacity_t_data cap i →
           Vec.get (t_data_ s') i
           = Some (buf ++ replicate
                            (Z.to_nat (capacity_t_data cap i - Vec.size buf))
                            0)).
Proof.
  intros Hd Ht. unfold ReSizeForSubFeature.
  cbn [data_ t_data_ set_num_bin].
  destruct (decide (data_ s = [])) as [Hempty|Hfull].
  - assert (Vec.resize (data_ s) (capacity_data cap) 0
            = Some (replicate (Z.to_nat (capacity_data cap)) 0)) as ->.
    { unfold Vec.resize. rewrite decide_True by done.
      by rewrite Hempty, resize_nil. }
    cbn [mbind option_bind]. rewrite resize_buffers_loop by done.
    cbn [mbind option_bind]. eexists. split; [done|].
    cbn [num_data_ num_bin_ estimate_element_per_row_ data_ row_ptr_ t_data_
         set_t_data set_data].
    split; [done|]. split; [done|]. split; [done|]. split; [done|].
    split; [done|]. intros _.
    split; [done|]. split; [unfold Vec.size; by rewrite length_imap|].
    intros i buf [Hi Hbuf]%Vec_get_Some Hroom. apply Vec_get_Some.
    split; [done|]. rewrite list_lookup_imap, Hbuf. simpl.
    rewrite Z2Nat.id by done. f_equal. unfold Vec.size in *.
    rewrite resize_ge by lia. do 2 f_equal. lia.
  - eexists. split; [done|]. cbn [num_data_ num_bin_
      estimate_element_per_row_ data_ row_ptr_ t_data_].
    by repeat split.
Qed.

Lemma ReSizeForSubFeature_fills_empty_buffers_witness :
  0 ≤ capacity_data (mkCapacities 3 (λ _, 2))
  ∧ (∀ i, 0 ≤ i → 0 ≤ capacity_t_data (mkCapacities 3 (λ _, 2)) i)
  ∧ ∃ s',
      ReSizeForSubFeature (mkCapacities 3 (λ _, 2)) 5 1
        (new_MultiValSparseBin 2 3 8 (Finite 1)) = Some s'
      ∧ num_bin_ s' = 5
      ∧ num_data_ s' = num_data_ (new_MultiValSparseBin 2 3 8 (Finite 1))
      ∧ row_ptr_ s' = row_ptr_ (new_MultiValSparseBin 2 3 8 (Finite 1))
      ∧ estimate_element_per_row_ s'
        = estimate_element_per_row_ (new_MultiValSparseBin 2 3 8 (Finite 1))
      ∧ (data_ (new_MultiValSparseBin 2 3 8 (Finite 1)) ≠ [] →
         data_ s' = data_ (new_MultiValSparseBin 2 3 8 (Finite 1))
         ∧ t_data_ s' = t_data_ (new_MultiValSparseBin 2 3 8 (Finite 1)))
      ∧ (data_ (new_MultiValSparseBin 2 3 8 (Finite 1)) = [] →
         data_ s'
         = replicate (Z.to_nat (capacity_data (mkCapacities 3 (λ _, 2)))) 0
         ∧ Vec.size (t_data_ s')
           = Vec.size (t_data_ (new_MultiValSparseBin 2 3 8 (Finite 1)))
         ∧ ∀ i buf,
             Vec.get (t_data_ (new_MultiValSparseBin 2 3 8 (Finite 1))) i
             = Some buf →
             Vec.size buf ≤ capacity_t_data (mkCapacities 3 (λ _, 2)) i →
             Vec.get (t_data_ s') i
             = Some (buf ++ replicate
                              (Z.to_nat
                                 (capacity_t_data (mkCapacities 3 (λ _, 2)) i
                                  - Vec.size buf)) 0)).
Proof.
  split; [simpl; lia|]. split; [intros; simpl; lia|].
  apply (ReSizeForSubFeature_fills_empty_buffers (mkCapacities 3 (λ _, 2)) 5 1
           (new_MultiValSparseBin 2 3 8 (Finite 1)));
    [simpl; lia|intros; simpl; lia].
Defined.

(** X19. The sub-feature protocol. For a source of at least 1024 rows,
    [CreateLike] yields an empty destination of the source's row count, and
    [CopySubFeature] into it is defined and leaves the filtered rows of the
    source, provided every buffer's capacity holds what its block emits:
    the buffers are never grown after [CreateLike]. *)
Theorem CreateLike_then_CopySubFeature
    (VAL_T : VAL_T_kind) (num_threads : Z) (cap : capacities)
    (num_bin num_features : Z) (fraction : double)
    (other : MultiValSparseBin) (lower upper delta : list Z) :
  filter_ok other lower upper delta →
  1 ≤ num_threads → 1024 ≤ num_data_ other →
  0 ≤ capacity_data cap → (∀ i, 0 ≤ i → 0 ≤ capacity_t_data cap i) →
  (let rows := rebin_row VAL_T lower upper delta <$> rows_of other in
   let n_block := Z.min num_threads (num_data_ other `quot` 1024) in
   let block_size := (num_data_ other + n_block - 1) `quot` n_block in
   Forall (λ tid, Vec.size (concat (block_rows block_size tid rows))
                  ≤ capacity_of cap tid) (seqZ 0 n_block)) →
  ∃ d s',
    CreateLike num_threads cap num_bin num_features fraction other = Some d
    ∧ num_data_ d = num_data_ other
    ∧ Forall (λ x, x = 0) (row_ptr_ d)
    ∧ CopySubFeature VAL_T num_threads other lower upper delta d = Some s'
    ∧ num_data_ s' = num_data_ other
    ∧ rows_of s' = rebin_row VAL_T lower upper delta <$> rows_of other.
Proof.
  intros Hok Hnt Hn Hcd Hct Hroom. cbn zeta in Hroom.
  pose proof Hok as (Hfin & _).
  eexists. 
  assert (1 ≤ num_data_ other `quot` 1024) as Hq
    by (apply Z.quot_le_lower_bound; lia).
  set (d := mkMultiValSparseBin (num_data_ other) num_bin
              (double_mul (estimate_element_per_row_ other) fraction)
              (replicate (Z.to_nat (capacity_data cap)) 0)
              (replicate (Z.to_nat (num_data_ other + 1)) 0)
              ((λ i, replicate (Z.to_nat (capacity_t_data cap i)) 0)
               <$> seqZ 0 (Z.max 1 num_threads - 1))).
  assert (dest_ok num_threads
            (rebin_row VAL_T lower upper delta <$> rows_of other) d) as Hdest.
  { unfold dest_ok, buffer_of, d. cbn zeta. cbn [num_data_ row_ptr_ data_ t_data_].
    split; [|split; [|split; [|split]]].
    - unfold Vec.size. rewrite length_fmap.
      symmetry. apply (length_rows_of other Hfin).
    - unfold Vec.size. rewrite length_replicate. lia.
    - apply Vec_get_Some. split; [done|]. apply lookup_replicate_2. lia.
    - lia.
    - rewrite Forall_forall in Hroom. apply Forall_forall.
      intros tid Htid. specialize (Hroom tid Htid).
      apply elem_of_seqZ in Htid. unfold capacity_of in *.
      destruct (decide (tid = 0)) as [->|Hne].
      + unfold Vec.size at 2. rewrite length_replicate. lia.
      + assert (Vec.get ((λ i, replicate (Z.to_nat (capacity_t_data cap i)) 0)
                         <$> seqZ 0 (Z.max 1 num_threads - 1)) (tid - 1)
                = Some (replicate (Z.to_nat (capacity_t_data cap (tid - 1))) 0))
          as ->.
        { assert (0 < tid < num_threads) as Hrange by lia.
          apply Vec_get_Some. split; [lia|].
          rewrite list_lookup_fmap, lookup_seqZ_lt by lia. simpl.
          repeat f_equal. lia. }
        unfold Vec.size at 2. rewrite length_replicate.
        pose proof (Hct (tid - 1)). lia. }
  destruct (CopySubFeature_spec VAL_T lower upper delta other Hok
              num_threads d Hdest)
    as (s' & Hs' & Hnum & Hrp & Htake & _).
  exists s'. split; [by apply CreateLike_spec|]. fold d.
  split; [done|]. split; [apply Forall_replicate; done|].
  split; [done|]. split; [done|].
  pose proof (take_drop
                (Z.to_nat (Vec.size (concat
                   (rebin_row VAL_T lower upper delta <$> rows_of other))))
                (data_ s')) as Hsplit.
  rewrite Htake in Hsplit.
  apply (rows_of_layout s' _ _ Hrp (eq_sym Hsplit)).
  rewrite Hnum. unfold Vec.size. rewrite length_fmap.
  symmetry. apply (length_rows_of other Hfin).
Qed.

Lemma CreateLike_then_CopySubFeature_witness :
  filter_ok large_source [1] [4] [1]
  ∧ 1 ≤ 2
  ∧ 1024 ≤ num_data_ large_source
  ∧ 0 ≤ capacity_data (mkCapacities 800 (λ _, 16))
  ∧ (∀ i, 0 ≤ i → 0 ≤ capacity_t_data (mkCapacities 800 (λ _, 16)) i)
  ∧ (let rows := rebin_row uint8_t [1] [4] [1] <$> rows_of large_source in
     let n_block := Z.min 2 (num_data_ large_source `quot` 1024) in
     let block_size :=
       (num_data_ large_source + n_block - 1) `quot` n_block in
     Forall (λ tid, Vec.size (concat (block_rows block_size tid rows))
                    ≤ capacity_of (mkCapacities 800 (λ _, 16)) tid)
       (seqZ 0 n_block))
  ∧ ∃ d s',
      CreateLike 2 (mkCapacities 800 (λ _, 16)) 3 1 (Finite 1) large_source
      = Some d
      ∧ num_data_ d = num_data_ large_source
      ∧ Forall (λ x, x = 0) (row_ptr_ d)
      ∧ CopySubFeature uint8_t 2 large_source [1] [4] [1] d = Some s'
      ∧ num_data_ s' = num_data_ large_source
      ∧ rows_of s' = rebin_row uint8_t [1] [4] [1] <$> rows_of large_source.
Proof.
  assert (filter_ok large_source [1] [4] [1]) as Hok
    by (apply (bool_decide_unpack _); vm_compute; exact I).
  assert (let rows := rebin_row uint8_t [1] [4] [1] <$> rows_of large_source in
          let n_block := Z.min 2 (num_data_ large_source `quot` 1024) in
          let block_size :=
            (num_data_ large_source + n_block - 1) `quot` n_block in
          Forall (λ tid, Vec.size (concat (block_rows block_size tid rows))
                         ≤ capacity_of (mkCapacities 800 (λ _, 16)) tid)
            (seqZ 0 n_block)) as Hroom
    by (cbn zeta; apply (bool_decide_unpack _); vm_compute; exact I).
  split; [exact Hok|]. split; [lia|]. split; [vm_compute; discriminate|].
  split; [simpl; lia|]. split; [intros; simpl; lia|]. split; [exact Hroom|].
  exact (CreateLike_then_CopySubFeature uint8_t 2 (mkCapacities 800 (λ _, 16))
           3 1 (Finite 1) large_source [1] [4] [1] Hok ltac:(lia)
           ltac:(vm_compute; discriminate) ltac:(simpl; lia)
           ltac:(intros; simpl; lia) Hroom).
Defined.

(** What holds at every index of a loop that ends holds at its end. *)
Lemma for_loop_Some_run {St : Type} (I : Z → St → Prop)
    (body : Z → St → option St) (n : nat) (i : Z) (s s' : St) :
  I i s →
  (∀ j t t', i ≤ j < i + Z.of_nat n → I j t → body j t = Some t' →
     I (j + 1) t') →
  for_loop n i body s = Some s' → I (i + Z.of_nat n) s'.
Proof.
  revert i s. induction n as [|n IH]; intros i s Hs Hstep Hrun.
  - cbn in Hrun. simplify_eq. by replace (i + Z.of_nat 0) with i by lia.
  - cbn [for_loop] in Hrun. destruct (body i s) as [t|] eqn:E; [|done].
    cbn [mbind option_bind] in Hrun.
    replace (i + Z.of_nat (S n)) with (i + 1 + Z.of_nat n) by lia.
    apply (IH (i + 1) t); [| |done].
    + apply (Hstep i s); [lia|done|done].
    + intros j u u' Hj. apply Hstep. lia.
Qed.

Lemma for_range_Some_run {St : Type} (I : Z → St → Prop)
    (body : Z → St → option St) (lo hi : Z) (s s' : St) :
  lo ≤ hi → I lo s →
  (∀ j t t', lo ≤ j < hi → I j t → body j t = Some t' → I (j + 1) t') →
  for_range lo hi body s = Some s' → I hi s'.
Proof.
  intros Hle Hs Hstep Hrun. unfold for_range in Hrun.
  apply (for_loop_Some_run I) in Hrun; [|done|].
  - by replace (lo + Z.of_nat (Z.to_nat (hi - lo))) with hi in Hrun by lia.
  - intros j t t' Hj. apply Hstep. lia.
Qed.

Section FilterRoom.

Variable VAL_T : VAL_T_kind.
Variables lower upper delta : list Z.

Local Abbreviation rebin_value := (rebin_value VAL_T lower upper delta).
Local Abbreviation rebin_row := (rebin_row VAL_T lower upper delta).
Local Abbreviation filter_value := (filter_value VAL_T lower upper delta).

(** One value that is filtered without fault: what it emits fits the
    buffer. *)
Lemma filter_value_Some v buf bid k cnt buf' bid' k' cnt' :
  is_Some (advance upper v 0) → 0 ≤ k ≤ first_range upper v →
  filter_value v (buf, bid, k, cnt) = Some (buf', bid', k', cnt') →
  bid' = bid + Vec.size (rebin_value v)
  ∧ k' = first_range upper v
  ∧ (bid ≤ Vec.size buf → bid' ≤ Vec.size buf).
Proof.
  intros Hsome Hk Hrun. unfold filter_value in Hrun.
  rewrite advance_first_range in Hrun by done.
  cbn [mbind option_bind] in Hrun.
  destruct (Vec.get lower (first_range upper v)) as [l|] eqn:Hl; [|done].
  assert (Vec.size (rebin_value v) = if decide (l ≤ v) then 1 else 0) as ->.
  { unfold rebin_value. cbn zeta. rewrite Hl. simpl. by case_decide. }
  cbn [mbind option_bind] in Hrun.
  destruct (decide (l ≤ v)).
  - destruct (Vec.get delta (first_range upper v)) as [d|]; [|done].
    cbn [mbind option_bind] in Hrun. unfold Vec.set in Hrun.
    case_decide; [|done]. cbn [mbind option_bind] in Hrun. simplify_eq.
    split; [done|]. split; [done|]. lia.
  - simplify_eq. split; [lia|]. split; [done|]. lia.
Qed.

Lemma filter_fold_Some row buf bid k cnt buf' bid' k' cnt' :
  Forall (λ v, match list.last upper with Some u => v < u | None => False end)
    row →
  0 ≤ k → Sorted Z.le (k :: (first_range upper <$> row)) →
  fold_opt filter_value row (buf, bid, k, cnt) = Some (buf', bid', k', cnt') →
  bid' = bid + Vec.size (rebin_row row)
  ∧ (bid ≤ Vec.size buf → bid' ≤ Vec.size buf).
Proof.
  revert buf bid k cnt. induction row as [|v row IH];
    intros buf bid k cnt Hbelow Hk Hsorted Hrun.
  - cbn [fold_opt] in Hrun. simplify_eq.
    change (rebin_row []) with ([] : list Z). unfold Vec.size at 1. simpl.
    split; [lia|done].
  - apply Forall_cons in Hbelow as [Hv Hbelow].
    rewrite fmap_cons in Hsorted.
    apply Sorted_inv in Hsorted as [Hsorted Hhd]. apply HdRel_inv in Hhd.
    cbn [fold_opt] in Hrun.
    destruct (filter_value v (buf, bid, k, cnt))
      as [[[[buf1 bid1] k1] cnt1]|] eqn:Hone; [|done].
    cbn [mbind option_bind] in Hrun.
    pose proof (filter_value_size _ _ _ _ _ _ _ _ _ _ _ _ _ Hone) as Hsize.
    apply filter_value_Some in Hone as (-> & -> & Hfit);
      [|by apply below_last_is_Some|lia].
    apply IH in Hrun as [-> Hfit']; [|done|apply first_range_nonneg|done].
    rewrite rebin_row_cons, Vec_size_app. split; [lia|].
    intros Hbid. rewrite Hsize in Hfit'. apply Hfit'. by apply Hfit.
Qed.

Variable other : MultiValSparseBin.
Hypothesis Hok : filter_ok other lower upper delta.

Local Abbreviation rebinned := (rebin_row <$> rows_of other).

Lemma filter_row_Some i buf bid buf' bid' k' cnt' :
  0 ≤ i < num_data_ other →
  filter_row VAL_T other lower upper delta (RowIndex other i)
    (RowIndex other (i + 1)) buf bid = Some (buf', bid', k', cnt') →
  bid' = bid + Vec.size (rebin_row (row_slice other i))
  ∧ (bid ≤ Vec.size buf → bid' ≤ Vec.size buf).
Proof.
  intros Hi Hrun. pose proof Hok as (Hfin & _ & _ & Hrows).
  destruct (finalized_row_bounds other Hfin i Hi) as [[Ha Hab] Hb].
  unfold filter_row in Hrun. rewrite for_range_get_fold in Hrun by lia.
  fold (row_slice other i) in Hrun.
  rewrite Forall_lookup in Hrows.
  destruct (Hrows _ _ (lookup_rows_of other i Hi)) as [Hbelow Hsorted].
  apply filter_fold_Some in Hrun; [done|done|done|].
  constructor; [done|].
  destruct (row_slice other i) as [|v row]; constructor.
  apply first_range_nonneg.
Qed.

(** The loop over the rows [start, end) of a block, when it ends: the
    rows it emitted fit the buffer. *)
Lemma filter_block_rows_Some start end_ buf0 rp0 buf bid rp :
  0 ≤ start → start ≤ end_ → end_ ≤ num_data_ other →
  for_range start end_ (λ i '(buf, bid, rp),
    j_start ← RowPtr other i;
    j_end ← RowPtr other (i + 1);
    '(buf, bid, _, cur_cnt) ←
      filter_row VAL_T other lower upper delta j_start j_end buf bid;
    rp ← Vec.set rp (i + 1) cur_cnt;
    Some (buf, bid, rp)) (buf0, 0, rp0)
  = Some (buf, bid, rp) →
  Vec.size (concat (take (Z.to_nat (end_ - start))
                      (drop (Z.to_nat start) rebinned)))
  ≤ Vec.size buf0.
Proof.
  intros Hstart Hle Hend Hrun. pose proof Hok as (Hfin & _).
  set (blk := drop (Z.to_nat start) rebinned) in *.
  assert (∀ i, start ≤ i < end_ →
            blk !! Z.to_nat (i - start)
            = Some (rebin_row (row_slice other i))) as Hblk.
  { intros i Hi. unfold blk.
    rewrite lookup_drop, <- (lookup_rebinned VAL_T lower upper delta other Hok)
      by lia.
    f_equal. lia. }
  apply (for_range_Some_run
           (λ i (st : list Z * Z * list Z),
              st.1.2 = Vec.size (concat (take (Z.to_nat (i - start)) blk))
              ∧ Vec.size st.1.1 = Vec.size buf0
              ∧ st.1.2 ≤ Vec.size buf0)) in Hrun.
  - destruct Hrun as (Hbid & _ & Hfit). simpl in *. lia.
  - done.
  - simpl. rewrite Z.sub_diag. simpl. pose proof (Vec_size_nonneg buf0).
    unfold Vec.size at 1. simpl. lia.
  - intros i [[b1 i1] r1] [[b2 i2] r2] Hi (Hbid & Hsize & Hfit) Hbody.
    simpl in Hbid, Hsize, Hfit.
    rewrite !(finalized_RowPtr other Hfin) in Hbody by lia.
    cbn [mbind option_bind] in Hbody.
    destruct (filter_row _ _ _ _ _ _ _ _ _) as [[[[b3 i3] k3] c3]|] eqn:Hrow;
      [|done].
    cbn [mbind option_bind] in Hbody.
    destruct (Vec.set r1 (i + 1) c3); [|done].
    cbn [mbind option_bind] in Hbody. simplify_eq.
    pose proof (filter_row_size _ _ _ _ _ _ _ _ _ _ _ _ _ Hrow) as Hsize3.
    apply filter_row_Some in Hrow as [-> Hfit3]; [|lia].
    simpl.
    replace (Z.to_nat (i + 1 - start)) with (S (Z.to_nat (i - start))) by lia.
    rewrite (take_S_concat _ _ _ (Hblk i Hi)), Vec_size_app.
    split; [lia|]. split; [congruence|].
    rewrite <- Hsize. apply Hfit3. lia.
Qed.

End FilterRoom.

Lemma buffer_of_buffers s tid :
  0 ≤ tid → buffer_of s tid = buffers s !! Z.to_nat tid.
Proof.
  intros Htid. unfold buffer_of, buffers, Vec.get.
  destruct (decide (tid = 0)) as [->|Hne]; [done|].
  rewrite decide_True by lia.
  replace (Z.to_nat tid) with (S (Z.to_nat (tid - 1))) by lia. done.
Qed.

(** X20. [CopySubFeature] never grows a buffer: when the rows of some
    block, filtered, hold more values than the buffer the block writes to
    ([data_] for block 0, [t_data_[tid - 1]] otherwise), the block writes
    past the end of that buffer and the call has no defined result. *)
Theorem CopySubFeature_undefined_on_buffer_overflow
    (VAL_T : VAL_T_kind) (num_threads : Z) (other : MultiValSparseBin)
    (lower upper delta : list Z) (s : MultiValSparseBin) (tid : Z)
    (buf : list Z) :
  filter_ok other lower upper delta →
  num_data_ s = num_data_ other →
  0 ≤ tid < Z.min num_threads (num_data_ s `quot` 1024) →
  buffer_of s tid = Some buf →
  (let n_block := Z.min num_threads (num_data_ s `quot` 1024) in
   let block_size := (num_data_ s + n_block - 1) `quot` n_block in
   Vec.size buf
   < Vec.size (concat (block_rows block_size tid
                         (rebin_row VAL_T lower upper delta
                          <$> rows_of other)))) →
  CopySubFeature VAL_T num_threads other lower upper delta s = None.
Proof.
  intros Hok Hn Htid Hbuf Hover. cbn zeta in Hover.
  pose proof Hok as (Hfin & _).
  pose proof (finalized_num_data other Hfin) as Hn0.
  set (n_block := Z.min num_threads (num_data_ s `quot` 1024)) in *.
  set (block_size := (num_data_ s + n_block - 1) `quot` n_block) in *.
  set (rebinned := rebin_row VAL_T lower upper delta <$> rows_of other) in *.
  assert (0 ≤ block_size) as Hbs by (apply Z.quot_pos; lia).
  assert (length rebinned = Z.to_nat (num_data_ other)) as Hlen.
  { unfold rebinned. rewrite length_fmap.
    pose proof (length_rows_of other Hfin) as Hl. unfold Vec.size in Hl. lia. }
  apply CopySubFeature_None with (tid := tid);
    cbn zeta; fold n_block block_size; [done|].
  intros s1 sizes Hn1 Hsizes.
  destruct (filter_block _ _ _ _ _ _ _ _) as [st'|] eqn:Hrun; [|done].
  exfalso. unfold filter_block in Hrun.
  change (if decide (tid = 0) then Some (data_ s1)
          else Vec.get (t_data_ s1) (tid - 1))
    with (buffer_of s1 tid) in Hrun.
  destruct (buffer_of s1 tid) as [buf1|] eqn:Hbuf1; [|done].
  cbn [mbind option_bind] in Hrun.
  assert (Vec.size buf1 = Vec.size buf) as Hsize.
  { rewrite buffer_of_buffers in Hbuf, Hbuf1 by lia.
    apply (f_equal (λ l, l !! Z.to_nat tid)) in Hsizes.
    rewrite !list_lookup_fmap, Hbuf, Hbuf1 in Hsizes. simpl in Hsizes.
    congruence. }
  destruct (for_range _ _ _ _) as [[[buf' bid] rp]|] eqn:Hrows; [|done].
  clear Hrun. rewrite Hn1, Hn in Hrows. rewrite Hn in *.
  set (start := tid * block_size) in *.
  assert (0 ≤ start) as Hstart by (unfold start; nia).
  destruct (decide (start ≤ Z.min (num_data_ other) (start + block_size)))
    as [Hle|Hgt].
  - apply (filter_block_rows_Some VAL_T lower upper delta other Hok)
      in Hrows; [|done|done|lia].
    fold rebinned in Hrows. unfold block_rows in Hover. fold start in Hover.
    rewrite <- (take_min_length _ (Z.to_nat block_size)) in Hover.
    replace (Z.to_nat block_size `min` length (drop (Z.to_nat start) rebinned))%nat
      with (Z.to_nat (Z.min (num_data_ other) (start + block_size) - start))
      in Hover by (rewrite length_drop; lia).
    lia.
  - unfold block_rows in Hover. fold start in Hover.
    rewrite drop_ge in Hover by lia. rewrite take_nil in Hover.
    pose proof (Vec_size_nonneg buf). unfold Vec.size at 2 in Hover.
    simpl in Hover. lia.
Qed.

Lemma CopySubFeature_undefined_on_buffer_overflow_witness :
  filter_ok large_source [0] [4] [0]
  ∧ num_data_ (large_dest 1000 []) = num_data_ large_source
  ∧ 0 ≤ 0 < Z.min 1 (num_data_ (large_dest 1000 []) `quot` 1024)
  ∧ buffer_of (large_dest 1000 []) 0 = Some (replicate 1000 0)
  ∧ (let n_block := Z.min 1 (num_data_ (large_dest 1000 []) `quot` 1024) in
     let block_size :=
       (num_data_ (large_dest 1000 []) + n_block - 1) `quot` n_block in
     Vec.size (replicate 1000 0)
     < Vec.size (concat (block_rows block_size 0
                           (rebin_row uint8_t [0] [4] [0]
                            <$> rows_of large_source))))
  ∧ CopySubFeature uint8_t 1 large_source [0] [4] [0] (large_dest 1000 [])
    = None.
Proof.
  assert (filter_ok large_source [0] [4] [0]) as Hok
    by (apply (bool_decide_unpack _); vm_compute; exact I).
  assert (let n_block :=
            Z.min 1 (num_data_ (large_dest 1000 []) `quot` 1024) in
          let block_size :=
            (num_data_ (large_dest 1000 []) + n_block - 1) `quot` n_block in
          Vec.size (replicate 1000 0)
          < Vec.size (concat (block_rows block_size 0
                                (rebin_row uint8_t [0] [4] [0]
                                 <$> rows_of large_source)))) as Hover
    by (vm_compute; reflexivity).
  split; [exact Hok|]. split; [reflexivity|].
  split; [vm_compute; split; [discriminate|reflexivity]|].
  split; [reflexivity|]. split; [exact Hover|].
  exact (CopySubFeature_undefined_on_buffer_overflow uint8_t 1 large_source
           [0] [4] [0] (large_dest 1000 []) 0 (replicate 1000 0) Hok eq_refl
           ltac:(vm_compute; split; [discriminate|reflexivity]) eq_refl
           Hover).
Defined.

(** Without thread buffers the merge leaves the primary buffer alone. *)
Lemma MoveData_no_thread_buffers use_ext_size sizes s s' :
  t_data_ s = [] → MoveData use_ext_size sizes s = Some s' →
  data_ s' = data_ s.
Proof.
  intros Ht. unfold MoveData. intros Hrun.
  destruct (for_range 0 (num_data_ s) _ (row_ptr_ s)) as [rp|]; [|done].
  cbn [mbind option_bind t_data_ set_row_ptr] in Hrun.
  rewrite Ht in Hrun. rewrite decide_False in Hrun by (by unfold Vec.size).
  by simplify_eq.
Qed.

(** Two lists that agree from a position on agree from every later one. *)
Lemma drop_eq_mono {A} (l1 l2 : list A) (n m : nat) :
  drop n l1 = drop n l2 → (n ≤ m)%nat → drop m l1 = drop m l2.
Proof.
  intros Heq Hle. replace m with (n + (m - n))%nat by lia.
  by rewrite <- !drop_drop, Heq.
Qed.

(** The filter writes at the cursor [bid] only: what lies behind the
    cursor it ends with is what the buffer held before. *)
Lemma filter_value_tail VAL_T lower upper delta v buf bid k cnt
    buf' bid' k' cnt' :
  0 ≤ bid →
  filter_value VAL_T lower upper delta v (buf, bid, k, cnt)
  = Some (buf', bid', k', cnt') →
  bid ≤ bid' ∧ drop (Z.to_nat bid') buf' = drop (Z.to_nat bid') buf.
Proof.
  intros Hbid Hrun. unfold filter_value in Hrun.
  destruct (advance upper v k) as [k1|]; [|done].
  cbn [mbind option_bind] in Hrun.
  destruct (Vec.get lower k1) as [l|]; [|done].
  cbn [mbind option_bind] in Hrun.
  destruct (decide (l ≤ v)).
  - destruct (Vec.get delta k1) as [d|]; [|done].
    cbn [mbind option_bind] in Hrun. unfold Vec.set in Hrun.
    case_decide; [|done]. cbn [mbind option_bind] in Hrun. simplify_eq.
    split; [lia|]. apply drop_insert_lt. lia.
  - by simplify_eq.
Qed.

Lemma filter_row_tail VAL_T other lower upper delta j_start j_end buf bid
    buf' bid' k' cnt' :
  0 ≤ bid →
  filter_row VAL_T other lower upper delta j_start j_end buf bid
  = Some (buf', bid', k', cnt') →
  bid ≤ bid' ∧ drop (Z.to_nat bid') buf' = drop (Z.to_nat bid') buf.
Proof.
  intros Hbid Hrun. unfold filter_row in Hrun.
  apply (for_range_Some_inv
           (λ st : list Z * Z * Z * Z,
              bid ≤ st.1.1.2
              ∧ drop (Z.to_nat st.1.1.2) st.1.1.1
                = drop (Z.to_nat st.1.1.2) buf)) in Hrun; [done|done|].
  intros j [[[b1 i1] k1] c1] [[[b2 i2] k2] c2] _ [Hle Htail] Hbody.
  simpl in Hle, Htail.
  destruct (Vec.get (data_ other) j) as [val|]; [|done].
  cbn [mbind option_bind] in Hbody.
  apply filter_value_tail in Hbody as [Hle2 Htail2]; [|lia].
  simpl. split; [lia|]. rewrite Htail2.
  apply (drop_eq_mono _ _ (Z.to_nat i1)); [done|lia].
Qed.

(** The loop over the rows [start, end) of a block, when it ends: the
    cursor stands behind the values the rows emitted, and the buffer
    behind the cursor is untouched. *)
Lemma filter_block_rows_tail VAL_T lower upper delta other
    start end_ buf0 rp0 buf bid rp :
  filter_ok other lower upper delta →
  0 ≤ start → start ≤ end_ → end_ ≤ num_data_ other →
  for_range start end_ (λ i '(buf, bid, rp),
    j_start ← RowPtr other i;
    j_end ← RowPtr other (i + 1);
    '(buf, bid, _, cur_cnt) ←
      filter_row VAL_T other lower upper delta j_start j_end buf bid;
    rp ← Vec.set rp (i + 1) cur_cnt;
    Some (buf, bid, rp)) (buf0, 0, rp0)
  = Some (buf, bid, rp) →
  bid = Vec.size (concat (take (Z.to_nat (end_ - start))
                            (drop (Z.to_nat start)
                               (rebin_row VAL_T lower upper delta
                                <$> rows_of other))))
  ∧ drop (Z.to_nat bid) buf = drop (Z.to_nat bid) buf0.
Proof.
  intros Hok Hstart Hle Hend Hrun. pose proof Hok as (Hfin & _).
  set (blk := drop (Z.to_nat start)
                (rebin_row VAL_T lower upper delta <$> rows_of other)) in *.
  assert (∀ i, start ≤ i < end_ →
            blk !! Z.to_nat (i - start)
            = Some (rebin_row VAL_T lower upper delta (row_slice other i)))
    as Hblk.
  { intros i Hi. unfold blk.
    rewrite lookup_drop, <- (lookup_rebinned VAL_T lower upper delta other Hok)
      by lia.
    f_equal. lia. }
  apply (for_range_Some_run
           (λ i (st : list Z * Z * list Z),
              st.1.2 = Vec.size (concat (take (Z.to_nat (i - start)) blk))
              ∧ drop (Z.to_nat st.1.2) st.1.1 = drop (Z.to_nat st.1.2) buf0))
    in Hrun.
  - done.
  - done.
  - simpl. by rewrite Z.sub_diag.
  - intros i [[b1 i1] r1] [[b2 i2] r2] Hi (Hbid & Htail) Hbody.
    simpl in Hbid, Htail.
    rewrite !(finalized_RowPtr other Hfin) in Hbody by lia.
    cbn [mbind option_bind] in Hbody.
    destruct (filter_row _ _ _ _ _ _ _ _ _) as [[[[b3 i3] k3] c3]|] eqn:Hrow;
      [|done].
    cbn [mbind option_bind] in Hbody.
    destruct (Vec.set r1 (i + 1) c3); [|done].
    cbn [mbind option_bind] in Hbody. simplify_eq.
    assert (0 ≤ Vec.size (concat (take (Z.to_nat (i - start)) blk))) as Hpos
      by apply Vec_size_nonneg.
    pose proof (filter_row_tail _ _ _ _ _ _ _ _ _ _ _ _ _ Hpos Hrow)
      as [Hle3 Htail3].
    apply (filter_row_Some VAL_T lower upper delta other Hok) in Hrow
      as [-> _]; [|lia].
    simpl.
    replace (Z.to_nat (i + 1 - start)) with (S (Z.to_nat (i - start))) by lia.
    rewrite (take_S_concat _ _ _ (Hblk i Hi)), Vec_size_app.
    split; [done|]. rewrite Htail3.
    eapply drop_eq_mono; [exact Htail|lia].
Qed.

(** X21. [CopySubFeature] shrinks no buffer either. Into a destination
    without thread buffers the call, when its preconditions hold, leaves
    [data_] at the size it had: the filtered rows lie at its front, the
    last offset is their number of values, and what follows is what the
    buffer held before. Only a destination with thread buffers is cut to
    the last offset. *)
Theorem CopySubFeature_keeps_size_of_single_buffer
    (VAL_T : VAL_T_kind) (num_threads : Z) (other : MultiValSparseBin)
    (lower upper delta : list Z) (s0 : MultiValSparseBin) :
  filter_ok other lower upper delta →
  dest_ok num_threads (rebin_row VAL_T lower upper delta <$> rows_of other) s0 →
  t_data_ s0 = [] →
  ∃ s',
    CopySubFeature VAL_T num_threads other lower upper delta s0 = Some s'
    ∧ Vec.size (data_ s') = Vec.size (data_ s0)
    ∧ RowIndex s' (num_data_ s')
      = Vec.size (concat (rebin_row VAL_T lower upper delta <$> rows_of other))
    ∧ data_ s'
      = concat (rebin_row VAL_T lower upper delta <$> rows_of other)
        ++ drop (length (concat (rebin_row VAL_T lower upper delta
                                 <$> rows_of other)))
             (data_ s0).
Proof.
  intros Hok Hdest Ht.
  destruct (CopySubFeature_spec VAL_T lower upper delta other Hok
              num_threads s0 Hdest)
    as (s' & Hs' & Hnum & Hrp & Htake & _).
  set (rebinned := rebin_row VAL_T lower upper delta <$> rows_of other) in *.
  pose proof Hdest as (Hrows & _). cbn zeta in Hrows.
  exists s'. split; [done|]. split; [|split].
  - unfold CopySubFeature in Hs'. cbn zeta in Hs'.
    destruct (int_div _ _) as [block_size|]; [|done].
    cbn [mbind option_bind] in Hs'.
    destruct (for_range _ _ _ _) as [[s1 sizes]|] eqn:Hloop; [|done].
    cbn [mbind option_bind] in Hs'.
    apply (for_range_Some_inv
             (λ st : MultiValSparseBin * list Z,
                Vec.size <$> buffers st.1 = Vec.size <$> buffers s0))
      in Hloop; [|done|].
    2:{ intros j st st' _ Hst Hrun.
        apply filter_block_keeps in Hrun as [_ ->]. done. }
    cbn [fst] in Hloop. unfold buffers in Hloop. rewrite Ht in Hloop.
    rewrite !fmap_cons in Hloop. injection Hloop as Hd Ht1.
    apply fmap_nil_inv in Ht1.
    by rewrite (MoveData_no_thread_buffers _ _ _ _ Ht1 Hs').
  - unfold RowIndex, RowPtr. rewrite Hrp, Hnum, Hrows.
    rewrite get_offsets_of by (pose proof (Vec_size_nonneg rebinned); lia).
    simpl. unfold Vec.size at 2. by rewrite Nat2Z.id, firstn_all.
  - pose proof (take_drop (Z.to_nat (Vec.size (concat rebinned))) (data_ s'))
      as Hsplit.
    rewrite Htake in Hsplit. unfold Vec.size in Hsplit.
    rewrite Nat2Z.id in Hsplit. rewrite <- Hsplit at 1. f_equal.
    assert (Vec.size rebinned = num_data_ other) as Hlen
      by apply (length_rebinned VAL_T lower upper delta other Hok).
    pose proof (Vec_size_nonneg rebinned) as Hpos.
    pose proof Hdest as (_ & _ & _ & Hb & Hbufs). cbn zeta in Hb, Hbufs.
    assert (Z.min num_threads (num_data_ s0 `quot` 1024) = 1) as Hone.
    { destruct (decide (Z.min num_threads (num_data_ s0 `quot` 1024) = 1))
        as [|Hne]; [done|].
      exfalso. rewrite Forall_forall in Hbufs.
      specialize (Hbufs 1). unfold buffer_of in Hbufs. rewrite Ht in Hbufs.
      apply Hbufs. apply elem_of_seqZ. lia. }
    unfold CopySubFeature, int_div in Hs'. cbn zeta in Hs'.
    rewrite Hone in Hs'. rewrite decide_False in Hs' by done.
    cbn [mbind option_bind] in Hs'.
    replace ((num_data_ s0 + 1 - 1) `quot` 1) with (num_data_ s0) in Hs'
      by (rewrite Z.quot_1_r; lia).
    change (for_range 0 1 ?body ?init) with (st ← body 0 init; Some st) in Hs'.
    destruct (filter_block _ _ _ _ _ _ _ _) as [[s1 sizes]|] eqn:Hblock;
      [|done].
    cbn [mbind option_bind] in Hs'.
    unfold filter_block in Hblock. rewrite !decide_True in Hblock by done.
    cbn [mbind option_bind] in Hblock.
    destruct (for_range _ _ _ _) as [[[buf bid] rp]|] eqn:Hloop; [|done].
    cbn [mbind option_bind] in Hblock.
    destruct (Vec.set _ 0 bid); [|done].
    cbn [mbind option_bind] in Hblock.
    rewrite decide_True in Hblock by done.
    cbn [mbind option_bind] in Hblock. simplify_eq.
    rewrite (MoveData_no_thread_buffers true sizes
               (set_row_ptr (set_data s0 buf) rp) s' Ht Hs').
    cbn [data_ set_data set_row_ptr].
    replace (Z.min (num_data_ s0) (0 * num_data_ s0 + num_data_ s0))
      with (num_data_ other) in Hloop by lia.
    apply (filter_block_rows_tail VAL_T lower upper delta other) in Hloop
      as [Hbid Htail]; [|done|lia|lia|lia].
    fold rebinned in Hbid. rewrite Z.mul_0_l, drop_0 in Hbid.
    rewrite take_ge in Hbid by (unfold Vec.size in Hlen; lia).
    rewrite Hbid in Htail. unfold Vec.size in Htail.
    by rewrite Nat2Z.id in Htail.
Qed.

Lemma CopySubFeature_keeps_size_of_single_buffer_witness :
  filter_ok large_source [1] [4] [1]
  ∧ dest_ok 1 (rebin_row uint8_t [1] [4] [1] <$> rows_of large_source)
      (large_dest 2000 [])
  ∧ t_data_ (large_dest 2000 []) = []
  ∧ ∃ s',
      CopySubFeature uint8_t 1 large_source [1] [4] [1] (large_dest 2000 [])
      = Some s'
      ∧ Vec.size (data_ s') = Vec.size (data_ (large_dest 2000 []))
      ∧ RowIndex s' (num_data_ s')
        = Vec.size (concat (rebin_row uint8_t [1] [4] [1]
                            <$> rows_of large_source))
      ∧ data_ s'
        = concat (rebin_row uint8_t [1] [4] [1] <$> rows_of large_source)
          ++ drop (length (concat (rebin_row uint8_t [1] [4] [1]
                                   <$> rows_of large_source)))
               (data_ (large_dest 2000 [])).
Proof.
  assert (filter_ok large_source [1] [4] [1]) as Hok
    by (apply (bool_decide_unpack _); vm_compute; exact I).
  assert (dest_ok 1 (rebin_row uint8_t [1] [4] [1] <$> rows_of large_source)
            (large_dest 2000 [])) as Hdest
    by (apply (bool_decide_unpack _); vm_compute; exact I).
  split; [exact Hok|]. split; [exact Hdest|]. split; [reflexivity|].
  exact (CopySubFeature_keeps_size_of_single_buffer uint8_t 1 large_source
           [1] [4] [1] (large_dest 2000 []) Hok Hdest eq_refl).
Defined.
